(** * Build-info creation and merging ([conans/build_info/build_info.py])

    A shallow embedding of the lockfile traversal, the artifact sets and the
    document merge of [build_info.py], and the properties of the
    natural-language specification that hold (or fail) on it; then of the
    parsing of references, [process_lockfile], the artifacts of the cache
    metadata, the serialisation of sets, [_parse_options] and
    [publish_build_info], with further properties of the code; last, of
    the merge on documents that are not well-formed.

    Conventions:
    - a Python exception is a value of [exn]; a call that may raise returns
      a [Result];
    - a [dict] whose keys are fixed by the program (artifact, module,
      document, lockfile node) is a record, and a key that may be missing
      is an [option];
    - a [dict] that is iterated, or built key by key, keeps its insertion
      order: it is an association list ([odict]); [os.environ], which is
      only looked up and filtered, is a [gmap];
    - a [set] is a list without repetition, where membership is decided
      as CPython does: same hash and [__eq__];
    - the merge is given twice: on values, the list of [lhs["modules"]]
      being passed through the loop, and on a heap of objects
      ([InPlace]), where it assigns in place; [merge_refines] relates the
      two;
    - the parsing of references, the serialisation and the publishing
      raise exceptions that [exn] lacks: they are those of [pyexn], and a
      call that may raise them returns a [Res];
    - what the code calls in other modules ([ConanFileReference.loads],
      [requests], [urlparse], the cache and its metadata) is a variable
      of a section. *)

From Stdlib Require OrderedTypeEx.
From stdpp Require Import base option list strings gmap sorting.

Local Open Scope string_scope.
Local Open Scope list_scope.
Local Open Scope stdpp_scope.

(** ** Exceptions and results *)

Inductive exn : Type :=
| AssertionError (msg : option string)
| KeyError (key : string)
| TypeError
| RecursionError
| AuthenticationException (msg : string)
| RequestErrorException (msg : string).

Inductive Result (A : Type) : Type :=
| Ok (a : A)
| Raise (e : exn).

Arguments Ok {A} a.
Arguments Raise {A} e.

Global Instance Result_ret : MRet Result := λ A a, Ok a.
Global Instance Result_bind : MBind Result := λ A B f m,
  match m with
  | Ok a => f a
  | Raise e => Raise e
  end.

(** [assert cond, msg] *)
Definition py_assert (cond : bool) (msg : option string) : Result unit :=
  if cond then Ok tt else Raise (AssertionError msg).

(** [for x in xs: acc = body(x, acc)], stopping at the first exception. *)
Fixpoint for_each {A S : Type} (xs : list A) (acc : S)
    (body : A → S → Result S) : Result S :=
  match xs with
  | [] => Ok acc
  | x :: xs' => acc' ← body x acc; for_each xs' acc' body
  end.

(** ** Insertion-ordered dictionaries *)

Section odict.
Context {V : Type}.

Definition odict := list (string * V).

Fixpoint dict_contains (k : string) (d : odict) : bool :=
  match d with
  | [] => false
  | (k', _) :: d' => if String.eqb k' k then true else dict_contains k d'
  end.

Fixpoint dict_get (k : string) (d : odict) : option V :=
  match d with
  | [] => None
  | (k', v) :: d' => if String.eqb k' k then Some v else dict_get k d'
  end.

(** [d[k]] *)
Definition dict_getitem (k : string) (d : odict) : Result V :=
  match dict_get k d with
  | Some v => Ok v
  | None => Raise (KeyError k)
  end.

(** [d[k] = v]: an existing key keeps its position, a new key goes last. *)
Fixpoint dict_setitem (k : string) (v : V) (d : odict) : odict :=
  match d with
  | [] => [(k, v)]
  | (k', v') :: d' =>
      if String.eqb k' k then (k', v) :: d'
      else (k', v') :: dict_setitem k v d'
  end.

Definition dict_keys (d : odict) : list string := d.*1.
Definition dict_values (d : odict) : list V := d.*2.
End odict.

Arguments odict V : clear implicits.

(** ** Data model *)

(** [Artifact = namedtuple('Artifact', ["sha1", "md5", "name", "id"])]; the
    same four keys make up an artifact entry of a serialised document, where
    a field that is [None] is left out. *)
Record Artifact : Type := mkArtifact {
  art_sha1 : string;
  art_md5 : string;
  art_name : option string;
  art_id : option string
}.

(** A module of a document: [{"id": .., "artifacts": [..], "dependencies": [..]}]. *)
Record BuildModule : Type := mkModule {
  mod_id : string;
  mod_artifacts : list Artifact;
  mod_dependencies : list Artifact
}.

(** The document written by [BuildInfoCreator.create]. *)
Record BuildInfo : Type := mkBuildInfo {
  bi_version : string;
  bi_name : string;
  bi_number : string;
  bi_type : string;
  bi_started : string;
  bi_buildAgent : string * string;
  bi_modules : list BuildModule;
  bi_properties : option (gmap string string)
}.

(** What [merge_buildinfo] receives: the empty dict [{}] ([None]) or a
    document. *)
Definition Doc : Type := option BuildInfo.

Global Instance Artifact_eq_dec : EqDecision Artifact.
Proof. solve_decision. Defined.
Global Instance BuildModule_eq_dec : EqDecision BuildModule.
Proof. solve_decision. Defined.

(** [art[k]] on an artifact entry. *)
Definition Artifact_getitem (art : Artifact) (k : string) : Result string :=
  if String.eqb k "sha1" then Ok (art_sha1 art)
  else if String.eqb k "md5" then Ok (art_md5 art)
  else if String.eqb k "name" then
    match art_name art with Some v => Ok v | None => Raise (KeyError k) end
  else if String.eqb k "id" then
    match art_id art with Some v => Ok v | None => Raise (KeyError k) end
  else Raise (KeyError k).

(** [module[key]] for the two list-valued keys. *)
Definition BuildModule_getlist (m : BuildModule) (key : string)
    : Result (list Artifact) :=
  if String.eqb key "artifacts" then Ok (mod_artifacts m)
  else if String.eqb key "dependencies" then Ok (mod_dependencies m)
  else if String.eqb key "id" then Raise TypeError
  else Raise (KeyError key).

(** ** Merging documents *)

(** Truth value of a document: a dict is false exactly when it is empty. *)
Definition truthy (d : Doc) : bool :=
  match d with Some _ => true | None => false end.

(** [lhs or rhs] *)
Definition py_or (lhs rhs : Doc) : Doc := if truthy lhs then lhs else rhs.

(** [find_module]: the position of the first module with this id in
    [build_info["modules"]]; when there is none an empty module is appended
    and its position returned. *)
Definition find_module (modules : list BuildModule) (module_id : string)
    : nat * list BuildModule :=
  match list_find (λ it, String.eqb (mod_id it) module_id = true) modules with
  | Some (i, _) => (i, modules)
  | None =>
      let new_module := mkModule module_id [] [] in
      (length modules, modules ++ [new_module])
  end.

(** The message of the assertion in [merge_artifacts]. *)
Definition conflict_msg (cmp_key a b art_cmp_key : string) : string :=
  "(" +:+ cmp_key +:+ ") " +:+ a +:+ " != " +:+ b +:+ " for sha1="
      +:+ art_cmp_key.

(** [{it[cmp_key]: it for it in items}] *)
Definition key_by (cmp_key : string) (items : list Artifact)
    : Result (odict Artifact) :=
  for_each items [] (λ it ret,
    k ← Artifact_getitem it cmp_key;
    Ok (dict_setitem k it ret)).

(** The body of the loop over [rhs[key]]. *)
Definition merge_step (cmp_key : string) (art : Artifact)
    (ret : odict Artifact) : Result (odict Artifact) :=
  art_cmp_key ← Artifact_getitem art cmp_key;
  if dict_contains art_cmp_key ret then
    a ← Artifact_getitem art cmp_key;
    other ← dict_getitem art_cmp_key ret;
    b ← Artifact_getitem other cmp_key;
    _ ← py_assert (String.eqb a b)
          (Some (conflict_msg cmp_key a b art_cmp_key));
    Ok ret
  else Ok (dict_setitem art_cmp_key art ret).

Definition merge_artifacts (lhs rhs : BuildModule) (key cmp_key : string)
    : Result (list Artifact) :=
  lhs_items ← BuildModule_getlist lhs key;
  ret ← key_by cmp_key lhs_items;
  rhs_items ← BuildModule_getlist rhs key;
  ret ← for_each rhs_items ret (merge_step cmp_key);
  Ok (dict_values ret).

(** One iteration of the loop of [merge_buildinfo], on the list held by
    [lhs["modules"]]: [lhs_module] is the entry at position [i], and the two
    assignments replace its fields in place. *)
Definition merge_module (rhs_module : BuildModule)
    (modules : list BuildModule) : Result (list BuildModule) :=
  let '(i, modules) := find_module modules (mod_id rhs_module) in
  match modules !! i with
  | None => Raise TypeError
  | Some lhs_module =>
      arts ← merge_artifacts lhs_module rhs_module "artifacts" "name";
      let lhs_module :=
        mkModule (mod_id lhs_module) arts (mod_dependencies lhs_module) in
      deps ← merge_artifacts lhs_module rhs_module "dependencies" "id";
      let lhs_module :=
        mkModule (mod_id lhs_module) (mod_artifacts lhs_module) deps in
      Ok (<[i := lhs_module]> modules)
  end.

Definition set_modules (d : BuildInfo) (modules : list BuildModule)
    : BuildInfo :=
  mkBuildInfo (bi_version d) (bi_name d) (bi_number d) (bi_type d)
    (bi_started d) (bi_buildAgent d) modules (bi_properties d).

Definition merge_buildinfo (lhs rhs : Doc) : Result Doc :=
  if negb (truthy lhs) || negb (truthy rhs) then Ok (py_or lhs rhs)
  else
    match lhs, rhs with
    | Some l, Some r =>
        _ ← py_assert (String.eqb (bi_version l) (bi_version r)) None;
        _ ← py_assert (String.eqb (bi_name l) (bi_name r)) None;
        _ ← py_assert (String.eqb (bi_number l) (bi_number r)) None;
        modules ← for_each (bi_modules r) (bi_modules l) merge_module;
        Ok (Some (set_modules l modules))
    | _, _ => Ok (py_or lhs rhs)
    end.

(** [update_build_info], without the file reads and the final write: the
    documents are merged from the left, starting from [{}]. *)
Definition update_build_info (buildinfo : list Doc) : Result Doc :=
  for_each buildinfo None (λ data build_info, merge_buildinfo build_info data).

(** ** Specification-side notions for the merge *)

(** The key of an entry, when it has one. *)
Definition key_of (cmp_key : string) (a : Artifact) : option string :=
  match Artifact_getitem a cmp_key with
  | Ok k => Some k
  | Raise _ => None
  end.

(** Every entry carries the key and no two entries share it. *)
Definition well_keyed (cmp_key : string) (items : list Artifact) : Prop :=
  Forall (λ a, is_Some (key_of cmp_key a)) items
  ∧ NoDup (key_of cmp_key <$> items).

Global Instance well_keyed_dec cmp_key items : Decision (well_keyed cmp_key items).
Proof. unfold well_keyed. apply _. Defined.

Definition module_wf (m : BuildModule) : Prop :=
  well_keyed "name" (mod_artifacts m) ∧ well_keyed "id" (mod_dependencies m).

(** The invariant of a document: module ids are unique and the collections
    of every module are keyed. *)
Definition doc_wf (d : BuildInfo) : Prop :=
  NoDup (mod_id <$> bi_modules d) ∧ Forall module_wf (bi_modules d).

Global Instance module_wf_dec m : Decision (module_wf m).
Proof. unfold module_wf. apply _. Defined.
Global Instance doc_wf_dec d : Decision (doc_wf d).
Proof. unfold doc_wf. apply _. Defined.

(** The entries of [l], then those of [r] whose key [l] does not have. *)
Definition merged_items (cmp_key : string) (l r : list Artifact)
    : list Artifact :=
  l ++ filter (λ a, key_of cmp_key a ∉ key_of cmp_key <$> l) r.

(** What the merge makes of a module present on both sides. *)
Definition merge_mod (lm rm : BuildModule) : BuildModule :=
  mkModule (mod_id lm)
    (merged_items "name" (mod_artifacts lm) (mod_artifacts rm))
    (merged_items "id" (mod_dependencies lm) (mod_dependencies rm)).

(** The two documents belong to the same build. *)
Definition compatible (l r : BuildInfo) : Prop :=
  bi_version l = bi_version r ∧ bi_name l = bi_name r
  ∧ bi_number l = bi_number r.

(** The module an id names in a list of modules (the first one). *)
Definition lookup_module (module_id : string) (modules : list BuildModule)
    : option BuildModule :=
  snd <$> list_find (λ it, String.eqb (mod_id it) module_id = true) modules.

(** The module the merged document holds under an id, from the modules the
    two sides hold under it. *)
Definition combine_modules (lm rm : option BuildModule)
    : option BuildModule :=
  match lm, rm with
  | Some l, Some r => Some (merge_mod l r)
  | Some l, None => Some l
  | None, Some r => Some r
  | None, None => None
  end.

(** An entry of every dictionary is stored under its own key. *)
Definition keyed (cmp_key : string) (ret : odict Artifact) : Prop :=
  Forall (λ kv, Artifact_getitem kv.2 cmp_key = Ok kv.1) ret.

(** ** Artifacts as set elements *)

(** [==] on [None] or a string. *)
Definition opt_eqb (a b : option string) : bool :=
  match a, b with
  | Some x, Some y => String.eqb x y
  | None, None => true
  | _, _ => false
  end.

(** [Artifact.__eq__]: the class overrides [__hash__] only, so equality is
    the one of [tuple], field by field. *)
Definition Artifact_eq (a b : Artifact) : bool :=
  String.eqb (art_sha1 a) (art_sha1 b)
  && String.eqb (art_md5 a) (art_md5 b)
  && opt_eqb (art_name a) (art_name b)
  && opt_eqb (art_id a) (art_id b).

Section sets.
(** The hash of a string, whatever the interpreter makes it. *)
Variable hash : string → Z.

(** [Artifact.__hash__] *)
Definition Artifact_hash (a : Artifact) : Z := hash (art_sha1 a).

(** A [set] of artifacts, in insertion order (a Python set iterates in an
    order of its own; nothing below depends on it). *)
Definition PySet : Type := list Artifact.

(** [x in s]: an element with the same hash that is equal to [x]. *)
Definition set_contains (x : Artifact) (s : PySet) : bool :=
  existsb (λ y, Z.eqb (Artifact_hash y) (Artifact_hash x) && Artifact_eq y x) s.

(** [s.add(x)] *)
Definition set_add (x : Artifact) (s : PySet) : PySet :=
  if set_contains x s then s else s ++ [x].

(** [s.update(t)] *)
Definition set_update (s t : PySet) : PySet :=
  fold_left (λ acc x, set_add x acc) t s.

(** [set(l)] *)
Definition set_of_list (l : list Artifact) : PySet := set_update [] l.
End sets.

(** ** The environment snapshot of [BuildInfoCreator.create] *)

Definition excluded : list string := ["secret"; "key"; "password"].

(** [k in l] on a list of strings. *)
Definition list_contains (k : string) (l : list string) : bool :=
  existsb (String.eqb k) l.

(** [{"buildInfo.env.{}".format(k): v for k, v in os.environ.items()
      if k not in excluded}] *)
Definition environment (environ : gmap string string) : gmap string string :=
  list_to_map
    ((λ kv, ("buildInfo.env." +:+ kv.1, kv.2)) <$>
       filter (λ kv, list_contains kv.1 excluded = false) (map_to_list environ)).

(** The ["properties"] entry of the document: set only when the environment
    is not skipped. *)
Definition create_properties (skip_env : bool) (environ : gmap string string)
    : option (gmap string string) :=
  if negb skip_env then Some (environment environ) else None.

(** [sub in s] on strings. *)
Fixpoint str_contains (sub s : string) : bool :=
  String.prefix sub s
  || match s with
     | EmptyString => false
     | String _ s' => str_contains sub s'
     end.

(** ** The lockfile graph and its traversal *)

(** A node of [data["graph_lock"]["nodes"]]; a node without ["requires"]
    has the empty mapping. *)
Record LockNode : Type := mkNode {
  pref : string;
  requires : odict string;
  modified : bool
}.

(** A computation that calls the resolver: its result and the references
    the resolver was called with, in order. *)
Definition Traced (A : Type) : Type := Result A * list string.

Definition traced_ret {A} (a : A) : Traced A := (Ok a, []).

Definition traced_bind {A B} (m : Traced A) (f : A → Traced B) : Traced B :=
  match m with
  | (Ok a, log) => let '(r, log') := f a in (r, log ++ log')
  | (Raise e, log) => (Raise e, log)
  end.

(** [for x in xs: acc = body(x, acc)] around calls of the resolver. *)
Fixpoint for_each_traced {A S : Type} (xs : list A) (acc : S)
    (body : A → S → Traced S) : Traced S :=
  match xs with
  | [] => traced_ret acc
  | x :: xs' =>
      traced_bind (body x acc) (λ acc', for_each_traced xs' acc' body)
  end.

Section traversal.
Variable hash : string → Z.

(** The resolver passed as [func]: [_get_recipe_artifacts] or
    [_get_package_artifacts] with [add_prefix=True, use_id=True], which
    returns a fresh set or raises. *)
Variable func : string → Result PySet.

(** [_gather_deps]; [limit] is the depth of recursion the interpreter
    still allows, beyond which the call raises [RecursionError]. *)
Fixpoint _gather_deps (limit : nat) (node_uid : string)
    (contents : gmap string LockNode) : Traced PySet :=
  match limit with
  | 0 => (Raise RecursionError, [])
  | S limit' =>
      match contents !! node_uid with
      | None => (Raise TypeError, [])
      | Some node_content =>
          traced_bind (func (pref node_content), [pref node_content])
            (λ artifacts,
               for_each_traced (requires node_content) artifacts
                 (λ item artifacts,
                    traced_bind (_gather_deps limit' item.2 contents)
                      (λ deps, traced_ret (set_update hash artifacts deps))))
      end
  end.
End traversal.

(** Following dependency slots from a node: the node reached. *)
Fixpoint walk (contents : gmap string LockNode) (node_uid : string)
    (path : list string) : option string :=
  match path with
  | [] => match contents !! node_uid with
          | Some _ => Some node_uid
          | None => None
          end
  | slot :: path' =>
      node ← contents !! node_uid;
      child ← dict_get slot (requires node);
      walk contents child path'
  end.

(** The reference of the node a path ends at. *)
Definition pref_at (contents : gmap string LockNode) (node_uid : string)
    (path : list string) : string :=
  match walk contents node_uid path ≫= (contents !!.) with
  | Some node => pref node
  | None => ""
  end.

(** The dependency paths of fewer than [limit] slots from a node, parents
    before children and children in the order of ["requires"]. *)
Fixpoint paths (limit : nat) (contents : gmap string LockNode)
    (node_uid : string) : list (list string) :=
  match limit with
  | 0 => []
  | S limit' =>
      match contents !! node_uid with
      | None => []
      | Some node =>
          [] :: (requires node ≫=
                   λ item, (item.1 ::.) <$> paths limit' contents item.2)
      end
  end.

(** The slots of every node are distinct (they are the keys of a dict). *)
Definition graph_wf (contents : gmap string LockNode) : Prop :=
  map_Forall (λ _ node, NoDup (dict_keys (requires node))) contents.

(** Every required node is in the graph. *)
Definition graph_closed (contents : gmap string LockNode) : Prop :=
  map_Forall (λ _ node,
    Forall (λ child, is_Some (contents !! child)) (dict_values (requires node)))
    contents.

(** ** The merge on the heap

    [merge_buildinfo] works on objects: it appends to the list held by
    [lhs["modules"]] and assigns to the keys of the module dicts found
    there. Here documents, module lists and module dicts are objects of a
    heap, named by their location; the artifact lists are values, since
    the merge replaces them and never changes one in place. *)

Module InPlace.

Definition loc : Type := nat.

Record DocObj : Type := mkDocObj {
  do_version : string;
  do_name : string;
  do_number : string;
  do_type : string;
  do_started : string;
  do_buildAgent : string * string;
  do_modules : loc;
  do_properties : option (gmap string string)
}.

Inductive obj : Type :=
| OEmpty                       (* the dict [{}] *)
| ODoc (d : DocObj)            (* a document *)
| OList (items : list loc)     (* a list of modules *)
| OModule (m : BuildModule).   (* a module *)

Abbreviation heap := (gmap loc obj).

(** The functions on values, under the names they keep outside. *)
Abbreviation pure_merge_artifacts := merge_artifacts.
Abbreviation pure_find_module := find_module.
Abbreviation pure_merge_buildinfo := merge_buildinfo.

(** A computation on the heap: its result or exception and the heap it
    leaves; [None] when the iteration bound of a loop is exhausted. *)
Definition St (A : Type) : Type := heap → option (Result A * heap).

Definition st_ret {A} (a : A) : St A := λ h, Some (Ok a, h).
Definition st_lift {A} (r : Result A) : St A := λ h, Some (r, h).
Definition st_bind {A B} (m : St A) (f : A → St B) : St B := λ h,
  match m h with
  | Some (Ok a, h') => f a h'
  | Some (Raise e, h') => Some (Raise e, h')
  | None => None
  end.

Notation "x ⇐ m ; k" := (st_bind m (λ x, k))
  (at level 20, m at level 100, k at level 200, only parsing,
   right associativity).

(** The object a reference names. *)
Definition st_get (l : loc) : St obj := λ h,
  match h !! l with
  | Some o => Some (Ok o, h)
  | None => Some (Raise TypeError, h)
  end.

Definition st_put (l : loc) (o : obj) : St unit := λ h,
  Some (Ok tt, <[l := o]> h).

(** A new object. *)
Definition st_alloc (o : obj) : St loc := λ h,
  let l := fresh (dom h) in Some (Ok l, <[l := o]> h).

(** The truth value of an object: empty containers are false. *)
Definition truthy (l : loc) : St bool := λ h,
  match h !! l with
  | Some OEmpty | Some (OList []) => Some (Ok false, h)
  | _ => Some (Ok true, h)
  end.

(** What [o[key]] raises when [o] has no such key or is no dict. *)
Definition getitem_error (o : obj) (key : string) : exn :=
  match o with
  | OList _ => TypeError
  | _ => KeyError key
  end.

(** [d["version"]], [d["name"]], [d["number"]], [d["modules"]] *)
Definition get_doc (l : loc) (key : string) : St DocObj :=
  o ⇐ st_get l;
  match o with
  | ODoc d => st_ret d
  | _ => st_lift (Raise (getitem_error o key))
  end.

(** [m["id"]], [m["artifacts"]], [m["dependencies"]] *)
Definition get_module (l : loc) (key : string) : St BuildModule :=
  o ⇐ st_get l;
  match o with
  | OModule m => st_ret m
  | _ => st_lift (Raise (getitem_error o key))
  end.

Definition get_list (l : loc) : St (list loc) :=
  o ⇐ st_get l;
  match o with
  | OList items => st_ret items
  | _ => st_lift (Raise TypeError)
  end.

(** The loop of [find_module]: the first module with this id. *)
Fixpoint find_loop (items : list loc) (module_id : string)
    : St (option loc) :=
  match items with
  | [] => st_ret None
  | it :: items' =>
      m ⇐ get_module it "id";
      if String.eqb (mod_id m) module_id then st_ret (Some it)
      else find_loop items' module_id
  end.

Definition find_module (build_info : loc) (module_id : string) : St loc :=
  d ⇐ get_doc build_info "modules";
  items ⇐ get_list (do_modules d);
  found ⇐ find_loop items module_id;
  match found with
  | Some it => st_ret it
  | None =>
      new_module ⇐ st_alloc (OModule (mkModule module_id [] []));
      d ⇐ get_doc build_info "modules";
      items ⇐ get_list (do_modules d);
      _ ⇐ st_put (do_modules d) (OList (items ++ [new_module]));
      st_ret new_module
  end.

(** [merge_artifacts] reads the two modules and builds a new list. *)
Definition merge_artifacts (lhs rhs : loc) (key cmp_key : string)
    : St (list Artifact) :=
  lm ⇐ get_module lhs key;
  rm ⇐ get_module rhs key;
  st_lift (pure_merge_artifacts lm rm key cmp_key).

(** [m["artifacts"] = arts] and [m["dependencies"] = deps] *)
Definition set_artifacts (l : loc) (arts : list Artifact) : St unit :=
  m ⇐ get_module l "artifacts";
  st_put l (OModule (mkModule (mod_id m) arts (mod_dependencies m))).

Definition set_dependencies (l : loc) (deps : list Artifact) : St unit :=
  m ⇐ get_module l "dependencies";
  st_put l (OModule (mkModule (mod_id m) (mod_artifacts m) deps)).

(** The body of the loop of [merge_buildinfo]. *)
Definition merge_body (lhs rhs_module : loc) : St unit :=
  rm ⇐ get_module rhs_module "id";
  lhs_module ⇐ find_module lhs (mod_id rm);
  arts ⇐ merge_artifacts lhs_module rhs_module "artifacts" "name";
  _ ⇐ set_artifacts lhs_module arts;
  deps ⇐ merge_artifacts lhs_module rhs_module "dependencies" "id";
  set_dependencies lhs_module deps.

(** [for rhs_module in rhs["modules"]]: the iterator reads the list
    object at position [i] on every round, so it sees what is appended
    meanwhile; [bound] is the number of rounds allowed. *)
Fixpoint merge_loop (bound : nat) (lhs rhs_modules : loc) (i : nat)
    : St unit :=
  λ h,
    match (get_list rhs_modules) h with
    | Some (Ok items, h) =>
        match items !! i with
        | None => Some (Ok tt, h)
        | Some rhs_module =>
            match bound with
            | 0 => None
            | S bound' =>
                (_ ⇐ merge_body lhs rhs_module;
                 merge_loop bound' lhs rhs_modules (S i)) h
            end
        end
    | Some (Raise e, h) => Some (Raise e, h)
    | None => None
    end.

Definition merge_buildinfo (lhs rhs : loc) : St loc :=
  lhs_true ⇐ truthy lhs;
  rhs_true ⇐ (if lhs_true then truthy rhs else st_ret true);
  if negb lhs_true || negb rhs_true then
    st_ret (if lhs_true then lhs else rhs)
  else
    l ⇐ get_doc lhs "version";
    r ⇐ get_doc rhs "version";
    _ ⇐ st_lift (py_assert (String.eqb (do_version l) (do_version r)) None);
    _ ⇐ st_lift (py_assert (String.eqb (do_name l) (do_name r)) None);
    _ ⇐ st_lift (py_assert (String.eqb (do_number l) (do_number r)) None);
    items ⇐ get_list (do_modules r);
    _ ⇐ merge_loop (length items) lhs (do_modules r) 0;
    st_ret lhs.

(** The locations a document is made of. *)
Definition footprint (h : heap) (doc : loc) : list loc :=
  match h !! doc with
  | Some (ODoc d) =>
      match h !! do_modules d with
      | Some (OList items) => doc :: do_modules d :: items
      | _ => [doc; do_modules d]
      end
  | _ => [doc]
  end.

(** The document a location holds, as a value. *)
Definition read_modules (h : heap) (items : list loc)
    : option (list BuildModule) :=
  mapM (λ l, match h !! l with Some (OModule m) => Some m | _ => None end)
    items.

(** The locations [items] hold the modules [ms], in this order. *)
Definition rep (h : heap) (items : list loc) (ms : list BuildModule) : Prop :=
  Forall2 (λ it m, h !! it = Some (OModule m)) items ms.

Definition doc_value (d : DocObj) (modules : list BuildModule) : BuildInfo :=
  mkBuildInfo (do_version d) (do_name d) (do_number d) (do_type d)
    (do_started d) (do_buildAgent d) modules (do_properties d).

Definition read_doc (h : heap) (doc : loc) : option Doc :=
  match h !! doc with
  | Some OEmpty => Some None
  | Some (ODoc d) =>
      match h !! do_modules d with
      | Some (OList items) =>
          modules ← read_modules h items;
          Some (Some (doc_value d modules))
      | _ => None
      end
  | _ => None
  end.

(** What holds of the heap [h] all along a merge started in [h0] on a
    left document [ld] whose list held [litems]: objects that are no
    modules stay as they were, but for the list of the left document;
    modules that are not in that list stay as they were; that list has
    only grown, by objects created meanwhile; nothing is freed. *)
Definition Inv (h0 : heap) (ld : DocObj) (litems : list loc) (h : heap)
    : Prop :=
  (∀ l o, h0 !! l = Some o → l ≠ do_modules ld →
          (∀ m, o ≠ OModule m) → h !! l = Some o)
  ∧ (∀ l m, h0 !! l = Some (OModule m) → l ∉ litems →
            h !! l = Some (OModule m))
  ∧ (∃ new, h !! do_modules ld = Some (OList (litems ++ new))
            ∧ ∀ n, n ∈ new → h0 !! n = None)
  ∧ (∀ l, is_Some (h0 !! l) → is_Some (h !! l)).

(** A location the merge may assign to: a module of the current list. *)
Definition target (ld : DocObj) (h : heap) (it : loc) : Prop :=
  ∃ cur m, h !! do_modules ld = Some (OList cur) ∧ it ∈ cur
           ∧ h !! it = Some (OModule m).

(** The state of the merge: the invariant, and the modules that the list
    of the left document holds. *)
Definition Rel (h0 : heap) (ld : DocObj) (litems : list loc) (h : heap)
    (ms : list BuildModule) : Prop :=
  Inv h0 ld litems h
  ∧ ∃ items, h !! do_modules ld = Some (OList items) ∧ NoDup items
             ∧ rep h items ms.

(** The assignments of [merge_body], once [lhs_module] is found. *)
Definition assign_merged (lhs_module rhs_module : loc) : St unit :=
  arts ⇐ merge_artifacts lhs_module rhs_module "artifacts" "name";
  _ ⇐ set_artifacts lhs_module arts;
  deps ⇐ merge_artifacts lhs_module rhs_module "dependencies" "id";
  set_dependencies lhs_module deps.

(** The same on values: [lhs_module] is the entry at position [i]. *)
Definition merge_into (rhs_module : BuildModule) (i : nat)
    (modules : list BuildModule) : Result (list BuildModule) :=
  match modules !! i with
  | None => Raise TypeError
  | Some lhs_module =>
      arts ← pure_merge_artifacts lhs_module rhs_module "artifacts" "name";
      let lhs_module :=
        mkModule (mod_id lhs_module) arts (mod_dependencies lhs_module) in
      deps ← pure_merge_artifacts lhs_module rhs_module "dependencies" "id";
      let lhs_module :=
        mkModule (mod_id lhs_module) (mod_artifacts lhs_module) deps in
      Ok (<[i := lhs_module]> modules)
  end.

End InPlace.

(** ** Sample documents *)

Definition sample_doc (modules : list BuildModule) : BuildInfo :=
  mkBuildInfo "1.0.1" "build" "7" "GENERIC" "2020-01-01T00:00:00.000Z"
    ("Conan Client", "1.X") modules None.

(** Module ["m"] with one artifact named ["a"], of the given checksum. *)
Definition conflict_doc (sha : string) : BuildInfo :=
  sample_doc [mkModule "m" [mkArtifact sha "11" (Some "a") None] []].

Definition libfoo_recipe : BuildModule :=
  mkModule "libfoo/1.0"
    [mkArtifact "aaa" "111" (Some "conanfile.py") None]
    [mkArtifact "ccc" "333" None (Some "zlib/1.2 :: conanfile.py")].

Definition libfoo_package : BuildModule :=
  mkModule "libfoo/1.0:pid"
    [mkArtifact "bbb" "222" (Some "lib.a") None] [].

Definition libbar_recipe : BuildModule :=
  mkModule "libbar/2.0"
    [mkArtifact "ddd" "444" (Some "conanfile.py") None] [].

(** A second record of the recipe module of [libfoo], from another build
    of the same session: one more artifact and one more dependency. *)
Definition libfoo_recipe' : BuildModule :=
  mkModule "libfoo/1.0"
    [mkArtifact "aaa" "111" (Some "conanfile.py") None;
     mkArtifact "eee" "555" (Some "conan_sources.tgz") None]
    [mkArtifact "fff" "666" None (Some "bzip2/1.0 :: conanfile.py")].

(** ** Sample graphs and resolvers *)

(** A stand-in for the interpreter's string hash, with many collisions. *)
Definition sample_hash (s : string) : Z := Z.of_nat (String.length s).

(** A resolver that finds one file per reference. *)
Definition sample_func (p : string) : Result PySet :=
  Ok [mkArtifact ("sha1 of " +:+ p) "md5" None (Some (p +:+ " :: conanfile.py"))].

(** A resolver for packages that all ship the same licence file. *)
Definition licence_func (p : string) : Result PySet :=
  Ok [mkArtifact "0a0a0a" "md5" None (Some (p +:+ " :: LICENSE"))].

(** root -> A, root -> B, A -> C, B -> C *)
Definition diamond : gmap string LockNode :=
  list_to_map
    [("0", mkNode "root/1.0" [("liba/1.0", "1"); ("libb/1.0", "2")] true);
     ("1", mkNode "liba/1.0" [("libc/1.0", "3")] false);
     ("2", mkNode "libb/1.0" [("libc/1.0", "3")] false);
     ("3", mkNode "libc/1.0" [] false)].

(** X -> Y, Y -> X *)
Definition two_cycle : gmap string LockNode :=
  list_to_map
    [("X", mkNode "x/1.0" [("y/1.0", "Y")] false);
     ("Y", mkNode "y/1.0" [("x/1.0", "X")] false)].

Definition session_doc : BuildInfo :=
  sample_doc [libfoo_recipe'; libfoo_package; libbar_recipe].

(** Two documents loaded from two files: module [libfoo] on the left,
    another record of [libfoo] and module [libbar] on the right. *)
Definition sample_heap : gmap nat InPlace.obj :=
  list_to_map
    [(1, InPlace.ODoc (InPlace.mkDocObj "1.0.1" "build" "7" "GENERIC" "" ("", "") 2 None));
     (2, InPlace.OList [3]);
     (3, InPlace.OModule libfoo_recipe);
     (4, InPlace.ODoc (InPlace.mkDocObj "1.0.1" "build" "7" "GENERIC" "" ("", "") 5 None));
     (5, InPlace.OList [6; 7]);
     (6, InPlace.OModule libfoo_recipe');
     (7, InPlace.OModule libbar_recipe)].

(** ** Notions for the further properties *)

(** What [merge_artifacts] keeps true of its dictionary, whose entries
    come from [src]: entries are stored under their key, no key twice. *)
Definition dict_ok (cmp_key : string) (src : list Artifact)
    (ret : odict Artifact) : Prop :=
  keyed cmp_key ret ∧ NoDup (dict_keys ret)
  ∧ ∀ a, a ∈ dict_values ret → a ∈ src.

(** Two collections agree: entries that share a key are the same entry. *)
Definition agree (cmp_key : string) (l r : list Artifact) : Prop :=
  ∀ a b, a ∈ l → b ∈ r → key_of cmp_key a = key_of cmp_key b → a = b.

(** Two modules have the same content, whatever the order of entries. *)
Definition same_content (m1 m2 : BuildModule) : Prop :=
  mod_id m1 = mod_id m2
  ∧ (∀ a, a ∈ mod_artifacts m1 ↔ a ∈ mod_artifacts m2)
  ∧ (∀ a, a ∈ mod_dependencies m1 ↔ a ∈ mod_dependencies m2).


(** What a call of [_gather_deps] has logged when it stops: every call
    of the resolver succeeded, but for the last one when the resolver
    raised. *)
Definition first_failure (func : string → Result PySet)
    (r : Result PySet) (log : list string) : Prop :=
  match r with
  | Ok _ => Forall (λ p, ∃ s, func p = Ok s) log
  | Raise e =>
      (Forall (λ p, ∃ s, func p = Ok s) log
       ∧ (e = RecursionError ∨ e = TypeError))
      ∨ ∃ log' p, log = log' ++ [p]
                  ∧ Forall (λ p, ∃ s, func p = Ok s) log'
                  ∧ func p = Raise e
  end.


(** A resolver that is refused the files of one reference. *)
Definition refused_func (p : string) : Result PySet :=
  if String.eqb p "libc/1.0" then Raise (AuthenticationException "401")
  else sample_func p.

(** ** Strings as the code uses them *)

Import Stdlib.Strings.Ascii.

(** [s.split(sep)] for a separator of one character: the pieces of [s]
    between the occurrences of [sep]; there is always at least one. *)
Fixpoint str_split (sep : ascii) (s : string) : list string :=
  match s with
  | EmptyString => [EmptyString]
  | String c s' =>
      if Ascii.eqb c sep then EmptyString :: str_split sep s'
      else match str_split sep s' with
           | [] => [String c EmptyString]
           | p :: ps => String c p :: ps
           end
  end.

(** [sep in s] for one character. *)
Fixpoint has_char (sep : ascii) (s : string) : bool :=
  match s with
  | EmptyString => false
  | String c s' => Ascii.eqb c sep || has_char sep s'
  end.

(** ["{}".format(x)] for a string or [None]. *)
Definition py_format (x : option string) : string := default "None" x.

(** The truth value of a string or [None]. *)
Definition str_truthy (x : option string) : bool :=
  match x with
  | Some (String _ _) => true
  | _ => false
  end.

(** ** Exceptions of the reference parsing, the serialisation and the
       publishing, besides those of [exn] *)

Inductive pyexn : Type :=
| Exn (e : exn)
| AttributeError
| IndexError
| ValueError
| ConanException (msg : string).

Inductive Res (A : Type) : Type :=
| Ret (a : A)
| Throw (e : pyexn).

Arguments Ret {A} a.
Arguments Throw {A} e.

Global Instance Res_ret : MRet Res := λ A a, Ret a.
Global Instance Res_bind : MBind Res := λ A B f m,
  match m with
  | Ret a => f a
  | Throw e => Throw e
  end.

(** A call of code that raises the exceptions of [exn]. *)
Definition lift {A} (r : Result A) : Res A :=
  match r with
  | Ok a => Ret a
  | Raise e => Throw (Exn e)
  end.

(** [l[i]] on a list *)
Definition list_getitem {A} (l : list A) (i : nat) : Res A :=
  match l !! i with
  | Some x => Ret x
  | None => Throw IndexError
  end.

(** [for x in xs: acc = body(x, acc)] *)
Fixpoint for_each_res {A S : Type} (xs : list A) (acc : S)
    (body : A → S → Res S) : Res S :=
  match xs with
  | [] => Ret acc
  | x :: xs' => acc' ← body x acc; for_each_res xs' acc' body
  end.

(** ** References *)

(** A [ConanFileReference]: its fields are strings or [None]. *)
Record Ref : Type := mkRef {
  ref_name : option string;
  ref_version : option string;
  ref_user : option string;
  ref_channel : option string;
  ref_revision : option string
}.

(** The dict that [parse_pref] returns. *)
Record Pref : Type := mkPref {
  p_name : option string;
  p_version : option string;
  p_user : option string;
  p_channel : option string;
  p_rrev : string;
  p_pid : string;
  p_prev : string
}.

(** The reference of [_get_reference], from the parsed fields. *)
Definition format_reference (r : Pref) : string :=
  if str_truthy (p_user r) && str_truthy (p_channel r)
  then py_format (p_name r) +:+ "/" +:+ py_format (p_version r) +:+ "@"
       +:+ py_format (p_user r) +:+ "/" +:+ py_format (p_channel r)
  else py_format (p_name r) +:+ "/" +:+ py_format (p_version r).

Section references.
(** [ConanFileReference.loads(pref, validate=False)], of another module. *)
Variable loads : string → Res Ref.

(** [BuildInfoCreator.parse_pref] *)
Definition parse_pref (pref : string) : Res Pref :=
  ref ← loads pref;
  match ref_revision ref with
  | None => Throw AttributeError
  | Some revision =>
      x ← list_getitem (str_split "#" revision) 0;
      rrev ← list_getitem (str_split ":" x) 0;
      y ← list_getitem (str_split "#" revision) 0;
      pid ← list_getitem (str_split ":" y) 1;
      prev ← list_getitem (str_split "#" revision) 1;
      Ret (mkPref (ref_name ref) (ref_version ref) (ref_user ref)
             (ref_channel ref) rrev pid prev)
  end.

(** [BuildInfoCreator._get_reference] *)
Definition _get_reference (pref : string) : Res string :=
  r ← parse_pref pref;
  Ret (format_reference r).

(** [BuildInfoCreator._get_package_reference] *)
Definition _get_package_reference (pref : string) : Res string :=
  r ← parse_pref pref;
  reference ← _get_reference pref;
  Ret (reference +:+ ":" +:+ p_pid r).
End references.

(** A loader for the examples: the name is the text before the first
    [#], the revision what follows it. *)
Definition sample_loads (pref : string) : Res Ref :=
  match str_split "#" pref with
  | [_] => Ret (mkRef (Some pref) (Some "1.0") None None None)
  | name :: _ =>
      Ret (mkRef (Some name) (Some "1.0") (Some "user") (Some "stable")
             (Some (String.substring (S (String.length name))
                      (String.length pref) pref)))
  | [] => Throw (ConanException "empty")
  end.

(** ** [process_lockfile] *)

(** A value of [modules]: [{"id": ..., "artifacts": set(), "dependencies": set()}] *)
Record SetModule : Type := mkSetModule {
  sm_id : option string;
  sm_artifacts : PySet;
  sm_dependencies : PySet
}.

(** What the [defaultdict] makes for a key it lacks. *)
Definition default_module : SetModule := mkSetModule None [] [].

(** The entry [modules[key]] as it is, or as it is created. *)
Definition module_at (key : string) (modules : odict SetModule) : SetModule :=
  default default_module (dict_get key modules).

(** [modules[key][field] = ...] and [modules[key][field].update(...)]:
    the entry is created when missing, and changed in place. *)
Definition modules_modify (key : string) (f : SetModule → SetModule)
    (modules : odict SetModule) : odict SetModule :=
  dict_setitem key (f (module_at key modules)) modules.

Definition set_id (key : string) (m : SetModule) : SetModule :=
  mkSetModule (Some key) (sm_artifacts m) (sm_dependencies m).

Section process_lockfile.
Variable hash : string → Z.
Variable loads : string → Res Ref.
(** The constructor's [multi_module] *)
Variable multi_module : bool.
(** [_get_recipe_artifacts(pref, add_prefix, use_id)] and
    [_get_package_artifacts(pref, add_prefix, use_id)], which read the
    cache and the remote. *)
Variable _get_recipe_artifacts : string → bool → bool → Result PySet.
Variable _get_package_artifacts : string → bool → bool → Result PySet.
(** The depth of recursion that is left to [_gather_deps]. *)
Variable limit : nat.

Definition update_artifacts (arts : PySet) (m : SetModule) : SetModule :=
  mkSetModule (sm_id m) (set_update hash (sm_artifacts m) arts)
    (sm_dependencies m).

Definition update_dependencies (deps : PySet) (m : SetModule) : SetModule :=
  mkSetModule (sm_id m) (sm_artifacts m)
    (set_update hash (sm_dependencies m) deps).

(** The body of the inner loop, over the nodes that a node requires. *)
Definition process_require (contents : gmap string LockNode)
    (recipe_key package_key : string) (item : string * string)
    (modules : odict SetModule) : Res (odict SetModule) :=
  deps ← lift (_gather_deps hash (λ p, _get_recipe_artifacts p true true)
                 limit item.2 contents).1;
  let modules := modules_modify recipe_key (update_dependencies deps) modules in
  deps ← lift (_gather_deps hash (λ p, _get_package_artifacts p true true)
                 limit item.2 contents).1;
  Ret (modules_modify package_key (update_dependencies deps) modules).

(** The body of the loop over the nodes of the lockfile. *)
Definition process_node (contents : gmap string LockNode) (node : LockNode)
    (modules : odict SetModule) : Res (odict SetModule) :=
  if modified node then
    recipe_key ← _get_reference loads (pref node);
    let modules := modules_modify recipe_key (set_id recipe_key) modules in
    arts ← lift (_get_recipe_artifacts (pref node) (negb multi_module) false);
    let modules := modules_modify recipe_key (update_artifacts arts) modules in
    package_key ← (if multi_module
                   then _get_package_reference loads (pref node)
                   else Ret recipe_key);
    let modules := modules_modify package_key (set_id package_key) modules in
    arts ← lift (_get_package_artifacts (pref node) (negb multi_module) false);
    let modules := modules_modify package_key (update_artifacts arts) modules in
    match requires node with
    | [] => Ret modules
    | _ :: _ =>
        for_each_res (requires node) modules
          (process_require contents recipe_key package_key)
    end
  else Ret modules.

(** [process_lockfile], on the nodes of the lockfile that was read, in
    the order of the file. *)
Definition process_lockfile (nodes : odict LockNode)
    : Res (odict SetModule) :=
  for_each_res (dict_values nodes) []
    (process_node (list_to_map nodes)).

(** The key of the module that holds the package of a node. *)
Definition package_key (pref : string) : Res string :=
  if multi_module then _get_package_reference loads pref
  else _get_reference loads pref.

(** What a modified node adds to the artifacts of the module [key]. *)
Definition node_artifacts (key : string) (node : LockNode) (a : Artifact)
    : Prop :=
  (_get_reference loads (pref node) = Ret key
   ∧ ∃ s, _get_recipe_artifacts (pref node) (negb multi_module) false = Ok s
          ∧ a ∈ s)
  ∨ (package_key (pref node) = Ret key
     ∧ ∃ s, _get_package_artifacts (pref node) (negb multi_module) false = Ok s
            ∧ a ∈ s).

(** What a modified node adds to the dependencies of the module [key]:
    the closures of the nodes it requires. *)
Definition node_dependencies (contents : gmap string LockNode) (key : string)
    (node : LockNode) (a : Artifact) : Prop :=
  ∃ item, item ∈ requires node
    ∧ ((_get_reference loads (pref node) = Ret key
        ∧ ∃ s, (_gather_deps hash (λ p, _get_recipe_artifacts p true true)
                  limit item.2 contents).1 = Ok s ∧ a ∈ s)
       ∨ (package_key (pref node) = Ret key
          ∧ ∃ s, (_gather_deps hash (λ p, _get_package_artifacts p true true)
                    limit item.2 contents).1 = Ok s ∧ a ∈ s)).

(** What holds of [modules] when the outer loop has gone through the
    nodes [done]. *)
Definition modules_of (contents : gmap string LockNode)
    (done : list LockNode) (modules : odict SetModule) : Prop :=
  NoDup (dict_keys modules)
  ∧ (∀ k, k ∈ dict_keys modules ↔
       ∃ node, node ∈ done ∧ modified node = true
         ∧ (_get_reference loads (pref node) = Ret k
            ∨ package_key (pref node) = Ret k))
  ∧ (∀ k, k ∈ dict_keys modules → sm_id (module_at k modules) = Some k)
  ∧ (∀ k a, a ∈ sm_artifacts (module_at k modules) ↔
       ∃ node, node ∈ done ∧ modified node = true
         ∧ node_artifacts k node a)
  ∧ (∀ k a, a ∈ sm_dependencies (module_at k modules) ↔
       ∃ node, node ∈ done ∧ modified node = true
         ∧ node_dependencies contents k node a).
End process_lockfile.

(** A lockfile of two nodes: an application that was built, and the
    library it requires. *)
Definition sample_nodes : odict LockNode :=
  [("0", mkNode "app#r0:p0#v0" [("lib", "1")] true);
   ("1", mkNode "lib#r1:p1#v1" [] false)].

(** Resolvers that find one file per reference. *)
Definition sample_recipe_artifacts (p : string) (add_prefix use_id : bool)
    : Result PySet :=
  Ok [mkArtifact ("sha1 of recipe " +:+ p) "md5"
        (if use_id then None else Some "conanfile.py")
        (if use_id then Some (p +:+ " :: conanfile.py") else None)].

Definition sample_package_artifacts (p : string) (add_prefix use_id : bool)
    : Result PySet :=
  Ok [mkArtifact ("sha1 of package " +:+ p) "md5"
        (if use_id then None else Some "conan_package.tgz")
        (if use_id then Some (p +:+ " :: conan_package.tgz") else None)].

(** ** Serialisation: [dump_custom_types] of [create] *)

(** [a < b] on the keys of the sort: strings are ordered as Python 3
    orders them, code point by code point (the order of their UTF-8
    bytes), and [None] is ordered with nothing. *)
Definition py_lt (a b : option string) : Res bool :=
  match a, b with
  | Some x, Some y => Ret (String.ltb x y)
  | _, _ => Throw (Exn TypeError)
  end.

(** [sorted(l, key=key)]: a stable sort that compares keys with [<]
    only. An element goes before the elements that followed it unless
    their key is smaller. *)
Fixpoint insert_sorted {A} (key : A → option string) (x : A) (l : list A)
    : Res (list A) :=
  match l with
  | [] => Ret [x]
  | y :: l' =>
      b ← py_lt (key y) (key x);
      if b : bool then l'' ← insert_sorted key x l'; Ret (y :: l'')
      else Ret (x :: y :: l')
  end.

Fixpoint sorted {A} (key : A → option string) (l : list A) : Res (list A) :=
  match l with
  | [] => Ret []
  | x :: l' => s ← sorted key l'; insert_sorted key x s
  end.

(** [{k: v for k, v in o._asdict().items() if v is not None}] *)
Definition artifact_dict (o : Artifact) : odict string :=
  [("sha1", art_sha1 o); ("md5", art_md5 o)]
  ++ match art_name o with Some n => [("name", n)] | None => [] end
  ++ match art_id o with Some i => [("id", i)] | None => [] end.

(** [lambda u: u.get("name") or u.get("id")] *)
Definition sort_key (u : odict string) : option string :=
  match dict_get "name" u with
  | Some (String c s) => Some (String c s)
  | _ => dict_get "id" u
  end.

(** The objects that [json.dumps] hands to [default]: the sets of
    artifacts, or anything else it cannot serialise. *)
Inductive custom : Type :=
| CSet (obj : PySet)
| COther.

(** [dump_custom_types] *)
Definition dump_custom_types (obj : custom) : Res (list (odict string)) :=
  match obj with
  | CSet obj => sorted sort_key (artifact_dict <$> obj)
  | COther => Throw (Exn TypeError)
  end.

(** The order of two serialised artifacts in the output. *)
Definition key_le (u v : odict string) : Prop :=
  ∃ a b, sort_key u = Some a ∧ sort_key v = Some b ∧ String.ltb b a = false.

(** The key under which an artifact is sorted. *)
Definition artifact_key (o : Artifact) : option string :=
  match art_name o with
  | Some (String c s) => Some (String c s)
  | _ => art_id o
  end.

(** ** [_parse_options] *)

(** The generator [_parse_options], run to its end on the lines of
    [contents.splitlines()]: the pairs it yields, and the exception that
    ends it, if any. *)
Fixpoint _parse_options (lines : list string)
    : list (string * string) * option pyexn :=
  match lines with
  | [] => ([], None)
  | line :: lines' =>
      match str_split "=" line with
      | [key; value] =>
          let '(rest, e) := _parse_options lines' in
          (("options." +:+ key, value) :: rest, e)
      | _ => ([], Some ValueError)
      end
  end.

(** ** [publish_build_info] *)

(** A call of [requests.put]: the arguments that the code passes. *)
Record Request : Type := mkRequest {
  req_url : string;
  req_headers : odict string;
  req_data : option string;
  req_auth : option (string * string)
}.

Record Response : Type := mkResponse {
  status_code : Z;
  response_text : string
}.

Section publish.
(** [requests.put], [urlparse] (the scheme and the netloc of the url)
    and [response_to_str], of other modules. *)
Variable put : Request → Result Response.
Variable urlparse : string → string * string.
Variable response_to_str : Response → string.

(** The call of [requests.put] that [publish_build_info] makes, on the
    contents of the file that it has opened. *)
Definition publish_request (json_data url : string)
    (user password apikey : option string) : Request :=
  let parsed_uri := urlparse url in
  let request_url :=
    parsed_uri.1 +:+ "://" +:+ parsed_uri.2 +:+ "/artifactory/api/build" in
  if str_truthy user && str_truthy password then
    mkRequest request_url [("Content-Type", "application/json")]
      (Some json_data) (Some (default "" user, default "" password))
  else if str_truthy apikey then
    mkRequest request_url
      [("Content-Type", "application/json");
       ("X-JFrog-Art-Api", default "" apikey)]
      (Some json_data) None
  else mkRequest request_url [] None None.

(** [publish_build_info] *)
Definition publish_build_info (json_data url : string)
    (user password apikey : option string) : Result unit :=
  response ← put (publish_request json_data url user password apikey);
  if Z.eqb (status_code response) 401
  then Raise (AuthenticationException (response_to_str response))
  else if negb (Z.eqb (status_code response) 204)
  then Raise (RequestErrorException (response_to_str response))
  else Ok tt.
End publish.

(** ** The artifacts of the cache metadata: [_get_metadata_artifacts] *)

(** An entry of a [checksums] mapping of the metadata. *)
Record Checksums : Type := mkChecksums {
  ck_md5 : string;
  ck_sha1 : string
}.

(** What the code stores under ["md5"]: the md5 of a file of the cache,
    or, for the sources it has asked the remote for, the whole mapping
    [data["checksums"]] of the answer. *)
Inductive md5_value : Type :=
| Md5 (md5 : string)
| Md5Checksums (checksums : odict string).

(** A value of [ret]: [{"md5": ..., "name": ..., "id": ...}] *)
Record Entry : Type := mkEntry {
  e_md5 : md5_value;
  e_name : option string;
  e_id : option string
}.

(** An [Artifact] as [_get_metadata_artifacts] makes it. *)
Record RawArtifact : Type := mkRaw {
  raw_sha1 : string;
  raw_md5 : md5_value;
  raw_name : option string;
  raw_id : option string
}.

(** The metadata of a recipe and of its packages, as far as the code
    reads it; [md_packages] is [metadata.packages[package_id].checksums]. *)
Record Metadata : Type := mkMetadata {
  md_recipe_checksums : odict Checksums;
  md_recipe_remote : option string;
  md_packages : string → Res (odict Checksums)
}.

(** [d[k]] on a mapping of strings *)
Definition checksums_getitem (k : string) (d : odict string) : Res string :=
  match dict_get k d with
  | Some v => Ret v
  | None => Throw (Exn (KeyError k))
  end.

(** The loop over [data.items()]: files with the same sha1 share one
    entry of [ret]. [name_format] is the method [name_format.format]. *)
Definition checksum_entries (use_id : bool) (name_format : string → Res string)
    (data : odict Checksums) (ret : odict Entry) : Res (odict Entry) :=
  for_each_res data ret (λ item ret,
    name_or_id ← name_format item.1;
    Ret (dict_setitem (ck_sha1 item.2)
           (mkEntry (Md5 (ck_md5 item.2))
              (if negb use_id then Some name_or_id else None)
              (if use_id then Some name_or_id else None))
           ret)).

(** [Artifact(k, **v)] *)
Definition entry_artifact (kv : string * Entry) : RawArtifact :=
  mkRaw kv.1 (e_md5 kv.2) (e_name kv.2) (e_id kv.2).

Section metadata.
(** The constructor's [user], [password] and [apikey] *)
Variable user password apikey : option string.
(** [self._conan_cache.registry.load_remotes()[remote_name].url],
    [urlparse] (scheme and netloc), [urljoin], [requests.get],
    [response.json()["checksums"]] and [response_to_str], of other
    modules. *)
Variable remote_url : option string → Res string.
Variable urlparse : string → string * string.
Variable urljoin : string → string → string.
Variable get : Request → Result Response.
Variable response_checksums : Response → Res (odict string).
Variable response_to_str : Response → string.

(** The call of [requests.get] for the sources of a recipe. *)
Definition sources_request (request_url : string) : Request :=
  if str_truthy user && str_truthy password then
    mkRequest request_url [] None
      (Some (default "" user, default "" password))
  else if str_truthy apikey then
    mkRequest request_url [("X-JFrog-Art-Api", default "" apikey)] None None
  else mkRequest request_url [] None None.

(** The part under [if need_sources:] *)
Definition fetch_sources (metadata : Metadata) (request_path : string)
    (ret : odict Entry) : Res (odict Entry) :=
  remote_url ← remote_url (md_recipe_remote metadata);
  let parsed_uri := urlparse remote_url in
  let base_url := parsed_uri.1 +:+ "://" +:+ parsed_uri.2
                  +:+ "/artifactory/api/storage/conan/" in
  let request_url := urljoin base_url (request_path +:+ "/conan_sources.tgz") in
  response ← lift (get (sources_request request_url));
  if Z.eqb (status_code response) 200 then
    checksums ← response_checksums response;
    sha1 ← checksums_getitem "sha1" checksums;
    Ret (dict_setitem sha1
           (mkEntry (Md5Checksums checksums) (Some "conan_sources.tgz") None)
           ret)
  else if Z.eqb (status_code response) 401 then
    Throw (Exn (AuthenticationException (response_to_str response)))
  else Throw (Exn (RequestErrorException (response_to_str response))).

(** The checksums to go through, and [need_sources]. *)
Definition metadata_data (metadata : Metadata) (package_id : option string)
    : Res (odict Checksums * bool) :=
  if str_truthy package_id
  then data ← md_packages metadata (default "" package_id);
       Ret (data, false)
  else Ret (md_recipe_checksums metadata,
            negb (dict_contains "conan_sources.tgz"
                    (md_recipe_checksums metadata))).

(** [BuildInfoCreator._get_metadata_artifacts]; the set it returns is
    given in the order of [ret], whose keys are distinct sha1s, so that
    no two of its artifacts are equal. *)
Definition _get_metadata_artifacts (metadata : Metadata)
    (request_path : string) (use_id : bool)
    (name_format : string → Res string) (package_id : option string)
    : Res (list RawArtifact) :=
  '(data, need_sources) ← metadata_data metadata package_id;
  ret ← checksum_entries use_id name_format data [];
  ret ← ((if need_sources : bool
          then fetch_sources metadata request_path ret
          else Ret ret) : Res (odict Entry));
  Ret (fmap (M:=list) entry_artifact ret).
End metadata.

(** The entry of [ret] that the files of [data] leave under the sha1
    [k]: the one of the last file with that sha1. *)
Definition last_entry (use_id : bool) (name_format : string → Res string)
    (data : odict Checksums) (k : string) (e : Entry) : Prop :=
  ∃ l1 name value l2 n,
    data = l1 ++ (name, value) :: l2
    ∧ ck_sha1 value = k
    ∧ Forall (λ item, ck_sha1 item.2 ≠ k) l2
    ∧ name_format name = Ret n
    ∧ e = mkEntry (Md5 (ck_md5 value))
            (if negb use_id then Some n else None)
            (if use_id then Some n else None).

(** An artifact that stands for a file of the cache. *)
Definition cached_artifact (use_id : bool) (name_format : string → Res string)
    (data : odict Checksums) (a : RawArtifact) : Prop :=
  last_entry use_id name_format data (raw_sha1 a)
    (mkEntry (raw_md5 a) (raw_name a) (raw_id a)).

(** A recipe whose sources are not in the cache, a remote that answers
    with their checksums, and one that refuses. *)
Definition sample_metadata : Metadata :=
  mkMetadata
    [("conanfile.py", mkChecksums "m1" "s1");
     ("conanmanifest.txt", mkChecksums "m2" "s2");
     ("conanfile.py.bak", mkChecksums "m1" "s1")]
    (Some "artifactory")
    (λ package_id,
       Ret [("conan_package.tgz", mkChecksums "m3" "s3");
            ("conaninfo.txt", mkChecksums "m4" "s4")]).

Definition sample_remote_url (remote : option string) : Res string :=
  Ret "https://example.org/artifactory/api/conan/conan-local".

Definition sample_urlparse (url : string) : string * string :=
  ("https", "example.org").

Definition sample_get (r : Request) : Result Response :=
  Ok (mkResponse 200 "ok").

Definition sample_get_refused (r : Request) : Result Response :=
  Ok (mkResponse 403 "forbidden").

Definition sample_response_checksums (r : Response) : Res (odict string) :=
  Ret [("sha1", "s9"); ("md5", "m9"); ("sha256", "x9")].

(** ** Documents that are not well-formed *)

(** Every artifact of the module has a name and every dependency an id:
    what [merge_artifacts] reads of an entry is there. *)
Definition module_keyed (m : BuildModule) : Prop :=
  Forall (λ a, is_Some (key_of "name" a)) (mod_artifacts m)
  ∧ Forall (λ a, is_Some (key_of "id" a)) (mod_dependencies m).

Global Instance module_keyed_dec m : Decision (module_keyed m).
Proof. unfold module_keyed. apply _. Defined.

(** The modules whose entries a merge reads when nothing stops it: those
    of the right side, and the modules that [find_module] finds for them
    on the left side. *)
Definition merge_reads (l r : list BuildModule) : list BuildModule :=
  r ++ omap (λ rm, lookup_module (mod_id rm) l) r.

(** The module that [find_module] returns for an id. *)
Definition found_module (module_id : string) (modules : list BuildModule)
    : BuildModule :=
  default (mkModule module_id [] []) (lookup_module module_id modules).

(** How the collection [f] of a module [m] has become the one of [m'] by
    merging into it the modules of [rs] that have the id [mid]: every key
    of [m] and of these modules is a key of [m']; every entry of [m'] is
    one of [m] or of these modules; and an entry of [m'] whose key [m]
    has is an entry of [m]. *)
Definition carried (cmp_key : string) (f : BuildModule → list Artifact)
    (mid : string) (m : BuildModule) (rs : list BuildModule)
    (m' : BuildModule) : Prop :=
  (∀ a, a ∈ f m → key_of cmp_key a ∈ key_of cmp_key <$> f m')
  ∧ (∀ rm a, rm ∈ rs → mod_id rm = mid → a ∈ f rm →
             key_of cmp_key a ∈ key_of cmp_key <$> f m')
  ∧ (∀ a, a ∈ f m' →
          a ∈ f m ∨ ∃ rm, rm ∈ rs ∧ mod_id rm = mid ∧ a ∈ f rm)
  ∧ (∀ a, a ∈ f m' → key_of cmp_key a ∈ key_of cmp_key <$> f m → a ∈ f m).

(** No two entries of a module have one key and differ: no name stands
    for two artifacts, no id for two dependencies. *)
Definition conflict_free (d : BuildInfo) : Prop :=
  Forall (λ m, agree "name" (mod_artifacts m) (mod_artifacts m)
               ∧ agree "id" (mod_dependencies m) (mod_dependencies m))
    (bi_modules d).

(** A module as [process_lockfile] fills it for a recipe one of whose
    requirements had its sources fetched from the remote: among the
    dependencies, where [use_id] is set, the entry of
    [conan_sources.tgz] has a name and no id. No key occurs twice. *)
Definition app_recipe : BuildModule :=
  mkModule "app/1.0"
    [mkArtifact "aaa" "111" (Some "conanfile.py") None]
    [mkArtifact "ccc" "333" None (Some "zlib/1.2 :: conanfile.py");
     mkArtifact "eee" "555" (Some "conan_sources.tgz") None].

Definition sources_doc : BuildInfo := sample_doc [app_recipe].

(** The same document as an object. *)
Definition sources_heap : gmap nat InPlace.obj :=
  list_to_map
    [(1, InPlace.ODoc (InPlace.mkDocObj "1.0.1" "build" "7" "GENERIC" "" ("", "") 2 None));
     (2, InPlace.OList [3]);
     (3, InPlace.OModule app_recipe)].

(** A module that lists one artifact twice, and one with two artifacts
    of one name. *)
Definition libbaz_repeated : BuildModule :=
  mkModule "libbaz/3.0"
    [mkArtifact "aaa" "111" (Some "lib.a") None;
     mkArtifact "aaa" "111" (Some "lib.a") None] [].


(** Two documents that share a module object: the module at [3] is in
    the list of the left document and in the list of the right one. *)
Definition shared_heap : gmap nat InPlace.obj :=
  list_to_map
    [(1, InPlace.ODoc (InPlace.mkDocObj "1.0.1" "build" "7" "GENERIC" "" ("", "") 2 None));
     (2, InPlace.OList [3]);
     (3, InPlace.OModule libfoo_recipe);
     (4, InPlace.ODoc (InPlace.mkDocObj "1.0.1" "build" "7" "GENERIC" "" ("", "") 5 None));
     (5, InPlace.OList [6; 3]);
     (6, InPlace.OModule libfoo_recipe')].

(* ================================================================== *)
(** * Properties *)

(** ** Lemmas on dictionaries and loops *)

Section odict_lemmas.
Context {V : Type}.
Implicit Types (d : odict V) (k : string) (v : V).

Lemma dict_contains_spec k d : dict_contains k d = true ↔ k ∈ dict_keys d.
Proof.
  unfold dict_keys. induction d as [|[k' v'] d IH]; simpl.
  - split; [done | intros H; inversion H].
  - destruct (String.eqb_spec k' k) as [->|Hne].
    + split; [intros _; left | done].
    + rewrite IH. split; [intros H; by right|].
      intros H. inversion H; subst; [congruence | done].
Qed.

Lemma dict_contains_false k d : dict_contains k d = false ↔ k ∉ dict_keys d.
Proof.
  rewrite <- dict_contains_spec. destruct (dict_contains k d); naive_solver.
Qed.

Lemma dict_get_Some k d :
  dict_contains k d = true → ∃ v, dict_get k d = Some v ∧ (k, v) ∈ d.
Proof.
  induction d as [|[k' v'] d IH]; simpl; [done|].
  destruct (String.eqb_spec k' k) as [->|Hne].
  - intros _. exists v'. split; [done | left].
  - intros H. destruct (IH H) as (v & Hv & Hin). exists v. split; [done | by right].
Qed.

Lemma dict_get_elem k v d : dict_get k d = Some v → (k, v) ∈ d.
Proof.
  induction d as [|[k' v'] d IH]; simpl; [done|].
  destruct (String.eqb_spec k' k) as [->|Hne].
  - intros [= ->]. left.
  - intros H. right. by apply IH.
Qed.

Lemma dict_get_NoDup k v d :
  NoDup (dict_keys d) → (k, v) ∈ d → dict_get k d = Some v.
Proof.
  unfold dict_keys. induction d as [|[k' v'] d IH]; simpl; [by inversion 2|].
  rewrite NoDup_cons. intros [Hk' Hnd] Hin.
  destruct (String.eqb_spec k' k) as [->|Hne].
  - apply elem_of_cons in Hin as [[= ->]|Hin]; [done|].
    exfalso. apply Hk'. apply list_elem_of_fmap. by exists (k, v).
  - apply elem_of_cons in Hin as [[= -> ->]|Hin]; [done|]. by apply IH.
Qed.

Lemma dict_setitem_fresh k v d :
  k ∉ dict_keys d → dict_setitem k v d = d ++ [(k, v)].
Proof.
  unfold dict_keys. induction d as [|[k' v'] d IH]; simpl; [done|].
  intros Hk. destruct (String.eqb_spec k' k) as [->|Hne].
  - exfalso. apply Hk. left.
  - f_equal. apply IH. intros H. apply Hk. by right.
Qed.

Lemma dict_setitem_elem k v d kv :
  kv ∈ dict_setitem k v d → kv = (k, v) ∨ kv ∈ d.
Proof.
  induction d as [|[k' v'] d IH]; simpl.
  - intros H. apply list_elem_of_singleton in H. by left.
  - destruct (String.eqb_spec k' k) as [->|Hne]; intros H.
    + inversion H; subst; [by left | right; by right].
    + inversion H; subst; [right; left|].
      destruct IH as [->|?]; [done | by left | right; by right].
Qed.
End odict_lemmas.

Lemma for_each_inv {A S} (P : S → Prop) (Q : exn → Prop)
    (xs : list A) (acc : S) body :
  P acc →
  (∀ x s, x ∈ xs → P s →
     match body x s with Ok s' => P s' | Raise e => Q e end) →
  match for_each xs acc body with Ok s => P s | Raise e => Q e end.
Proof.
  revert acc. induction xs as [|x xs IH]; intros acc Hacc Hbody; simpl; [done|].
  pose proof (Hbody x acc ltac:(left) Hacc) as Hx.
  destruct (body x acc) as [acc1|e]; simpl; [|done].
  apply IH; [done|]. intros y s Hy. apply Hbody. by right.
Qed.

Lemma filter_ext_elem {A} (P Q : A → Prop)
    `{∀ x, Decision (P x)} `{∀ x, Decision (Q x)} (l : list A) :
  (∀ x, x ∈ l → P x ↔ Q x) → filter P l = filter Q l.
Proof.
  induction l as [|x l IH]; intros Hext; [done|].
  rewrite !filter_cons.
  rewrite IH by (intros y Hy; apply Hext; by right).
  pose proof (Hext x ltac:(left)) as Hx.
  destruct (decide (P x)), (decide (Q x)); tauto.
Qed.

(** ** Lemmas on [merge_artifacts] *)

Lemma key_of_Some cmp_key a k :
  key_of cmp_key a = Some k ↔ Artifact_getitem a cmp_key = Ok k.
Proof.
  unfold key_of. destruct (Artifact_getitem a cmp_key); naive_solver.
Qed.

Lemma keyed_nil cmp_key : keyed cmp_key [].
Proof. constructor. Qed.

Lemma keyed_setitem cmp_key ret a k :
  keyed cmp_key ret → Artifact_getitem a cmp_key = Ok k →
  keyed cmp_key (dict_setitem k a ret).
Proof.
  unfold keyed. rewrite !Forall_forall. intros Hret Ha kv Hin.
  apply dict_setitem_elem in Hin as [->|Hin]; [done | by apply Hret].
Qed.

Lemma keyed_keys cmp_key ret :
  keyed cmp_key ret →
  Some <$> dict_keys ret = key_of cmp_key <$> dict_values ret.
Proof.
  unfold dict_keys, dict_values. induction 1 as [|[k v] ret Hkv _ IH]; [done|].
  simpl in Hkv. apply key_of_Some in Hkv. rewrite !fmap_cons. simpl.
  rewrite Hkv. f_equal. exact IH.
Qed.

Lemma keyed_key_elem cmp_key ret k :
  keyed cmp_key ret →
  k ∈ dict_keys ret ↔ Some k ∈ key_of cmp_key <$> dict_values ret.
Proof.
  intros Hret. rewrite <- (keyed_keys _ _ Hret). rewrite list_elem_of_fmap.
  split; [by eauto|]. by intros (k' & [= ->] & ?).
Qed.

(** The loop body of [merge_artifacts] keeps the dictionary keyed, and its
    assertion compares a key with itself: it cannot fail. *)
Lemma merge_step_keyed cmp_key art ret :
  keyed cmp_key ret →
  match merge_step cmp_key art ret with
  | Ok ret' => keyed cmp_key ret'
  | Raise e => ∃ k, e = KeyError k
  end.
Proof.
  intros Hret. unfold merge_step.
  destruct (Artifact_getitem art cmp_key) as [k|e] eqn:Hart; simpl.
  - destruct (dict_contains k ret) eqn:Hc.
    + destruct (dict_get_Some _ _ Hc) as (other & Hget & Hin).
      unfold dict_getitem. rewrite Hget. simpl.
      pose proof (proj1 (Forall_forall _ _) Hret _ Hin) as Hother.
      simpl in Hother. rewrite Hother. simpl.
      rewrite String.eqb_refl. simpl. exact Hret.
    + by apply keyed_setitem.
  - revert Hart. unfold Artifact_getitem.
    repeat case_match; intros; simplify_eq; eauto.
Qed.

Lemma key_by_keyed cmp_key items :
  match key_by cmp_key items with
  | Ok ret => keyed cmp_key ret
  | Raise e => ∃ k, e = KeyError k
  end.
Proof.
  unfold key_by. apply for_each_inv; [apply keyed_nil|].
  intros it s _ Hs.
  destruct (Artifact_getitem it cmp_key) as [k|e] eqn:Hit; simpl.
  - by apply keyed_setitem.
  - revert Hit. unfold Artifact_getitem.
    repeat case_match; intros; simplify_eq; eauto.
Qed.

(** [merge_artifacts] never raises a conflict: whatever the two modules
    hold, it returns a list or fails on a missing key. *)
Lemma merge_artifacts_no_conflict lhs rhs key cmp_key :
  match merge_artifacts lhs rhs key cmp_key with
  | Ok _ => True
  | Raise e => ∀ msg, e ≠ AssertionError msg
  end.
Proof.
  unfold merge_artifacts.
  destruct (BuildModule_getlist lhs key) as [l|e] eqn:Hl; simpl.
  2:{ revert Hl. unfold BuildModule_getlist. repeat case_match; intros; by simplify_eq. }
  pose proof (key_by_keyed cmp_key l) as Hk.
  destruct (key_by cmp_key l) as [ret|e]; simpl.
  2:{ destruct Hk as [k ->]. done. }
  destruct (BuildModule_getlist rhs key) as [r|e] eqn:Hr; simpl.
  2:{ revert Hr. unfold BuildModule_getlist. repeat case_match; intros; by simplify_eq. }
  pose proof (for_each_inv (keyed cmp_key) (λ e, ∃ k, e = KeyError k)
                r ret (merge_step cmp_key) Hk) as Hloop.
  destruct (for_each r ret (merge_step cmp_key)) as [ret'|e]; simpl; [done|].
  destruct Hloop as [k ->]; [|done].
  intros x s _ Hs. by apply merge_step_keyed.
Qed.

Lemma well_keyed_nil cmp_key : well_keyed cmp_key [].
Proof. split; constructor. Qed.

Lemma well_keyed_cons cmp_key a items :
  well_keyed cmp_key (a :: items) ↔
  (∃ k, key_of cmp_key a = Some k ∧ Some k ∉ key_of cmp_key <$> items)
  ∧ well_keyed cmp_key items.
Proof.
  unfold well_keyed. rewrite Forall_cons, fmap_cons, NoDup_cons. split.
  - intros [[[k Hk] Hall] [Hnin Hnd]]. rewrite Hk in Hnin. eauto 10.
  - intros [(k & Hk & Hnin) [Hall Hnd]]. rewrite Hk. eauto 10.
Qed.

(** The dictionary comprehension over keyed entries stores them in order. *)
Lemma key_by_loop_spec cmp_key items ret :
  keyed cmp_key ret → well_keyed cmp_key items →
  (∀ a, a ∈ items → key_of cmp_key a ∉ key_of cmp_key <$> dict_values ret) →
  ∃ ret', for_each items ret (λ it ret,
            k ← Artifact_getitem it cmp_key; Ok (dict_setitem k it ret)) = Ok ret'
          ∧ keyed cmp_key ret'
          ∧ dict_values ret' = dict_values ret ++ items.
Proof.
  revert ret. induction items as [|a items IH]; intros ret Hret Hwk Hfresh; simpl.
  - exists ret. by rewrite app_nil_r.
  - apply well_keyed_cons in Hwk as [(k & Hk & Hnin) Hwk].
    pose proof (proj1 (key_of_Some _ _ _) Hk) as Hget. rewrite Hget. simpl.
    assert (Hnew : k ∉ dict_keys ret).
    { rewrite (keyed_key_elem cmp_key) by done. rewrite <- Hk. apply Hfresh. left. }
    rewrite (dict_setitem_fresh _ _ _ Hnew).
    destruct (IH (ret ++ [(k, a)])) as (ret' & Hloop & Hkeyed & Hvals).
    + apply Forall_app. split; [done|]. by repeat constructor.
    + done.
    + intros b Hb. unfold dict_values. rewrite !fmap_app. simpl.
      rewrite Hk. rewrite elem_of_app, list_elem_of_singleton.
      intros [Hin|Heq].
      * revert Hin. apply Hfresh. by right.
      * apply Hnin. rewrite <- Heq. by apply list_elem_of_fmap_2.
    + exists ret'. split; [done|]. split; [done|].
      rewrite Hvals. unfold dict_values. rewrite fmap_app. simpl.
      by rewrite <- app_assoc.
Qed.

Lemma key_by_spec cmp_key items :
  well_keyed cmp_key items →
  ∃ ret, key_by cmp_key items = Ok ret ∧ keyed cmp_key ret
         ∧ dict_values ret = items.
Proof.
  intros Hwk. unfold key_by.
  destruct (key_by_loop_spec cmp_key items [] (keyed_nil _) Hwk) as (ret & ? & ? & ?).
  - intros a _. simpl. apply not_elem_of_nil.
  - by exists ret.
Qed.

Lemma merge_step_present cmp_key a k ret :
  keyed cmp_key ret → key_of cmp_key a = Some k → k ∈ dict_keys ret →
  merge_step cmp_key a ret = Ok ret.
Proof.
  intros Hret Hk Hin. apply key_of_Some in Hk. unfold merge_step.
  rewrite Hk. simpl. apply dict_contains_spec in Hin. rewrite Hin.
  destruct (dict_get_Some _ _ Hin) as (other & Hother & Hin').
  unfold dict_getitem. rewrite Hother. simpl.
  pose proof (proj1 (Forall_forall _ _) Hret _ Hin') as Hk'.
  simpl in Hk'. rewrite Hk'. simpl. by rewrite String.eqb_refl.
Qed.

Lemma merge_step_new cmp_key a k ret :
  key_of cmp_key a = Some k → k ∉ dict_keys ret →
  merge_step cmp_key a ret = Ok (ret ++ [(k, a)]).
Proof.
  intros Hk Hnin. apply key_of_Some in Hk. unfold merge_step.
  rewrite Hk. simpl. pose proof Hnin as Hc. apply dict_contains_false in Hc.
  rewrite Hc. by rewrite dict_setitem_fresh.
Qed.

(** The loop over the right-hand entries appends those whose key is new. *)
Lemma merge_loop_spec cmp_key items ret :
  keyed cmp_key ret → well_keyed cmp_key items →
  ∃ ret', for_each items ret (merge_step cmp_key) = Ok ret'
          ∧ keyed cmp_key ret'
          ∧ dict_values ret' =
              merged_items cmp_key (dict_values ret) items.
Proof.
  unfold merged_items.
  revert ret. induction items as [|a items IH]; intros ret Hret Hwk; simpl.
  - exists ret. by rewrite filter_nil, app_nil_r.
  - apply well_keyed_cons in Hwk as [(k & Hk & Hnin) Hwk].
    destruct (decide (k ∈ dict_keys ret)) as [Hin|Hnew].
    + rewrite (merge_step_present _ _ _ _ Hret Hk Hin). simpl.
      destruct (IH ret Hret Hwk) as (ret' & Hloop & Hkeyed & Hvals).
      exists ret'. split; [done|]. split; [done|].
      rewrite Hvals. f_equal. rewrite filter_cons_False; [done|].
      intros Hn. apply Hn. rewrite Hk.
      by apply (keyed_key_elem cmp_key).
    + rewrite (merge_step_new _ _ _ _ Hk Hnew). simpl.
      destruct (IH (ret ++ [(k, a)])) as (ret' & Hloop & Hkeyed & Hvals).
      { apply Forall_app. split; [done|]. apply key_of_Some in Hk.
        by repeat constructor. }
      { done. }
      exists ret'. split; [done|]. split; [done|].
      assert (Hsnoc : dict_values (ret ++ [(k, a)]) = dict_values ret ++ [a]).
      { unfold dict_values. by rewrite fmap_app. }
      rewrite Hvals, Hsnoc, <- app_assoc. f_equal. simpl.
      rewrite filter_cons_True.
      2:{ rewrite Hk. by rewrite <- (keyed_key_elem cmp_key). }
      f_equal. apply filter_ext_elem. intros b Hb.
      rewrite fmap_app, elem_of_app. simpl. rewrite list_elem_of_singleton.
      split; [tauto|]. intros Hb' [Hin|Heq]; [done|].
      apply Hnin. rewrite <- Hk, <- Heq. by apply list_elem_of_fmap_2.
Qed.

(** On keyed collections [merge_artifacts] returns the left entries followed
    by the right entries whose key is new. *)
Lemma merge_artifacts_spec lhs rhs key cmp_key l r :
  BuildModule_getlist lhs key = Ok l →
  BuildModule_getlist rhs key = Ok r →
  well_keyed cmp_key l → well_keyed cmp_key r →
  merge_artifacts lhs rhs key cmp_key = Ok (merged_items cmp_key l r).
Proof.
  intros Hl Hr Hwl Hwr. unfold merge_artifacts. rewrite Hl. simpl.
  destruct (key_by_spec cmp_key l Hwl) as (ret & -> & Hkeyed & Hvals). simpl.
  rewrite Hr. simpl.
  destruct (merge_loop_spec cmp_key r ret Hkeyed Hwr) as (ret' & -> & _ & Hvals').
  simpl. by rewrite Hvals', Hvals.
Qed.

Lemma merged_items_nil_l cmp_key r : merged_items cmp_key [] r = r.
Proof.
  unfold merged_items. simpl. induction r as [|a r IH]; [done|].
  rewrite filter_cons_True by apply not_elem_of_nil. by rewrite IH.
Qed.

Lemma merged_items_self cmp_key l : merged_items cmp_key l l = l.
Proof.
  unfold merged_items.
  assert (Hnone : ∀ r, r ⊆ l →
            filter (λ a, key_of cmp_key a ∉ key_of cmp_key <$> l) r = []).
  { induction r as [|a r IH]; intros Hsub; [done|].
    rewrite filter_cons_False.
    - apply IH. intros x Hx. apply Hsub. by right.
    - intros Hn. apply Hn. apply list_elem_of_fmap_2. apply Hsub. left. }
  rewrite Hnone by done. apply app_nil_r.
Qed.

Lemma well_keyed_filter cmp_key (P : Artifact → Prop)
    `{∀ a, Decision (P a)} items :
  well_keyed cmp_key items → well_keyed cmp_key (filter P items).
Proof.
  induction items as [|a items IH]; intros Hwk; [done|].
  apply well_keyed_cons in Hwk as [(k & Hk & Hnin) Hwk].
  rewrite filter_cons. destruct (decide (P a)); [|by apply IH].
  apply well_keyed_cons. split; [|by apply IH].
  exists k. split; [done|]. intros Hin. apply Hnin.
  apply list_elem_of_fmap in Hin as (b & Hb & Hin).
  apply list_elem_of_filter in Hin as [_ Hin].
  rewrite Hb. by apply list_elem_of_fmap_2.
Qed.

(** Merging keyed collections gives a keyed collection. *)
Lemma well_keyed_merged cmp_key l r :
  well_keyed cmp_key l → well_keyed cmp_key r →
  well_keyed cmp_key (merged_items cmp_key l r).
Proof.
  intros [Hl1 Hl2] Hr.
  pose proof (well_keyed_filter cmp_key
    (λ a, key_of cmp_key a ∉ key_of cmp_key <$> l) r Hr) as [Hf1 Hf2].
  unfold merged_items. split.
  - apply Forall_app. by split.
  - rewrite fmap_app. apply NoDup_app. split; [done|]. split; [|done].
    intros x Hx Hx'. apply list_elem_of_fmap in Hx' as (b & -> & Hb).
    apply list_elem_of_filter in Hb as [Hb _]. by apply Hb.
Qed.

Lemma module_wf_merge_mod lm rm :
  module_wf lm → module_wf rm → module_wf (merge_mod lm rm).
Proof.
  intros [? ?] [? ?]. split; simpl; by apply well_keyed_merged.
Qed.

Lemma merge_mod_self m : merge_mod m m = m.
Proof.
  destruct m as [i arts deps]. unfold merge_mod. simpl.
  by rewrite !merged_items_self.
Qed.

(** ** Lemmas on [find_module] and on the loop of [merge_buildinfo] *)

Lemma lookup_module_None module_id modules :
  lookup_module module_id modules = None ↔ module_id ∉ mod_id <$> modules.
Proof.
  unfold lookup_module. rewrite fmap_None, list_find_None, Forall_forall.
  split.
  - intros Hall Hin. apply list_elem_of_fmap in Hin as (m & -> & Hm).
    apply (Hall m Hm). apply String.eqb_refl.
  - intros Hnin m Hm Heq. apply String.eqb_eq in Heq. apply Hnin.
    rewrite <- Heq. by apply list_elem_of_fmap_2.
Qed.

(** With unique ids, a module is the one its id names. *)
Lemma list_find_unique modules i m :
  NoDup (mod_id <$> modules) → modules !! i = Some m →
  list_find (λ it, String.eqb (mod_id it) (mod_id m) = true) modules
    = Some (i, m).
Proof.
  intros Hnd Hi. apply list_find_Some. split; [done|].
  split; [apply String.eqb_refl|].
  intros j y Hj Hlt Heq. apply String.eqb_eq in Heq.
  assert (i = j); [|lia].
  eapply NoDup_lookup; [exact Hnd | |].
  - by rewrite list_lookup_fmap, Hi.
  - by rewrite list_lookup_fmap, Hj, <- Heq.
Qed.

Lemma merge_module_found rhs_module modules i lm :
  list_find (λ it, String.eqb (mod_id it) (mod_id rhs_module) = true) modules
    = Some (i, lm) →
  module_wf lm → module_wf rhs_module →
  merge_module rhs_module modules = Ok (<[i := merge_mod lm rhs_module]> modules).
Proof.
  intros Hfind [Hla Hld] [Hra Hrd]. unfold merge_module, find_module.
  rewrite Hfind. apply list_find_Some in Hfind as (Hi & _ & _). rewrite Hi.
  rewrite (merge_artifacts_spec _ _ "artifacts" "name"
             (mod_artifacts lm) (mod_artifacts rhs_module)) by done.
  simpl.
  rewrite (merge_artifacts_spec _ _ "dependencies" "id"
             (mod_dependencies lm) (mod_dependencies rhs_module)) by done.
  done.
Qed.

Lemma merge_module_new rhs_module modules :
  mod_id rhs_module ∉ mod_id <$> modules →
  module_wf rhs_module →
  merge_module rhs_module modules = Ok (modules ++ [rhs_module]).
Proof.
  intros Hnew [Hra Hrd]. apply lookup_module_None in Hnew.
  unfold lookup_module in Hnew. apply fmap_None in Hnew.
  unfold merge_module, find_module. rewrite Hnew.
  rewrite list_lookup_middle by done.
  rewrite (merge_artifacts_spec _ _ "artifacts" "name"
             [] (mod_artifacts rhs_module)) by (done || apply well_keyed_nil).
  simpl.
  rewrite (merge_artifacts_spec _ _ "dependencies" "id"
             [] (mod_dependencies rhs_module)) by (done || apply well_keyed_nil).
  simpl. rewrite !merged_items_nil_l.
  replace (length modules) with (length modules + 0) by lia.
  rewrite insert_app_r. simpl. by destruct rhs_module.
Qed.

(** A document whose ids are unique absorbs each of its own modules. *)
Lemma merge_module_self modules m :
  NoDup (mod_id <$> modules) → m ∈ modules → module_wf m →
  merge_module m modules = Ok modules.
Proof.
  intros Hnd Hin Hwf. apply list_elem_of_lookup in Hin as [i Hi].
  rewrite (merge_module_found m modules i m); [| by apply list_find_unique |done..].
  by rewrite merge_mod_self, list_insert_id.
Qed.

Lemma merge_loop_self modules rs :
  NoDup (mod_id <$> modules) → rs ⊆ modules → Forall module_wf rs →
  for_each rs modules merge_module = Ok modules.
Proof.
  intros Hnd. induction rs as [|r rs IH]; intros Hsub Hwf; simpl; [done|].
  apply Forall_cons in Hwf as [Hr Hwf].
  rewrite merge_module_self; [simpl | done | apply Hsub; left | done].
  apply IH; [|done]. intros x Hx. apply Hsub. by right.
Qed.


Lemma lookup_module_cons module_id m modules :
  lookup_module module_id (m :: modules) =
    if decide (mod_id m = module_id) then Some m
    else lookup_module module_id modules.
Proof.
  unfold lookup_module. simpl.
  destruct (String.eqb_spec (mod_id m) module_id) as [Heq|Hne].
  - rewrite decide_True by done. rewrite decide_True by done. done.
  - rewrite decide_False by done. rewrite decide_False by done.
    rewrite <- option_fmap_compose.
    by destruct (list_find _ modules) as [[j y]|].
Qed.

Lemma lookup_module_insert modules module_id i lm m' mid :
  list_find (λ it, String.eqb (mod_id it) module_id = true) modules
    = Some (i, lm) →
  mod_id m' = mod_id lm →
  lookup_module mid (<[i := m']> modules) =
    if decide (mid = module_id) then Some m' else lookup_module mid modules.
Proof.
  revert i. induction modules as [|x modules IH]; intros i Hfind Hid; [done|].
  simpl in Hfind.
  destruct (decide (String.eqb (mod_id x) module_id = true)) as [Hx|Hx].
  - simplify_eq/=. apply String.eqb_eq in Hx. rewrite !lookup_module_cons.
    rewrite Hid. repeat case_decide; congruence.
  - destruct (list_find _ modules) as [[j y]|] eqn:Hrec; simplify_eq/=.
    rewrite !lookup_module_cons. rewrite (IH j) by done.
    rewrite String.eqb_eq in Hx. repeat case_decide; congruence.
Qed.

Lemma lookup_module_snoc modules r mid :
  lookup_module mid (modules ++ [r]) =
    match lookup_module mid modules with
    | Some m => Some m
    | None => if decide (mod_id r = mid) then Some r else None
    end.
Proof.
  induction modules as [|x modules IH]; simpl.
  - rewrite lookup_module_cons. by case_decide.
  - rewrite !lookup_module_cons.
    destruct (decide (mod_id x = mid)); [done | apply IH].
Qed.

(** The loop of [merge_buildinfo] on well-formed modules: it succeeds, keeps
    the modules well-formed, and under every id leaves the combination of
    what the two sides hold under it. *)
Lemma merge_loop_lookup rs modules :
  NoDup (mod_id <$> rs) → Forall module_wf rs → Forall module_wf modules →
  ∃ modules',
    for_each rs modules merge_module = Ok modules'
    ∧ Forall module_wf modules'
    ∧ ∀ mid, lookup_module mid modules' =
        combine_modules (lookup_module mid modules) (lookup_module mid rs).
Proof.
  revert modules. induction rs as [|r rs IH]; intros modules Hnd Hwr Hwm.
  - exists modules. split; [done|]. split; [done|].
    intros mid. simpl. unfold lookup_module at 3. simpl.
    by destruct (lookup_module mid modules).
  - rewrite fmap_cons in Hnd. apply NoDup_cons in Hnd as [Hr Hnd].
    apply Forall_cons in Hwr as [Hwfr Hwr]. simpl.
    apply lookup_module_None in Hr.
    destruct (list_find (λ it, String.eqb (mod_id it) (mod_id r) = true) modules)
      as [[i lm]|] eqn:Hfind.
    + pose proof Hfind as Hfind'.
      apply list_find_Some in Hfind' as (Hi & Hid & _).
      apply String.eqb_eq in Hid.
      assert (Hwlm : module_wf lm).
      { eapply Forall_forall; [exact Hwm|]. by eapply list_elem_of_lookup_2. }
      rewrite (merge_module_found r modules i lm) by done. simpl.
      destruct (IH (<[i := merge_mod lm r]> modules)) as (ms' & Hloop & Hwf' & Hlook);
        [done | done | |].
      { apply Forall_insert; [done|]. by apply module_wf_merge_mod. }
      exists ms'. split; [done|]. split; [done|].
      intros mid. rewrite Hlook.
      rewrite (lookup_module_insert modules (mod_id r) i lm) by done.
      rewrite lookup_module_cons.
      destruct (decide (mid = mod_id r)) as [->|Hne].
      * rewrite decide_True by done. rewrite Hr.
        unfold lookup_module at 1. by rewrite Hfind.
      * rewrite decide_False by done. done.
    + assert (Hnew : mod_id r ∉ mod_id <$> modules).
      { apply lookup_module_None. unfold lookup_module. by rewrite Hfind. }
      rewrite merge_module_new by done. simpl.
      destruct (IH (modules ++ [r])) as (ms' & Hloop & Hwf' & Hlook);
        [done | done | |].
      { apply Forall_app. split; [done|]. by constructor. }
      exists ms'. split; [done|]. split; [done|].
      intros mid. rewrite Hlook.
      rewrite lookup_module_snoc, lookup_module_cons.
      destruct (decide (mod_id r = mid)) as [<-|Hne].
      * apply lookup_module_None in Hnew. by rewrite Hnew, Hr.
      * by destruct (lookup_module mid modules).
Qed.

(** ** The merge of documents *)

(** C1 (the code departs from the claim). With module ["m"] holding an
    artifact named ["a"] of checksum ["X"] on the left and of checksum ["Y"]
    on the right, [merge_buildinfo] raises nothing: it returns the left
    document and keeps the left entry. And whatever two modules hold,
    [merge_artifacts] never fails its assertion, which compares the key of
    the new entry with the key it was found under, never the checksums. *)
Theorem merge_conflict_undetected :
  merge_buildinfo (Some (conflict_doc "X")) (Some (conflict_doc "Y"))
    = Ok (Some (conflict_doc "X"))
  ∧ ∀ lhs rhs key cmp_key msg,
      merge_artifacts lhs rhs key cmp_key ≠ Raise (AssertionError msg).
Proof.
  split; [reflexivity|]. intros lhs rhs key cmp_key msg Hraise.
  pose proof (merge_artifacts_no_conflict lhs rhs key cmp_key) as Hno.
  rewrite Hraise in Hno. by apply (Hno msg).
Qed.

(** The first document of [update_build_info] is merged into [{}], that
    is, taken as it is. *)
Lemma update_build_info_cons data rest :
  update_build_info (data :: rest) =
    for_each rest data (λ data build_info, merge_buildinfo build_info data).
Proof. unfold update_build_info. simpl. by destruct data. Qed.

(** C5. Two documents that differ in [version], [name] or [number] are
    not merged: the first failing assertion of [merge_buildinfo] is raised
    and no document is returned. *)
Theorem merge_incompatible_raises (l r : BuildInfo) :
  bi_version l ≠ bi_version r ∨ bi_name l ≠ bi_name r
    ∨ bi_number l ≠ bi_number r →
  merge_buildinfo (Some l) (Some r) = Raise (AssertionError None).
Proof.
  intros Hdiff. unfold merge_buildinfo. simpl.
  destruct (String.eqb_spec (bi_version l) (bi_version r)); simpl; [|done].
  destruct (String.eqb_spec (bi_name l) (bi_name r)); simpl; [|done].
  destruct (String.eqb_spec (bi_number l) (bi_number r)); simpl; [|done].
  tauto.
Qed.

Lemma merge_incompatible_raises_witness :
  merge_buildinfo (Some (sample_doc [libfoo_recipe]))
    (Some (set_modules
             (mkBuildInfo "1.0.1" "build" "8" "GENERIC" "" ("", "") [] None)
             [libfoo_package]))
    = Raise (AssertionError None).
Proof.
  apply merge_incompatible_raises. right. right. simpl. discriminate.
Defined.

(** C6. The empty document is a left and a right identity of the merge. *)
Theorem merge_empty_identity (x : Doc) :
  merge_buildinfo None x = Ok x ∧ merge_buildinfo x None = Ok x.
Proof. by destruct x. Qed.

Lemma elem_of_merged_items cmp_key l r a :
  a ∈ merged_items cmp_key l r ↔
  a ∈ l ∨ (a ∈ r ∧ key_of cmp_key a ∉ key_of cmp_key <$> l).
Proof.
  unfold merged_items. rewrite elem_of_app, list_elem_of_filter. tauto.
Qed.

(** ** Artifact equality and sets *)

Lemma opt_eqb_eq a b : opt_eqb a b = true ↔ a = b.
Proof.
  destruct a as [x|], b as [y|]; simpl; rewrite ?String.eqb_eq; naive_solver.
Qed.

Lemma Artifact_eq_spec a b : Artifact_eq a b = true ↔ a = b.
Proof.
  unfold Artifact_eq. rewrite !andb_true_iff, !String.eqb_eq, !opt_eqb_eq.
  destruct a, b; simpl. split; [by intros [[[-> ->] ->] ->] | by intros [= -> -> -> ->]].
Qed.

Section set_lemmas.
Variable hash : string → Z.

Lemma set_contains_spec x s : set_contains hash x s = true ↔ x ∈ s.
Proof.
  unfold set_contains. rewrite existsb_exists. split.
  - intros (y & Hy & Heq). apply andb_true_iff in Heq as [_ Heq].
    apply Artifact_eq_spec in Heq as ->. by apply list_elem_of_In.
  - intros Hx. exists x. split; [by apply list_elem_of_In|].
    apply andb_true_iff. split; [apply Z.eqb_refl | by apply Artifact_eq_spec].
Qed.

Lemma elem_of_set_add x y s : y ∈ set_add hash x s ↔ y = x ∨ y ∈ s.
Proof.
  unfold set_add. destruct (set_contains hash x s) eqn:Hc.
  - apply set_contains_spec in Hc. split; [by right | by intros [->|]].
  - rewrite elem_of_app, list_elem_of_singleton. tauto.
Qed.

Lemma NoDup_set_add x s : NoDup s → NoDup (set_add hash x s).
Proof.
  intros Hnd. unfold set_add. destruct (set_contains hash x s) eqn:Hc; [done|].
  apply NoDup_app. split; [done|]. split; [|apply NoDup_singleton].
  intros y Hy Hy'. apply list_elem_of_singleton in Hy' as ->.
  apply set_contains_spec in Hy. congruence.
Qed.

Lemma elem_of_set_update x s t : x ∈ set_update hash s t ↔ x ∈ s ∨ x ∈ t.
Proof.
  unfold set_update. revert s. induction t as [|y t IH]; intros s; simpl.
  - rewrite elem_of_nil. tauto.
  - rewrite IH, elem_of_set_add, elem_of_cons. tauto.
Qed.

Lemma NoDup_set_update s t : NoDup s → NoDup (set_update hash s t).
Proof.
  unfold set_update. revert s. induction t as [|y t IH]; intros s Hs; simpl; [done|].
  apply IH. by apply NoDup_set_add.
Qed.
End set_lemmas.

(** ** The environment snapshot *)

Lemma environment_lookup environ k' v :
  environment environ !! k' = Some v ↔
  ∃ k, k' = "buildInfo.env." +:+ k ∧ list_contains k excluded = false
       ∧ environ !! k = Some v.
Proof.
  unfold environment. split.
  - intros Hin. apply elem_of_list_to_map_2 in Hin.
    apply list_elem_of_fmap in Hin as ([k w] & [= -> ->] & Hin).
    apply list_elem_of_filter in Hin as [Hex Hin].
    apply elem_of_map_to_list in Hin. by exists k.
  - intros (k & -> & Hex & Hk). apply elem_of_list_to_map_1'.
    + intros y Hy. apply list_elem_of_fmap in Hy as ([k2 w] & [= Hkeq ->] & Hin).
      apply (inj (String.append _)) in Hkeq as <-.
      apply list_elem_of_filter in Hin as [_ Hin].
      apply elem_of_map_to_list in Hin. simpl. congruence.
    + apply list_elem_of_fmap. exists (k, v). split; [done|].
      apply list_elem_of_filter. split; [done|]. by apply elem_of_map_to_list.
Qed.

(** C9 (as amended). When the environment is not skipped, the variables
    named exactly [secret], [key] or [password] are left out, and every
    other variable is recorded under the [buildInfo.env.] prefix; nothing
    else is recorded. *)
Theorem environment_excludes_exact_names (environ : gmap string string) :
  ∃ props, create_properties false environ = Some props
    ∧ (∀ k, props !! ("buildInfo.env." +:+ k) =
              if list_contains k excluded then None else environ !! k)
    ∧ (∀ k' v, props !! k' = Some v → ∃ k, k' = "buildInfo.env." +:+ k)
    ∧ (∀ k, list_contains k excluded = true ↔
              k = "secret" ∨ k = "key" ∨ k = "password").
Proof.
  exists (environment environ). split; [done|]. split; [|split].
  - intros k. destruct (list_contains k excluded) eqn:Hex.
    + apply eq_None_not_Some. intros [v Hv].
      apply environment_lookup in Hv as (k2 & Hk & Hex2 & _).
      apply (inj (String.append _)) in Hk as <-. congruence.
    + destruct (environ !! k) as [v|] eqn:Hk.
      * apply environment_lookup. by exists k.
      * apply eq_None_not_Some. intros [v Hv].
        apply environment_lookup in Hv as (k2 & Hk2 & _ & Hv).
        apply (inj (String.append _)) in Hk2 as <-. congruence.
  - intros k' v Hv. apply environment_lookup in Hv as (k & -> & _). by exists k.
  - intros k. unfold list_contains, excluded. simpl.
    rewrite !orb_true_iff, !String.eqb_eq. intuition discriminate.
Qed.

(** C9, the claim refuted: a variable whose name contains [key] without
    being [key] is recorded with its value. *)
Lemma environment_keeps_api_key :
  str_contains "key" "api_key" = true
  ∧ create_properties false {[ "api_key" := "hunter2" ]}
      ≫= (.!! "buildInfo.env.api_key") = Some "hunter2".
Proof. split; vm_compute; reflexivity. Qed.

(** ** The traversal *)

Lemma traced_bind_Ok {A B} (m : Traced A) (f : A → Traced B) b log :
  traced_bind m f = (Ok b, log) →
  ∃ a l1 l2, m = (Ok a, l1) ∧ f a = (Ok b, l2) ∧ log = l1 ++ l2.
Proof.
  destruct m as [[a|e] l1]; simpl; [|by intros [=]].
  destruct (f a) as [r l2] eqn:Hf. intros [= -> <-]. by exists a, l1, l2.
Qed.

(** A loop that ends normally ran its body on every element, and its log
    is made of the logs of the iterations. *)
Lemma for_each_traced_Ok {A S} (xs : list A) (acc : S) body s log :
  for_each_traced xs acc body = (Ok s, log) →
  ∃ logs, log = concat logs
    ∧ Forall2 (λ x l, ∃ a a', body x a = (Ok a', l)) xs logs.
Proof.
  revert acc log. induction xs as [|x xs IH]; intros acc log; simpl.
  - intros [= <- <-]. exists []. split; [done | constructor].
  - intros (a' & l1 & l2 & Hbody & Hrest & ->)%traced_bind_Ok.
    destruct (IH _ _ Hrest) as (logs & -> & Hall).
    exists (l1 :: logs). split; [done|]. constructor; [by eauto | done].
Qed.

Section traversal_lemmas.
Variable hash : string → Z.
Variable func : string → Result PySet.
Variable contents : gmap string LockNode.

Lemma gather_deps_S limit node_uid :
  _gather_deps hash func (S limit) node_uid contents =
    match contents !! node_uid with
    | None => (Raise TypeError, [])
    | Some node_content =>
        traced_bind (func (pref node_content), [pref node_content])
          (λ artifacts,
             for_each_traced (requires node_content) artifacts
               (λ item artifacts,
                  traced_bind (_gather_deps hash func limit item.2 contents)
                    (λ deps, traced_ret (set_update hash artifacts deps))))
    end.
Proof. reflexivity. Qed.

(** What a call that returns went through. *)
Lemma gather_deps_Ok_inv limit node_uid s log :
  _gather_deps hash func (S limit) node_uid contents = (Ok s, log) →
  ∃ node arts logs,
    contents !! node_uid = Some node
    ∧ func (pref node) = Ok arts
    ∧ log = pref node :: concat logs
    ∧ Forall2 (λ item l, ∃ s',
         _gather_deps hash func limit item.2 contents = (Ok s', l))
        (requires node) logs.
Proof.
  rewrite gather_deps_S.
  destruct (contents !! node_uid) as [node|]; [|by intros [=]].
  intros (arts & l1 & l2 & [= Hfunc <-] & Hloop & ->)%traced_bind_Ok.
  apply for_each_traced_Ok in Hloop as (logs & -> & Hall).
  exists node, arts, logs. split; [done|]. split; [done|]. split; [done|].
  eapply Forall2_impl; [exact Hall|]. intros item l (a & a' & Hbody).
  apply traced_bind_Ok in Hbody as (deps & l1 & l2 & Hrec & [= _ <-] & ->).
  exists deps. by rewrite app_nil_r.
Qed.

(** A call that returns went down every dependency path, and none has
    more slots than the recursion limit allows. *)
Lemma gather_deps_Ok_depth limit node_uid s log :
  _gather_deps hash func limit node_uid contents = (Ok s, log) →
  ∀ path v, walk contents node_uid path = Some v → length path < limit.
Proof.
  revert node_uid s log. induction limit as [|limit IH];
    intros node_uid s log; [by intros [=]|].
  intros (node & arts & logs & Hnode & _ & _ & Hall)%gather_deps_Ok_inv.
  intros [|slot path] v; simpl; [lia|].
  rewrite Hnode. simpl.
  destruct (dict_get slot (requires node)) as [child|] eqn:Hget; [|done].
  simpl. intros Hwalk.
  pose proof (dict_get_elem _ _ _ Hget) as Hin.
  apply list_elem_of_lookup in Hin as [i Hi].
  destruct (Forall2_lookup_l _ _ _ _ _ Hall Hi) as (l & _ & s' & Hrec).
  specialize (IH _ _ _ Hrec _ _ Hwalk). simpl in IH. lia.
Qed.

Hypothesis Hwf : graph_wf contents.

Lemma pref_at_nil node_uid node :
  contents !! node_uid = Some node → pref_at contents node_uid [] = pref node.
Proof. intros Hnode. unfold pref_at. simpl. by rewrite Hnode; simpl; rewrite Hnode. Qed.

Lemma pref_at_cons node_uid node slot child path :
  contents !! node_uid = Some node → (slot, child) ∈ requires node →
  pref_at contents node_uid (slot :: path) = pref_at contents child path.
Proof.
  intros Hnode Hin. unfold pref_at. simpl. rewrite Hnode. simpl.
  rewrite (dict_get_NoDup slot child); [done | | done].
  by apply (map_Forall_lookup_1 _ _ _ _ Hwf Hnode).
Qed.

(** [paths] lists the dependency paths shorter than the limit. *)
Lemma elem_of_paths limit node_uid path :
  path ∈ paths limit contents node_uid ↔
  length path < limit ∧ is_Some (walk contents node_uid path).
Proof.
  revert node_uid path. induction limit as [|limit IH]; intros node_uid path.
  { simpl. rewrite elem_of_nil. split; [done | lia]. }
  simpl. destruct (contents !! node_uid) as [node|] eqn:Hnode.
  2:{ rewrite elem_of_nil. split; [done|]. intros [_ [v Hv]].
      destruct path; simpl in Hv; by rewrite Hnode in Hv. }
  rewrite elem_of_cons, list_elem_of_bind. split.
  - intros [->|([slot child] & Hp & Hin)].
    + simpl. rewrite Hnode. split; [lia | by eexists].
    + apply list_elem_of_fmap in Hp as (p' & -> & Hp'). simpl in *.
      apply IH in Hp' as [Hlen Hwalk]. split; [lia|].
      rewrite Hnode. simpl. rewrite (dict_get_NoDup slot child); [done | | done].
      by apply (map_Forall_lookup_1 _ _ _ _ Hwf Hnode).
  - intros [Hlen Hwalk]. destruct path as [|slot p']; [by left|]. right.
    simpl in Hwalk. rewrite Hnode in Hwalk. simpl in Hwalk.
    destruct (dict_get slot (requires node)) as [child|] eqn:Hget;
      [|by destruct Hwalk]. simpl in Hwalk.
    exists (slot, child). split; [|by apply dict_get_elem].
    apply list_elem_of_fmap. exists p'. split; [done|]. simpl.
    apply IH. split; [simpl in Hlen; lia | done].
Qed.

Lemma NoDup_paths limit node_uid : NoDup (paths limit contents node_uid).
Proof.
  revert node_uid. induction limit as [|limit IH]; intros node_uid; simpl;
    [constructor|].
  destruct (contents !! node_uid) as [node|] eqn:Hnode; [|constructor].
  pose proof (map_Forall_lookup_1 _ _ _ _ Hwf Hnode) as Hkeys. simpl in Hkeys.
  apply NoDup_cons. split.
  - intros ([slot child] & Hp & _)%list_elem_of_bind.
    by apply list_elem_of_fmap in Hp as (p' & [=] & _).
  - apply NoDup_bind.
    + intros [s1 c1] [s2 c2] p Hin1 Hin2 Hp1 Hp2. simpl in *.
      apply list_elem_of_fmap in Hp1 as (p1 & -> & _).
      apply list_elem_of_fmap in Hp2 as (p2 & [= <- _] & _).
      f_equal. pose proof (dict_get_NoDup _ _ _ Hkeys Hin1).
      pose proof (dict_get_NoDup _ _ _ Hkeys Hin2). congruence.
    + intros [slot child] _. simpl. apply NoDup_fmap_2; [|apply IH].
      by intros p1 p2 [=].
    + by apply NoDup_fmap_1 in Hkeys.
Qed.

(** The log of a call that returns: the references at the end of the
    dependency paths, one call of the resolver for each path. *)
Lemma gather_deps_log limit node_uid s log :
  _gather_deps hash func limit node_uid contents = (Ok s, log) →
  log = pref_at contents node_uid <$> paths limit contents node_uid.
Proof.
  revert node_uid s log. induction limit as [|limit IH];
    intros node_uid s log; [by intros [=]|].
  intros (node & arts & logs & Hnode & _ & -> & Hall)%gather_deps_Ok_inv.
  simpl. rewrite Hnode, fmap_cons, (pref_at_nil _ node) by done. f_equal.
  assert (Hsub : ∀ item, item ∈ requires node → item ∈ requires node) by done.
  revert Hsub Hall. generalize (requires node) at 1 3 4. intros items.
  revert logs. induction items as [|[slot child] items IHitems];
    intros logs Hsub Hall.
  - by apply Forall2_nil_inv_l in Hall as ->.
  - apply Forall2_cons_inv_l in Hall as (l & logs' & (s' & Hrec) & Hall & ->).
    simpl in Hrec. rewrite bind_cons, fmap_app. simpl. f_equal.
    + rewrite (IH _ _ _ Hrec), <- list_fmap_compose.
      apply list_fmap_ext. intros _ p _. simpl. symmetry.
      apply (pref_at_cons _ node); [done|]. apply Hsub. left.
    + apply IHitems; [|done]. intros item Hitem. apply Hsub. by right.
Qed.
End traversal_lemmas.

(** C2 (as amended). There is no memoisation: a traversal that returns
    has called the resolver once for every dependency path from the start
    node, in depth-first order, so a node reached by several paths is
    resolved once for each of them (twice for C in the diamond). *)
Theorem gather_deps_once_per_path (hash : string → Z)
    (func : string → Result PySet) (contents : gmap string LockNode)
    (limit : nat) (node_uid : string) (s : PySet) (log : list string) :
  graph_wf contents →
  _gather_deps hash func limit node_uid contents = (Ok s, log) →
  log = pref_at contents node_uid <$> paths limit contents node_uid
  ∧ NoDup (paths limit contents node_uid)
  ∧ ∀ path, path ∈ paths limit contents node_uid ↔
            is_Some (walk contents node_uid path).
Proof.
  intros Hwf Hrun. split; [by eapply gather_deps_log|].
  split; [by apply NoDup_paths|].
  intros path. rewrite elem_of_paths by done. split; [by intros [_ ?]|].
  intros [v Hv]. split; [|by eexists].
  by eapply gather_deps_Ok_depth.
Qed.

Lemma gather_deps_once_per_path_witness :
  graph_wf diamond
  ∧ _gather_deps sample_hash sample_func 1000 "0" diamond
      = (Ok [mkArtifact "sha1 of root/1.0" "md5" None (Some "root/1.0 :: conanfile.py");
             mkArtifact "sha1 of liba/1.0" "md5" None (Some "liba/1.0 :: conanfile.py");
             mkArtifact "sha1 of libc/1.0" "md5" None (Some "libc/1.0 :: conanfile.py");
             mkArtifact "sha1 of libb/1.0" "md5" None (Some "libb/1.0 :: conanfile.py")],
         ["root/1.0"; "liba/1.0"; "libc/1.0"; "libb/1.0"; "libc/1.0"])
  ∧ ["root/1.0"; "liba/1.0"; "libc/1.0"; "libb/1.0"; "libc/1.0"]
      = pref_at diamond "0" <$> paths 1000 diamond "0".
Proof.
  assert (Hwf : graph_wf diamond).
  { apply (bool_decide_unpack _). vm_compute. exact I. }
  assert (Hrun : _gather_deps sample_hash sample_func 1000 "0" diamond
      = (Ok [mkArtifact "sha1 of root/1.0" "md5" None (Some "root/1.0 :: conanfile.py");
             mkArtifact "sha1 of liba/1.0" "md5" None (Some "liba/1.0 :: conanfile.py");
             mkArtifact "sha1 of libc/1.0" "md5" None (Some "libc/1.0 :: conanfile.py");
             mkArtifact "sha1 of libb/1.0" "md5" None (Some "libb/1.0 :: conanfile.py")],
         ["root/1.0"; "liba/1.0"; "libc/1.0"; "libb/1.0"; "libc/1.0"])).
  { vm_compute. reflexivity. }
  split; [exact Hwf|]. split; [exact Hrun|].
  exact (proj1 (gather_deps_once_per_path _ _ _ _ _ _ _ Hwf Hrun)).
Defined.

(** C2, the claim refuted: in the diamond the traversal from the root
    returns, and has called the resolver twice with the reference of C. *)
Lemma diamond_resolves_twice :
  ∃ s log, _gather_deps sample_hash sample_func 1000 "0" diamond = (Ok s, log)
    ∧ length (filter (λ p, p = "libc/1.0") log) = 2.
Proof. do 2 eexists. split; vm_compute; reflexivity. Qed.

Lemma for_each_traced_inv {A S} (Q : exn → Prop) (xs : list A) (acc : S) body :
  (∀ x a, x ∈ xs →
     match (body x a).1 with Ok _ => True | Raise e => Q e end) →
  match (for_each_traced xs acc body).1 with Ok _ => True | Raise e => Q e end.
Proof.
  revert acc. induction xs as [|x xs IH]; intros acc Hbody; simpl; [done|].
  pose proof (Hbody x acc ltac:(left)) as Hx.
  destruct (body x acc) as [[a'|e] l1]; simpl in *; [|done].
  assert (Hrest : ∀ y a, y ∈ xs →
            match (body y a).1 with Ok _ => True | Raise e => Q e end).
  { intros y a Hy. apply Hbody. by right. }
  specialize (IH a' Hrest).
  by destruct (for_each_traced xs a' body) as [[s|e] l2].
Qed.

Lemma walk_is_node contents node_uid path v :
  walk contents node_uid path = Some v → is_Some (contents !! v).
Proof.
  revert node_uid. induction path as [|slot path IH]; intros node_uid; simpl.
  - destruct (contents !! node_uid) eqn:Hnode; [|done]. intros [= <-]. by rewrite Hnode.
  - destruct (contents !! node_uid) as [node|]; [|done]. simpl.
    destruct (dict_get slot (requires node)) as [child|]; [|done]. apply IH.
Qed.

Lemma walk_app contents node_uid p q :
  walk contents node_uid (p ++ q) =
    walk contents node_uid p ≫= λ v, walk contents v q.
Proof.
  revert node_uid. induction p as [|slot p IH]; intros node_uid; simpl.
  - destruct (contents !! node_uid) as [node|] eqn:Hnode; [done|].
    destruct q; simpl; by rewrite Hnode.
  - destruct (contents !! node_uid) as [node|]; [|done]. simpl.
    destruct (dict_get slot (requires node)) as [child|]; [|done]. apply IH.
Qed.

(** Going round a cycle [n] times. *)
Lemma walk_cycle contents v q n :
  walk contents v q = Some v →
  walk contents v (concat (replicate n q)) = Some v.
Proof.
  intros Hq. induction n as [|n IH]; simpl.
  - destruct (walk_is_node _ _ _ _ Hq) as [node Hnode]. by rewrite Hnode.
  - by rewrite walk_app, Hq.
Qed.

Section cycles.
Variable hash : string → Z.
Variable func : string → Result PySet.
Variable contents : gmap string LockNode.

(** From a node that reaches a cycle no traversal returns. *)
Lemma gather_deps_cycle_no_result node_uid p q v limit s log :
  walk contents node_uid p = Some v → q ≠ [] →
  walk contents v q = Some v →
  _gather_deps hash func limit node_uid contents ≠ (Ok s, log).
Proof.
  intros Hp Hq Hcycle Hrun.
  assert (Hlong : walk contents node_uid (p ++ concat (replicate limit q)) = Some v).
  { rewrite walk_app, Hp. simpl. by apply walk_cycle. }
  apply (gather_deps_Ok_depth _ _ _ _ _ _ _ Hrun) in Hlong.
  rewrite length_app in Hlong.
  assert (limit ≤ length (concat (replicate limit q)))%nat; [|lia].
  clear -Hq. induction limit as [|n IH]; simpl; [lia|].
  rewrite length_app. destruct q; [done|]. simpl. lia.
Qed.

(** When every required node is in the graph and the resolver raises
    nothing, the traversal of a node of the graph can only fail on the
    recursion limit. *)
Lemma gather_deps_only_overflows limit node_uid :
  graph_closed contents → (∀ p, ∃ s, func p = Ok s) →
  is_Some (contents !! node_uid) →
  match (_gather_deps hash func limit node_uid contents).1 with
  | Ok _ => True
  | Raise e => e = RecursionError
  end.
Proof.
  intros Hclosed Hfunc. revert node_uid.
  induction limit as [|limit IH]; intros node_uid [node Hnode]; [done|].
  rewrite gather_deps_S, Hnode. destruct (Hfunc (pref node)) as [arts ->].
  simpl.
  pose proof (for_each_traced_inv (λ e, e = RecursionError) (requires node) arts
    (λ item artifacts,
       traced_bind (_gather_deps hash func limit item.2 contents)
         (λ deps, traced_ret (set_update hash artifacts deps)))) as Hloop.
  destruct (for_each_traced _ _ _) as [r l]. simpl in *. apply Hloop.
  intros [slot child] a Hin. simpl.
  assert (Hchild : is_Some (contents !! child)).
  { pose proof (map_Forall_lookup_1 _ _ _ _ Hclosed Hnode) as Hall.
    simpl in Hall. apply (proj1 (Forall_forall _ _) Hall).
    apply list_elem_of_fmap. by exists (slot, child). }
  specialize (IH child Hchild).
  by destruct (_gather_deps hash func limit child contents) as [[deps|e] l'].
Qed.

Lemma gather_deps_cycle_overflows node_uid p q v limit :
  graph_closed contents → (∀ r, ∃ s, func r = Ok s) →
  walk contents node_uid p = Some v → q ≠ [] →
  walk contents v q = Some v →
  ∃ log, _gather_deps hash func limit node_uid contents
           = (Raise RecursionError, log).
Proof.
  intros Hclosed Hfunc Hp Hq Hcycle.
  assert (Hnode : is_Some (contents !! node_uid)).
  { destruct p; simpl in Hp; by destruct (contents !! node_uid). }
  pose proof (gather_deps_only_overflows limit node_uid Hclosed Hfunc Hnode) as Hr.
  pose proof (gather_deps_cycle_no_result node_uid p q v limit) as Hno.
  destruct (_gather_deps hash func limit node_uid contents) as [[s|e] log].
  - by destruct (Hno s log).
  - simpl in Hr. subst e. by exists log.
Qed.
End cycles.

(** C3 (as amended). Cycles are not detected. From a node that reaches a
    dependency cycle the traversal returns no closure, whatever the
    recursion limit; and when every required node is in the graph and the
    resolver raises nothing, it goes on until the limit is exhausted and
    ends in [RecursionError]. *)
Theorem gather_deps_cycle (hash : string → Z) (func : string → Result PySet)
    (contents : gmap string LockNode) (node_uid : string)
    (p q : list string) (v : string) :
  walk contents node_uid p = Some v → q ≠ [] →
  walk contents v q = Some v →
  (∀ limit, ∃ e log,
     _gather_deps hash func limit node_uid contents = (Raise e, log))
  ∧ (graph_closed contents → (∀ r, ∃ s, func r = Ok s) →
     ∀ limit, ∃ log,
       _gather_deps hash func limit node_uid contents
         = (Raise RecursionError, log)).
Proof.
  intros Hp Hq Hcycle. split.
  - intros limit.
    pose proof (gather_deps_cycle_no_result hash func contents
                  node_uid p q v limit) as Hno.
    destruct (_gather_deps hash func limit node_uid contents) as [[s|e] log].
    + by destruct (Hno s log).
    + by exists e, log.
  - intros Hclosed Hfunc limit. by eapply gather_deps_cycle_overflows.
Qed.

Lemma gather_deps_cycle_witness :
  walk two_cycle "X" [] = Some "X"
  ∧ walk two_cycle "X" ["y/1.0"; "x/1.0"] = Some "X"
  ∧ ∃ log, _gather_deps sample_hash sample_func 1000 "X" two_cycle
             = (Raise RecursionError, log).
Proof.
  assert (H1 : walk two_cycle "X" [] = Some "X") by (vm_compute; reflexivity).
  assert (H2 : walk two_cycle "X" ["y/1.0"; "x/1.0"] = Some "X")
    by (vm_compute; reflexivity).
  split; [exact H1|]. split; [exact H2|].
  apply (proj2 (gather_deps_cycle sample_hash sample_func two_cycle "X"
                  [] ["y/1.0"; "x/1.0"] "X" H1 ltac:(discriminate) H2)).
  - apply (bool_decide_unpack _). vm_compute. exact I.
  - intros r. eexists. reflexivity.
Defined.

(** C3, the claim refuted: on the graph X -> Y, Y -> X, with the default
    recursion limit of the interpreter, the traversal from X calls the
    resolver a thousand times, going round the cycle, and ends in
    [RecursionError]: the cycle is not detected, the recursion is only cut
    by the limit. *)
Lemma two_cycle_overflows :
  (_gather_deps sample_hash sample_func 1000 "X" two_cycle).1
    = Raise RecursionError
  ∧ length (_gather_deps sample_hash sample_func 1000 "X" two_cycle).2 = 1000.
Proof. split; vm_compute; reflexivity. Qed.

(** ** Artifact identity in sets and closures *)

Lemma for_each_traced_Ok_state {A S} (P : S → Prop) (xs : list A) (acc : S)
    body s log :
  P acc → (∀ x a a' l, P a → body x a = (Ok a', l) → P a') →
  for_each_traced xs acc body = (Ok s, log) → P s.
Proof.
  intros Hacc Hbody. revert acc log Hacc.
  induction xs as [|x xs IH]; intros acc log Hacc; simpl.
  - by intros [= <- _].
  - intros (a' & l1 & l2 & Hx & Hrest & _)%traced_bind_Ok.
    eapply IH; [|exact Hrest]. by eapply Hbody.
Qed.

(** The closure is a set: it never holds an artifact twice. *)
Lemma gather_deps_NoDup hash func limit node_uid contents s log :
  (∀ p s0, func p = Ok s0 → NoDup s0) →
  _gather_deps hash func limit node_uid contents = (Ok s, log) → NoDup s.
Proof.
  intros Hfunc. destruct limit as [|limit]; [by intros [=]|].
  rewrite gather_deps_S. destruct (contents !! node_uid) as [node|]; [|by intros [=]].
  intros (arts & l1 & l2 & [= Harts _] & Hloop & _)%traced_bind_Ok.
  eapply (for_each_traced_Ok_state NoDup); [|clear Hloop|exact Hloop].
  - by eapply Hfunc.
  - intros item a a' l Ha (deps & l3 & l4 & _ & [= <- _] & _)%traced_bind_Ok.
    by apply NoDup_set_update.
Qed.

(** C4 (as amended). Two artifacts are equal exactly when their four
    fields are equal; equal artifacts have the same hash, which is the one
    of [sha1]; the set built from two artifacts has one element exactly
    when they are equal; a set keeps one copy of equal artifacts and
    nothing else is merged, in [update] and so in the closure that
    [_gather_deps] returns. *)
Theorem artifact_equality (hash : string → Z) (a b : Artifact) :
  (Artifact_eq a b = true ↔
     art_sha1 a = art_sha1 b ∧ art_md5 a = art_md5 b
     ∧ art_name a = art_name b ∧ art_id a = art_id b)
  ∧ (Artifact_eq a b = true → Artifact_hash hash a = Artifact_hash hash b)
  ∧ (set_of_list hash [a; b] = [a] ↔ Artifact_eq a b = true)
  ∧ (∀ s t, NoDup s →
       NoDup (set_update hash s t)
       ∧ ∀ x, x ∈ set_update hash s t ↔ x ∈ s ∨ x ∈ t)
  ∧ (∀ func limit node_uid contents s log,
       (∀ p s0, func p = Ok s0 → NoDup s0) →
       _gather_deps hash func limit node_uid contents = (Ok s, log) →
       NoDup s).
Proof.
  split; [|split; [|split; [|split]]].
  - rewrite Artifact_eq_spec. destruct a, b; simpl.
    split; [by intros [= -> -> -> ->] | by intros (-> & -> & -> & ->)].
  - rewrite Artifact_eq_spec. by intros ->.
  - unfold set_of_list, set_update. simpl. unfold set_add at 2. simpl.
    unfold set_add. destruct (set_contains hash b [a]) eqn:Hc.
    + apply set_contains_spec, list_elem_of_singleton in Hc as ->.
      split; [intros _; by apply Artifact_eq_spec | done].
    + split; [intros [=]|]. rewrite Artifact_eq_spec. intros ->.
      assert (set_contains hash b [b] = true); [|congruence].
      apply set_contains_spec. left.
  - intros s t Hs. split; [by apply NoDup_set_update|].
    intros x. apply elem_of_set_update.
  - intros func limit node_uid contents s log. apply gather_deps_NoDup.
Qed.

(** C4, the claim refuted: two dependency artifacts of the same content
    hash and different ids are different artifacts, stay two elements of a
    set, and stay two entries of the closure of [liba] in the diamond. *)
Lemma artifact_same_sha1_distinct :
  art_sha1 (mkArtifact "0a0a0a" "md5" None (Some "liba/1.0 :: LICENSE"))
    = art_sha1 (mkArtifact "0a0a0a" "md5" None (Some "libc/1.0 :: LICENSE"))
  ∧ Artifact_eq (mkArtifact "0a0a0a" "md5" None (Some "liba/1.0 :: LICENSE"))
                (mkArtifact "0a0a0a" "md5" None (Some "libc/1.0 :: LICENSE"))
      = false
  ∧ (_gather_deps sample_hash licence_func 1000 "1" diamond).1
      = Ok [mkArtifact "0a0a0a" "md5" None (Some "liba/1.0 :: LICENSE");
            mkArtifact "0a0a0a" "md5" None (Some "libc/1.0 :: LICENSE")].
Proof. split; [|split]; vm_compute; reflexivity. Qed.

(** ** The merge on the heap: what it writes *)

Module InPlaceFacts.
Import InPlace.

Lemma st_bind_Some {A B} (m : St A) (f : A → St B) h r h' :
  m h = Some (r, h') →
  st_bind m f h =
    match r with Ok a => f a h' | Raise e => Some (Raise e, h') end.
Proof. unfold st_bind. intros ->. by destruct r. Qed.

Lemma get_module_eq l key h :
  get_module l key h =
    match h !! l with
    | Some (OModule m) => Some (Ok m, h)
    | Some o => Some (Raise (getitem_error o key), h)
    | None => Some (Raise TypeError, h)
    end.
Proof.
  unfold get_module, st_bind, st_get. destruct (h !! l) as [[]|]; done.
Qed.

Lemma get_doc_eq l key h :
  get_doc l key h =
    match h !! l with
    | Some (ODoc d) => Some (Ok d, h)
    | Some o => Some (Raise (getitem_error o key), h)
    | None => Some (Raise TypeError, h)
    end.
Proof.
  unfold get_doc, st_bind, st_get. destruct (h !! l) as [[]|]; done.
Qed.

Lemma get_list_eq l h :
  get_list l h =
    match h !! l with
    | Some (OList items) => Some (Ok items, h)
    | _ => Some (Raise TypeError, h)
    end.
Proof.
  unfold get_list, st_bind, st_get. destruct (h !! l) as [[]|]; done.
Qed.

(** The search of [find_module] reads only, and what it finds is a
    module of the list. *)
Lemma find_loop_spec items module_id h :
  ∃ r, find_loop items module_id h = Some (r, h)
    ∧ ∀ it, r = Ok (Some it) →
        it ∈ items ∧ ∃ m, h !! it = Some (OModule m).
Proof.
  induction items as [|x items IH]; simpl.
  - exists (Ok None). split; [done|]. by intros it [=].
  - unfold st_bind. rewrite get_module_eq.
    destruct (h !! x) as [o|] eqn:Hx.
    2:{ eexists. split; [done|]. by intros it [=]. }
    destruct o as [|d|l|m]; try (eexists; split; [done|]; by intros it [=]).
    destruct (String.eqb (mod_id m) module_id).
    + exists (Ok (Some x)). split; [done|]. intros it [= <-].
      split; [left | by exists m].
    + destruct IH as (r & Hr & Hfound). exists r. split; [done|].
      intros it Hit. destruct (Hfound it Hit) as [Hin Hm].
      split; [by right | done].
Qed.

Lemma merge_artifacts_read lhs rhs key cmp_key h :
  ∃ r, merge_artifacts lhs rhs key cmp_key h = Some (r, h).
Proof.
  unfold merge_artifacts, st_bind at 1. rewrite get_module_eq.
  destruct (h !! lhs) as [[]|]; try by eexists.
  unfold st_bind, st_lift. rewrite get_module_eq.
  destruct (h !! rhs) as [[]|]; by eexists.
Qed.

Section frame.
(** The heap before the merge, the left document, its list of modules. *)
Variables (h0 : heap) (lhs : loc) (ld : DocObj) (litems : list loc).
Hypothesis Hlhs : h0 !! lhs = Some (ODoc ld).
Hypothesis Hlist : h0 !! do_modules ld = Some (OList litems).

Local Abbreviation Inv := (InPlace.Inv h0 ld litems).
Local Abbreviation target := (InPlace.target ld).

Lemma Inv_init : Inv h0.
Proof.
  split; [done|]. split; [done|]. split; [|done].
  exists []. rewrite app_nil_r. split; [done|]. by intros n Hn%elem_of_nil.
Qed.

Lemma Inv_lhs h : Inv h → h !! lhs = Some (ODoc ld).
Proof.
  intros (I1 & _). apply I1; [done | | done]. intros Heq.
  rewrite Heq in Hlhs. congruence.
Qed.

(** Assigning to a key of a module of the list keeps the invariant. *)
Lemma Inv_put_module h it m' :
  Inv h → target h it → Inv (<[it := OModule m']> h).
Proof.
  intros (I1 & I2 & (new & Hcur & Hnew) & I5) (cur & m & Hcur' & Hin & Hit).
  assert (Hne : it ≠ do_modules ld) by (intros ->; congruence).
  rewrite Hcur in Hcur'. simplify_eq.
  split; [|split; [|split]].
  - intros l o Hl HlL Hnm. destruct (decide (l = it)) as [->|Hlit].
    + rewrite (I1 _ _ Hl HlL Hnm) in Hit. simplify_eq. by destruct (Hnm m).
    + rewrite lookup_insert_ne by done. by apply I1.
  - intros l m0 Hl Hnin. destruct (decide (l = it)) as [->|Hlit].
    + apply elem_of_app in Hin as [Hin|Hin]; [done|].
      rewrite (Hnew _ Hin) in Hl. done.
    + rewrite lookup_insert_ne by done. by apply I2.
  - exists new. rewrite lookup_insert_ne by done. done.
  - intros l Hl. destruct (decide (l = it)) as [->|Hlit].
    + rewrite lookup_insert_eq. by eexists.
    + rewrite lookup_insert_ne by done. by apply I5.
Qed.

Lemma target_put_module h it it' m' :
  target h it → target h it' → target (<[it := OModule m']> h) it'.
Proof.
  intros (cur & m & Hcur & Hin & Hit) (cur' & m2 & Hcur' & Hin' & Hit').
  assert (Hne : it ≠ do_modules ld) by (intros ->; congruence).
  destruct (decide (it' = it)) as [->|Hne'].
  - exists cur, m'. rewrite lookup_insert_ne by done.
    by rewrite lookup_insert_eq.
  - exists cur', m2. by rewrite !lookup_insert_ne.
Qed.

Lemma set_artifacts_spec h it arts :
  Inv h → target h it →
  ∃ h', set_artifacts it arts h = Some (Ok tt, h') ∧ Inv h' ∧ target h' it.
Proof.
  intros HI Ht. pose proof Ht as (cur & m & Hcur & Hin & Hit).
  unfold set_artifacts, st_bind. rewrite get_module_eq, Hit.
  eexists. split; [done|].
  split; [by apply Inv_put_module | by apply target_put_module].
Qed.

Lemma set_dependencies_spec h it deps :
  Inv h → target h it →
  ∃ h', set_dependencies it deps h = Some (Ok tt, h') ∧ Inv h' ∧ target h' it.
Proof.
  intros HI Ht. pose proof Ht as (cur & m & Hcur & Hin & Hit).
  unfold set_dependencies, st_bind. rewrite get_module_eq, Hit.
  eexists. split; [done|].
  split; [by apply Inv_put_module | by apply target_put_module].
Qed.

(** [find_module] on the left document: it returns a module of the
    list, after appending a new one when none has the id. *)
Lemma find_module_spec h module_id :
  Inv h →
  ∃ r h', find_module lhs module_id h = Some (r, h') ∧ Inv h'
    ∧ ∀ it, r = Ok it → target h' it.
Proof.
  intros HI. pose proof (Inv_lhs h HI) as Hl.
  pose proof HI as (I1 & I2 & (new & Hcur & Hnew) & I5).
  unfold find_module.
  rewrite (st_bind_Some _ _ h (Ok ld) h) by (by rewrite get_doc_eq, Hl).
  rewrite (st_bind_Some _ _ h (Ok (litems ++ new)) h)
    by (by rewrite get_list_eq, Hcur).
  destruct (find_loop_spec (litems ++ new) module_id h) as (r & Hr & Hfound).
  rewrite (st_bind_Some _ _ h r h) by done.
  destruct r as [[it|]|e].
  - exists (Ok it), h. split; [done|]. split; [done|].
    intros it' [= <-]. destruct (Hfound it eq_refl) as [Hin [m Hm]].
    by exists (litems ++ new), m.
  - set (n := fresh (dom h)).
    assert (Hn : h !! n = None).
    { apply not_elem_of_dom. apply is_fresh. }
    assert (Hn0 : h0 !! n = None).
    { destruct (h0 !! n) eqn:Hn0; [|done].
      destruct (I5 n) as [o' Ho']; [by eexists | congruence]. }
    assert (HnL : n ≠ do_modules ld) by (intros Heq; congruence).
    assert (Hnl : n ≠ lhs) by (intros Heq; congruence).
    set (new_module := OModule (mkModule module_id [] [])).
    set (h1 := <[n := new_module]> h).
    set (h2 := <[do_modules ld := OList ((litems ++ new) ++ [n])]> h1).
    exists (Ok n), h2.
    split.
    { rewrite (st_bind_Some _ _ h (Ok n) h1) by done.
      rewrite (st_bind_Some _ _ h1 (Ok ld) h1).
      2:{ rewrite get_doc_eq. unfold h1. by rewrite lookup_insert_ne, Hl. }
      rewrite (st_bind_Some _ _ h1 (Ok (litems ++ new)) h1).
      2:{ rewrite get_list_eq. unfold h1. by rewrite lookup_insert_ne, Hcur. }
      done. }
    split.
    + split; [|split; [|split]].
      * intros l o Hlo HlL Hnm. unfold h2, h1.
        rewrite lookup_insert_ne by done.
        rewrite lookup_insert_ne by (intros <-; congruence). by apply I1.
      * intros l m Hlm Hnin. unfold h2, h1.
        rewrite lookup_insert_ne by (intros <-; congruence).
        rewrite lookup_insert_ne by (intros <-; congruence). by apply I2.
      * exists (new ++ [n]). unfold h2. rewrite lookup_insert_eq.
        rewrite app_assoc. split; [done|].
        intros k [Hk|Hk%list_elem_of_singleton]%elem_of_app; [by apply Hnew | by subst].
      * intros l Hlo. unfold h2, h1.
        destruct (decide (l = do_modules ld)) as [->|];
          [rewrite lookup_insert_eq; by eexists|].
        rewrite lookup_insert_ne by done.
        destruct (decide (l = n)) as [->|];
          [rewrite lookup_insert_eq; by eexists|].
        rewrite lookup_insert_ne by done. by apply I5.
    + intros it [= <-]. exists ((litems ++ new) ++ [n]), (mkModule module_id [] []).
      unfold h2, h1. rewrite lookup_insert_eq.
      split; [done|]. split; [apply elem_of_app; right; left|].
      rewrite lookup_insert_ne by done. by rewrite lookup_insert_eq.
  - exists (Raise e), h. split; [done|]. split; [done|]. by intros it [=].
Qed.

Lemma merge_body_spec h rhs_module :
  Inv h →
  ∃ r h', merge_body lhs rhs_module h = Some (r, h') ∧ Inv h'.
Proof.
  intros HI. unfold merge_body, st_bind at 1. rewrite get_module_eq.
  destruct (h !! rhs_module) as [[| |l|rm]|]; try by eauto.
  destruct (find_module_spec h (mod_id rm) HI) as (r1 & h1 & Hfind & HI1 & Ht).
  rewrite (st_bind_Some _ _ h r1 h1) by done.
  destruct r1 as [it|e]; [|by eauto]. specialize (Ht it eq_refl).
  destruct (merge_artifacts_read it rhs_module "artifacts" "name" h1)
    as (r2 & Hr2).
  rewrite (st_bind_Some _ _ h1 r2 h1) by done.
  destruct r2 as [arts|e]; [|by eauto].
  destruct (set_artifacts_spec h1 it arts HI1 Ht) as (h2 & Hset & HI2 & Ht2).
  rewrite (st_bind_Some _ _ h1 (Ok tt) h2) by done.
  destruct (merge_artifacts_read it rhs_module "dependencies" "id" h2)
    as (r3 & Hr3).
  rewrite (st_bind_Some _ _ h2 r3 h2) by done.
  destruct r3 as [deps|e]; [|by eauto].
  destruct (set_dependencies_spec h2 it deps HI2 Ht2) as (h3 & Hset3 & HI3 & _).
  by eauto.
Qed.

Lemma merge_loop_eq bound rhs_modules i h :
  merge_loop bound lhs rhs_modules i h =
    match get_list rhs_modules h with
    | Some (Ok items, h) =>
        match items !! i with
        | None => Some (Ok tt, h)
        | Some rhs_module =>
            match bound with
            | 0 => None
            | S bound' =>
                st_bind (merge_body lhs rhs_module)
                  (λ _, merge_loop bound' lhs rhs_modules (S i)) h
            end
        end
    | Some (Raise e, h) => Some (Raise e, h)
    | None => None
    end.
Proof. by destruct bound. Qed.

(** The loop over a list that is not the one of the left document:
    the list stays as it was, so the loop ends within its length. *)
Lemma merge_loop_frame rhs_modules ritems bound i h :
  h0 !! rhs_modules = Some (OList ritems) →
  rhs_modules ≠ do_modules ld →
  Inv h → (length ritems ≤ i + bound)%nat →
  ∃ r h', merge_loop bound lhs rhs_modules i h = Some (r, h') ∧ Inv h'.
Proof.
  intros Hr Hne. revert i h. induction bound as [|bound IH]; intros i h HI Hlen.
  - rewrite merge_loop_eq, get_list_eq.
    rewrite (proj1 HI _ _ Hr Hne) by done.
    destruct (ritems !! i) eqn:Hi; [|by eauto].
    apply lookup_lt_Some in Hi. lia.
  - rewrite merge_loop_eq, get_list_eq.
    rewrite (proj1 HI _ _ Hr Hne) by done.
    destruct (ritems !! i) as [rhs_module|] eqn:Hi; [|by eauto].
    destruct (merge_body_spec h rhs_module HI) as (r1 & h1 & Hbody & HI1).
    rewrite (st_bind_Some _ _ h r1 h1) by done.
    destruct r1 as [[]|e]; [|by eauto].
    apply IH; [done | lia].
Qed.
End frame.

(** *** The merge on the heap and the merge on values

    On documents that share nothing, and whose module list holds no object
    twice, the merge on the heap does to the left document what
    [merge_buildinfo] on values computes. *)

Lemma find_loop_refine h items ms module_id :
  rep h items ms →
  match list_find (λ it, String.eqb (mod_id it) module_id = true) ms with
  | Some (i, _) =>
      ∃ it, items !! i = Some it
        ∧ find_loop items module_id h = Some (Ok (Some it), h)
  | None => find_loop items module_id h = Some (Ok None, h)
  end.
Proof.
  induction 1 as [|it m items ms Hit Hrep IH]; simpl; [done|].
  unfold st_bind. rewrite get_module_eq, Hit.
  destruct (decide (String.eqb (mod_id m) module_id = true)) as [Heq|Hne].
  - rewrite Heq. by exists it.
  - apply not_true_is_false in Hne. rewrite Hne.
    destruct (list_find _ ms) as [[i m']|]; simpl; [|done].
    destruct IH as (it' & Hi & Hrun). by exists it'.
Qed.

Lemma rep_insert h items ms i it m' :
  rep h items ms → NoDup items → items !! i = Some it →
  rep (<[it := OModule m']> h) items (<[i := m']> ms).
Proof.
  intros Hrep Hnd Hi. apply Forall2_same_length_lookup_2.
  { rewrite length_insert. by eapply Forall2_length. }
  intros j x y Hx Hy. destruct (decide (j = i)) as [->|Hne].
  - simplify_eq. rewrite list_lookup_insert_eq in Hy.
    + simplify_eq. by rewrite lookup_insert_eq.
    + rewrite <- (Forall2_length _ _ _ Hrep). by eapply lookup_lt_Some.
  - rewrite list_lookup_insert_ne in Hy by done.
    rewrite lookup_insert_ne.
    + eapply Forall2_lookup_lr in Hrep; [exact Hrep | exact Hx | exact Hy].
    + intros <-. apply Hne. by eapply NoDup_lookup.
Qed.

Lemma rep_frame h h' items ms :
  rep h items ms → (∀ l, l ∈ items → h' !! l = h !! l) → rep h' items ms.
Proof.
  intros Hrep Hsame. apply Forall2_same_length_lookup_2.
  { by eapply Forall2_length. }
  intros j x y Hx Hy. rewrite Hsame by (by eapply list_elem_of_lookup_2).
  eapply Forall2_lookup_lr in Hrep; [exact Hrep | exact Hx | exact Hy].
Qed.

Lemma merge_module_eq rhs_module modules :
  merge_module rhs_module modules =
    merge_into rhs_module (pure_find_module modules (mod_id rhs_module)).1
      (pure_find_module modules (mod_id rhs_module)).2.
Proof.
  unfold merge_module. by destruct (pure_find_module _ _).
Qed.

Lemma merge_body_eq lhs rhs_module :
  merge_body lhs rhs_module =
    st_bind (get_module rhs_module "id") (λ rm,
      st_bind (find_module lhs (mod_id rm)) (λ lhs_module,
        assign_merged lhs_module rhs_module)).
Proof. reflexivity. Qed.

Lemma merge_artifacts_eq h lhs_module rhs_module lm rm key cmp_key :
  h !! lhs_module = Some (OModule lm) → h !! rhs_module = Some (OModule rm) →
  merge_artifacts lhs_module rhs_module key cmp_key h
    = Some (pure_merge_artifacts lm rm key cmp_key, h).
Proof.
  intros Hl Hr. unfold merge_artifacts.
  rewrite (st_bind_Some _ _ h (Ok lm) h) by (by rewrite get_module_eq, Hl).
  rewrite (st_bind_Some _ _ h (Ok rm) h) by (by rewrite get_module_eq, Hr).
  done.
Qed.

Lemma assign_merged_refine h items ms i it rl rm :
  rep h items ms → NoDup items → items !! i = Some it →
  h !! rl = Some (OModule rm) → rl ∉ items →
  ∃ r h', assign_merged it rl h = Some (r, h')
    ∧ (∀ l, l ≠ it → h' !! l = h !! l)
    ∧ match merge_into rm i ms with
      | Ok ms' => r = Ok tt ∧ rep h' items ms'
      | Raise e => r = Raise e
      end.
Proof.
  intros Hrep Hnd Hi Hrl Hnin.
  destruct (Forall2_lookup_l _ _ _ _ _ Hrep Hi) as (lm & Hlm & Hit).
  assert (Hne : rl ≠ it).
  { intros ->. apply Hnin. by eapply list_elem_of_lookup_2. }
  unfold assign_merged, merge_into. rewrite Hlm.
  rewrite (st_bind_Some _ _ h _ h (merge_artifacts_eq h it rl lm rm _ _ Hit Hrl)).
  destruct (pure_merge_artifacts lm rm "artifacts" "name") as [arts|e]; simpl.
  2:{ exists (Raise e), h. done. }
  set (lm1 := mkModule (mod_id lm) arts (mod_dependencies lm)).
  set (h1 := <[it := OModule lm1]> h).
  rewrite (st_bind_Some _ _ h (Ok tt) h1).
  2:{ unfold set_artifacts.
      by rewrite (st_bind_Some _ _ h (Ok lm) h) by (by rewrite get_module_eq, Hit). }
  assert (Hit1 : h1 !! it = Some (OModule lm1)) by apply lookup_insert_eq.
  assert (Hrl1 : h1 !! rl = Some (OModule rm)).
  { unfold h1. by rewrite lookup_insert_ne. }
  rewrite (st_bind_Some _ _ h1 _ h1 (merge_artifacts_eq h1 it rl lm1 rm _ _ Hit1 Hrl1)).
  destruct (pure_merge_artifacts lm1 rm "dependencies" "id") as [deps|e]; simpl.
  2:{ exists (Raise e), h1. split; [done|]. split; [|done].
      intros l Hl. unfold h1. by rewrite lookup_insert_ne. }
  set (lm2 := mkModule (mod_id lm1) (mod_artifacts lm1) deps).
  exists (Ok tt), (<[it := OModule lm2]> h1).
  split.
  { unfold set_dependencies.
    by rewrite (st_bind_Some _ _ h1 (Ok lm1) h1) by (by rewrite get_module_eq, Hit1). }
  split.
  { intros l Hl. unfold h1. by rewrite !lookup_insert_ne. }
  split; [done|]. unfold h1. rewrite insert_insert_eq. by apply rep_insert.
Qed.

Lemma read_modules_rep h items ms :
  rep h items ms → read_modules h items = Some ms.
Proof.
  intros Hrep. apply mapM_Some_2. eapply Forall2_impl; [exact Hrep|].
  intros l m Hl. simpl in Hl. by rewrite Hl.
Qed.

Lemma find_module_refine h lhs ld items ms module_id :
  h !! lhs = Some (ODoc ld) → h !! do_modules ld = Some (OList items) →
  NoDup items → rep h items ms →
  ∃ it h' items',
    find_module lhs module_id h = Some (Ok it, h')
    ∧ h' !! do_modules ld = Some (OList items')
    ∧ NoDup items'
    ∧ rep h' items' (pure_find_module ms module_id).2
    ∧ items' !! (pure_find_module ms module_id).1 = Some it
    ∧ (∀ l, is_Some (h !! l) → l ≠ do_modules ld → h' !! l = h !! l)
    ∧ (∀ l, l ∈ items' → l ∈ items ∨ h !! l = None).
Proof.
  intros Hl Hcur Hnd Hrep. pose proof (find_loop_refine h items ms module_id Hrep) as Hfind.
  unfold find_module, pure_find_module.
  rewrite (st_bind_Some _ _ h (Ok ld) h) by (by rewrite get_doc_eq, Hl).
  rewrite (st_bind_Some _ _ h (Ok items) h) by (by rewrite get_list_eq, Hcur).
  destruct (list_find _ ms) as [[i m]|].
  - destruct Hfind as (it & Hi & Hrun).
    rewrite (st_bind_Some _ _ h (Ok (Some it)) h) by done.
    exists it, h, items. split; [done|]. repeat split; auto.
  - rewrite (st_bind_Some _ _ h (Ok None) h) by done.
    set (n := fresh (dom h)).
    assert (Hn : h !! n = None) by (apply not_elem_of_dom, is_fresh).
    assert (HnL : n ≠ do_modules ld) by (intros Heq; congruence).
    assert (Hnl : n ≠ lhs) by (intros Heq; congruence).
    assert (Hitems : ∀ l, l ∈ items → ∃ m, h !! l = Some (OModule m)).
    { intros l [j Hj]%list_elem_of_lookup.
      destruct (Forall2_lookup_l _ _ _ _ _ Hrep Hj) as (m & _ & Hm). by exists m. }
    set (new_module := mkModule module_id [] []).
    set (h1 := <[n := OModule new_module]> h).
    set (h2 := <[do_modules ld := OList (items ++ [n])]> h1).
    exists n, h2, (items ++ [n]). split.
    { rewrite (st_bind_Some _ _ h (Ok n) h1) by done.
      rewrite (st_bind_Some _ _ h1 (Ok ld) h1).
      2:{ rewrite get_doc_eq. unfold h1. by rewrite lookup_insert_ne, Hl. }
      rewrite (st_bind_Some _ _ h1 (Ok items) h1).
      2:{ rewrite get_list_eq. unfold h1. by rewrite lookup_insert_ne, Hcur. }
      done. }
    split; [apply lookup_insert_eq|].
    split.
    { apply NoDup_app. split; [done|]. split; [|apply NoDup_singleton].
      intros l Hin ->%list_elem_of_singleton.
      destruct (Hitems _ Hin) as [m Hm]. congruence. }
    split.
    { simpl. apply Forall2_app.
      - apply (rep_frame h); [done|]. intros l Hin.
        destruct (Hitems _ Hin) as [m Hm]. unfold h2, h1.
        rewrite lookup_insert_ne by (intros <-; congruence).
        rewrite lookup_insert_ne by (intros <-; congruence). done.
      - constructor; [|constructor]. unfold h2, h1.
        rewrite lookup_insert_ne by done. apply lookup_insert_eq. }
    split.
    { simpl. rewrite <- (Forall2_length _ _ _ Hrep). by apply list_lookup_middle. }
    split.
    { intros l [o Ho] HlL. unfold h2, h1. rewrite lookup_insert_ne by done.
      rewrite lookup_insert_ne by (intros <-; congruence). done. }
    intros l [Hin| ->%list_elem_of_singleton]%elem_of_app; [by left | by right].
Qed.

Section refine.
Variables (h0 : heap) (lhs : loc) (ld : DocObj) (litems : list loc).
Variables (rhs_modules : loc) (ritems : list loc) (rms : list BuildModule).
Hypothesis Hlhs : h0 !! lhs = Some (ODoc ld).
Hypothesis Hlist : h0 !! do_modules ld = Some (OList litems).
Hypothesis Hrlist : h0 !! rhs_modules = Some (OList ritems).
Hypothesis Hrne : rhs_modules ≠ do_modules ld.
Hypothesis Hrrep : rep h0 ritems rms.
Hypothesis Hsep : ∀ l, l ∈ ritems → l ∉ litems.

Local Abbreviation Rel := (InPlace.Rel h0 ld litems).

Lemma merge_body_refine h ms rl rm :
  Rel h ms → rl ∈ ritems → h0 !! rl = Some (OModule rm) →
  ∃ r h', merge_body lhs rl h = Some (r, h')
    ∧ Inv h0 ld litems h'
    ∧ match merge_module rm ms with
      | Ok ms' => r = Ok tt ∧ Rel h' ms'
      | Raise e => r = Raise e
      end.
Proof.
  intros [HI (items & Hcur & Hnd & Hrep)] Hrl Hrm.
  destruct (merge_body_spec h0 lhs ld litems Hlhs Hlist h rl HI)
    as (r & h' & Hrun & HI').
  exists r, h'. split; [done|]. split; [done|].
  pose proof HI as (I1 & I2 & (new & Hcur' & Hnew) & I5).
  assert (Hrlh : h !! rl = Some (OModule rm)) by (apply I2; auto).
  pose proof (Inv_lhs h0 lhs ld litems Hlhs Hlist h HI) as Hl.
  destruct (find_module_refine h lhs ld items ms (mod_id rm) Hl Hcur Hnd Hrep)
    as (it & h1 & items1 & Hfind & Hcur1 & Hnd1 & Hrep1 & Hit & Hframe & Hext).
  assert (HrlL : rl ≠ do_modules ld) by (intros ->; congruence).
  assert (Hrl1 : h1 !! rl = Some (OModule rm)).
  { rewrite Hframe; [done | by eexists | done]. }
  assert (Hnin1 : rl ∉ items1).
  { intros [Hin|Hnone]%Hext; [|congruence].
    rewrite Hcur in Hcur'. simplify_eq.
    apply elem_of_app in Hin as [Hin|Hin]; [by apply (Hsep rl)|].
    rewrite (Hnew _ Hin) in Hrm. done. }
  destruct (assign_merged_refine h1 items1 _ _ it rl rm Hrep1 Hnd1 Hit Hrl1 Hnin1)
    as (r2 & h2 & Hassign & Hframe2 & Hres).
  assert (Hrun2 : merge_body lhs rl h = Some (r2, h2)).
  { rewrite merge_body_eq.
    rewrite (st_bind_Some _ _ h (Ok rm) h) by (by rewrite get_module_eq, Hrlh).
    by rewrite (st_bind_Some _ _ h (Ok it) h1) by done. }
  rewrite Hrun in Hrun2. simplify_eq.
  rewrite merge_module_eq.
  destruct (merge_into rm _ _) as [ms'|e]; [|done].
  destruct Hres as [-> Hrep2]. split; [done|]. split; [done|].
  exists items1. split; [|done].
  rewrite Hframe2; [done|]. intros <-.
  destruct (Forall2_lookup_l _ _ _ _ _ Hrep1 Hit) as (m & _ & Hm). congruence.
Qed.

Lemma merge_loop_refine bound i h ms :
  Rel h ms → (length ritems ≤ i + bound)%nat →
  ∃ r h', merge_loop bound lhs rhs_modules i h = Some (r, h')
    ∧ Inv h0 ld litems h'
    ∧ match for_each (drop i rms) ms merge_module with
      | Ok ms' => r = Ok tt ∧ Rel h' ms'
      | Raise e => r = Raise e
      end.
Proof.
  revert i h ms. induction bound as [|bound IH]; intros i h ms HR Hlen.
  - rewrite merge_loop_eq, get_list_eq.
    rewrite (proj1 (proj1 HR) _ _ Hrlist Hrne) by done.
    rewrite lookup_ge_None_2 by lia. exists (Ok tt), h.
    split; [done|]. split; [apply HR|].
    rewrite drop_ge; [done|]. rewrite <- (Forall2_length _ _ _ Hrrep). lia.
  - rewrite merge_loop_eq, get_list_eq.
    rewrite (proj1 (proj1 HR) _ _ Hrlist Hrne) by done.
    destruct (ritems !! i) as [rl|] eqn:Hi.
    + destruct (Forall2_lookup_l _ _ _ _ _ Hrrep Hi) as (rm & Hrm & Hrl).
      rewrite (drop_S _ _ _ Hrm). simpl.
      destruct (merge_body_refine h ms rl rm HR) as (r1 & h1 & Hbody & HI1 & Hres);
        [by eapply list_elem_of_lookup_2 | done |].
      rewrite (st_bind_Some _ _ h r1 h1) by done.
      destruct (merge_module rm ms) as [ms1|e]; simpl.
      * destruct Hres as [-> HR1]. apply IH; [done | lia].
      * subst r1. by exists (Raise e), h1.
    + exists (Ok tt), h. split; [done|]. split; [apply HR|].
      apply lookup_ge_None in Hi.
      rewrite drop_ge; [done|]. rewrite <- (Forall2_length _ _ _ Hrrep). lia.
Qed.
End refine.

(** The merge on the heap refines the merge on values: for two documents
    that share nothing, the left one holding no module twice, it raises
    what [merge_buildinfo] on their values raises, or returns the left
    document, which then holds the value [merge_buildinfo] returns. *)
Lemma merge_refines h lhs rhs ld rd litems ritems lms rms :
  h !! lhs = Some (ODoc ld) → h !! rhs = Some (ODoc rd) →
  h !! do_modules ld = Some (OList litems) →
  h !! do_modules rd = Some (OList ritems) →
  do_modules rd ≠ do_modules ld → (∀ l, l ∈ ritems → l ∉ litems) →
  NoDup litems → rep h litems lms → rep h ritems rms →
  ∃ r h', merge_buildinfo lhs rhs h = Some (r, h')
    ∧ match pure_merge_buildinfo (Some (doc_value ld lms))
              (Some (doc_value rd rms)) with
      | Ok d => r = Ok lhs ∧ read_doc h' lhs = Some d
      | Raise e => r = Raise e
      end.
Proof.
  intros Hlhs Hrhs Hll Hrl Hne Hsep Hnd Hlrep Hrrep.
  unfold merge_buildinfo, pure_merge_buildinfo.
  rewrite (st_bind_Some _ _ h (Ok true) h) by (unfold truthy; by rewrite Hlhs).
  rewrite (st_bind_Some _ _ h (Ok true) h) by (unfold truthy; by rewrite Hrhs).
  simpl.
  rewrite (st_bind_Some _ _ h (Ok ld) h) by (by rewrite get_doc_eq, Hlhs).
  rewrite (st_bind_Some _ _ h (Ok rd) h) by (by rewrite get_doc_eq, Hrhs).
  unfold st_bind at 1, st_lift at 1.
  destruct (py_assert (do_version ld =? do_version rd)%string None) as [[]|e];
    simpl; [|by eauto].
  unfold st_bind at 1, st_lift at 1.
  destruct (py_assert (do_name ld =? do_name rd)%string None) as [[]|e];
    simpl; [|by eauto].
  unfold st_bind at 1, st_lift at 1.
  destruct (py_assert (do_number ld =? do_number rd)%string None) as [[]|e];
    simpl; [|by eauto].
  rewrite (st_bind_Some _ _ h (Ok ritems) h) by (by rewrite get_list_eq, Hrl).
  assert (HR : Rel h ld litems h lms).
  { split; [by apply Inv_init|]. by exists litems. }
  destruct (λ Hlen, merge_loop_refine h lhs ld litems (do_modules rd) ritems rms
              Hlhs Hll Hrl Hne Hrrep Hsep (length ritems) 0 h lms HR Hlen)
    as (r & h' & Hloop & HI & Hres); [lia|].
  rewrite (st_bind_Some _ _ h r h') by done. rewrite drop_0 in Hres.
  destruct (for_each rms lms merge_module) as [ms'|e]; simpl.
  - destruct Hres as [-> [_ (items' & Hcur & _ & Hrep')]].
    exists (Ok lhs), h'. split; [done|]. split; [done|].
    unfold read_doc. rewrite (Inv_lhs h lhs ld litems Hlhs Hll h' HI), Hcur.
    by rewrite (read_modules_rep _ _ _ Hrep').
  - subst r. by exists (Raise e), h'.
Qed.

(** The call [merge_buildinfo(d, d)] on one well-formed document, whose
    list holds no module twice: every module finds itself, every
    assignment stores what was there, and the heap is left as it was. *)
Lemma merge_body_self h lhs ld items ms i rl rm :
  h !! lhs = Some (ODoc ld) → h !! do_modules ld = Some (OList items) →
  rep h items ms → NoDup (mod_id <$> ms) → Forall module_wf ms →
  items !! i = Some rl → ms !! i = Some rm →
  merge_body lhs rl h = Some (Ok tt, h).
Proof.
  intros Hl Hcur Hrep Hnd Hwf Hi Hrm.
  assert (Hrl : h !! rl = Some (OModule rm)).
  { eapply Forall2_lookup_lr in Hrep; [exact Hrep | exact Hi | exact Hrm]. }
  assert (Hwfm : module_wf rm).
  { apply (proj1 (Forall_forall _ _) Hwf). by eapply list_elem_of_lookup_2. }
  rewrite merge_body_eq.
  rewrite (st_bind_Some _ _ h (Ok rm) h) by (by rewrite get_module_eq, Hrl).
  rewrite (st_bind_Some _ _ h (Ok rl) h).
  2:{ unfold find_module.
      rewrite (st_bind_Some _ _ h (Ok ld) h) by (by rewrite get_doc_eq, Hl).
      rewrite (st_bind_Some _ _ h (Ok items) h) by (by rewrite get_list_eq, Hcur).
      pose proof (find_loop_refine h items ms (mod_id rm) Hrep) as Hfind.
      rewrite (list_find_unique ms i rm Hnd Hrm) in Hfind.
      destruct Hfind as (it & Hit & Hrun).
      assert (it = rl) as -> by congruence.
      by rewrite (st_bind_Some _ _ h (Ok (Some rl)) h). }
  destruct Hwfm as [Hwa Hwd]. unfold assign_merged.
  rewrite (st_bind_Some _ _ h _ h (merge_artifacts_eq h rl rl rm rm _ _ Hrl Hrl)).
  rewrite (merge_artifacts_spec rm rm "artifacts" "name"
             (mod_artifacts rm) (mod_artifacts rm)) by done.
  rewrite merged_items_self.
  assert (Hset : set_artifacts rl (mod_artifacts rm) h = Some (Ok tt, h)).
  { unfold set_artifacts.
    rewrite (st_bind_Some _ _ h (Ok rm) h) by (by rewrite get_module_eq, Hrl).
    unfold st_put. rewrite insert_id; [done|]. by destruct rm. }
  rewrite (st_bind_Some _ _ h (Ok tt) h) by done.
  rewrite (st_bind_Some _ _ h _ h (merge_artifacts_eq h rl rl rm rm _ _ Hrl Hrl)).
  rewrite (merge_artifacts_spec rm rm "dependencies" "id"
             (mod_dependencies rm) (mod_dependencies rm)) by done.
  rewrite merged_items_self.
  unfold set_dependencies.
  rewrite (st_bind_Some _ _ h (Ok rm) h) by (by rewrite get_module_eq, Hrl).
  unfold st_put. rewrite insert_id; [done|]. by destruct rm.
Qed.

Lemma merge_loop_self_in_place h lhs ld items ms bound i :
  h !! lhs = Some (ODoc ld) → h !! do_modules ld = Some (OList items) →
  rep h items ms → NoDup (mod_id <$> ms) → Forall module_wf ms →
  (length items ≤ i + bound)%nat →
  merge_loop bound lhs (do_modules ld) i h = Some (Ok tt, h).
Proof.
  intros Hl Hcur Hrep Hnd Hwf. revert i.
  induction bound as [|bound IH]; intros i Hlen.
  - rewrite merge_loop_eq, get_list_eq, Hcur.
    by rewrite lookup_ge_None_2 by lia.
  - rewrite merge_loop_eq, get_list_eq, Hcur.
    destruct (items !! i) as [rl|] eqn:Hi; [|done].
    destruct (Forall2_lookup_l _ _ _ _ _ Hrep Hi) as (rm & Hrm & _).
    rewrite (st_bind_Some _ _ h (Ok tt) h)
      by (by eapply merge_body_self).
    apply IH. lia.
Qed.

Lemma merge_self_in_place h l ld items ms :
  h !! l = Some (ODoc ld) → h !! do_modules ld = Some (OList items) →
  rep h items ms → NoDup (mod_id <$> ms) → Forall module_wf ms →
  merge_buildinfo l l h = Some (Ok l, h).
Proof.
  intros Hl Hcur Hrep Hnd Hwf. unfold merge_buildinfo.
  rewrite (st_bind_Some _ _ h (Ok true) h) by (unfold truthy; by rewrite Hl).
  rewrite (st_bind_Some _ _ h (Ok true) h) by (unfold truthy; by rewrite Hl).
  simpl.
  rewrite (st_bind_Some _ _ h (Ok ld) h) by (by rewrite get_doc_eq, Hl).
  rewrite (st_bind_Some _ _ h (Ok ld) h) by (by rewrite get_doc_eq, Hl).
  rewrite !String.eqb_refl. unfold st_bind at 1, st_lift at 1. simpl.
  unfold st_bind at 1, st_lift at 1. simpl.
  unfold st_bind at 1, st_lift at 1. simpl.
  rewrite (st_bind_Some _ _ h (Ok items) h) by (by rewrite get_list_eq, Hcur).
  rewrite (st_bind_Some _ _ h (Ok tt) h); [done|].
  eapply merge_loop_self_in_place; eauto.
Qed.

Lemma read_modules_ext h h' items :
  (∀ l, l ∈ items → h' !! l = h !! l) →
  read_modules h' items = read_modules h items.
Proof.
  unfold read_modules. induction items as [|x items IH]; intros Hext; [done|].
  simpl. rewrite (Hext x) by left.
  rewrite IH; [done|]. intros l Hl. apply Hext. by right.
Qed.

(** The frame of the merge. For two documents that share no module
    list and no module, [merge_buildinfo] always ends; the left dict
    still points to the same list object, which has only grown by
    modules created during the merge, and every object of the right
    document is as it was. *)
Lemma merge_frame (h : heap) (lhs rhs : loc) (ld rd : DocObj)
    (litems ritems : list loc) :
  h !! lhs = Some (ODoc ld) → h !! rhs = Some (ODoc rd) →
  h !! do_modules ld = Some (OList litems) →
  h !! do_modules rd = Some (OList ritems) →
  Forall (λ l, l ≠ do_modules ld ∧ (l ∉ litems) ∧ is_Some (h !! l))
    (footprint h rhs) →
  ∃ r h', merge_buildinfo lhs rhs h = Some (r, h')
    ∧ (∀ v, r = Ok v → v = lhs)
    ∧ h' !! lhs = Some (ODoc ld)
    ∧ (∃ new, h' !! do_modules ld = Some (OList (litems ++ new))
              ∧ ∀ n, n ∈ new → h !! n = None)
    ∧ (∀ l, l ∈ footprint h rhs → h' !! l = h !! l)
    ∧ read_doc h' rhs = read_doc h rhs.
Proof.
  intros Hlhs Hrhs Hll Hrl Hsep.
  assert (Hgoal : ∀ (r : Result loc) h', Inv h ld litems h' →
    (∀ v, r = Ok v → v = lhs) →
    (∀ v, r = Ok v → v = lhs)
    ∧ h' !! lhs = Some (ODoc ld)
    ∧ (∃ new, h' !! do_modules ld = Some (OList (litems ++ new))
              ∧ ∀ n, n ∈ new → h !! n = None)
    ∧ (∀ l, l ∈ footprint h rhs → h' !! l = h !! l)
    ∧ read_doc h' rhs = read_doc h rhs).
  { intros r h' HI Hret. split; [done|].
    split; [by eapply Inv_lhs|].
    pose proof HI as (I1 & I2 & I3 & _). split; [done|].
    assert (Hframe : ∀ l, l ∈ footprint h rhs → h' !! l = h !! l).
    { intros l Hl.
      destruct (proj1 (Forall_forall _ _) Hsep l Hl) as (HlL & Hnin & [o Ho]).
      rewrite Ho. destruct o as [|d|items|m]; try (by apply I1). by apply I2. }
    split; [done|].
    assert (Hfp : footprint h rhs = rhs :: do_modules rd :: ritems).
    { unfold footprint. by rewrite Hrhs, Hrl. }
    rewrite Hfp in Hframe. unfold read_doc.
    rewrite (Hframe rhs) by left. rewrite Hrhs.
    rewrite (Hframe (do_modules rd)) by (right; left). rewrite Hrl.
    rewrite (read_modules_ext h h' ritems); [done|].
    intros l Hl. apply Hframe. right. by right. }
  assert (HneL : do_modules rd ≠ do_modules ld).
  { apply (proj1 (Forall_forall _ _) Hsep (do_modules rd)).
    unfold footprint. rewrite Hrhs, Hrl. right. left. }
  unfold merge_buildinfo.
  rewrite (st_bind_Some _ _ h (Ok true) h) by (unfold truthy; by rewrite Hlhs).
  rewrite (st_bind_Some _ _ h (Ok true) h) by (unfold truthy; by rewrite Hrhs).
  simpl.
  rewrite (st_bind_Some _ _ h (Ok ld) h) by (by rewrite get_doc_eq, Hlhs).
  rewrite (st_bind_Some _ _ h (Ok rd) h) by (by rewrite get_doc_eq, Hrhs).
  pose proof (Inv_init h ld litems Hll) as HI0.
  unfold st_bind at 1, st_lift at 1.
  destruct (py_assert (do_version ld =? do_version rd)%string None) as [[]|e];
    [|exists (Raise e), h; split; [done|]; by apply Hgoal].
  unfold st_bind at 1, st_lift at 1.
  destruct (py_assert (do_name ld =? do_name rd)%string None) as [[]|e];
    [|exists (Raise e), h; split; [done|]; by apply Hgoal].
  unfold st_bind at 1, st_lift at 1.
  destruct (py_assert (do_number ld =? do_number rd)%string None) as [[]|e];
    [|exists (Raise e), h; split; [done|]; by apply Hgoal].
  rewrite (st_bind_Some _ _ h (Ok ritems) h) by (by rewrite get_list_eq, Hrl).
  destruct (λ Hlen, merge_loop_frame h lhs ld litems Hlhs Hll (do_modules rd)
              ritems (length ritems) 0 h Hrl HneL HI0 Hlen)
    as (r & h' & Hloop & HI); [lia|].
  rewrite (st_bind_Some _ _ h r h') by done.
  destruct r as [[]|e].
  - exists (Ok lhs), h'. split; [done|]. apply Hgoal; [done|]. by intros v [= <-].
  - exists (Raise e), h'. split; [done|]. by apply Hgoal.
Qed.

End InPlaceFacts.

(* ================================================================== *)
(** * Further properties of the code *)

(** ** [merge_artifacts] on any two collections *)

Lemma Artifact_getitem_Raise a k e :
  Artifact_getitem a k = Raise e → e = KeyError k ∧ key_of k a = None.
Proof.
  intros Hget. unfold key_of. rewrite Hget. split; [|done].
  revert Hget. unfold Artifact_getitem. repeat case_match; by intros [=].
Qed.

Lemma key_of_None_getitem a k :
  key_of k a = None → Artifact_getitem a k = Raise (KeyError k).
Proof.
  unfold key_of. destruct (Artifact_getitem a k) as [v|e] eqn:Hget; [done|].
  intros _. by destruct (Artifact_getitem_Raise _ _ _ Hget) as [-> _].
Qed.

Lemma dict_keys_setitem {V} k (v : V) d x :
  x ∈ dict_keys (dict_setitem k v d) ↔ x = k ∨ x ∈ dict_keys d.
Proof.
  unfold dict_keys. induction d as [|[k' v'] d IH]; simpl.
  - rewrite list_elem_of_singleton, elem_of_nil. tauto.
  - destruct (String.eqb_spec k' k) as [->|Hne]; simpl.
    + rewrite !elem_of_cons. tauto.
    + rewrite !elem_of_cons, IH. tauto.
Qed.

Lemma dict_keys_snoc {V} k (v : V) d x :
  x ∈ dict_keys (d ++ [(k, v)]) ↔ x ∈ dict_keys d ∨ x = k.
Proof.
  unfold dict_keys. rewrite fmap_app, elem_of_app, fmap_cons, fmap_nil.
  by rewrite list_elem_of_singleton.
Qed.

Lemma NoDup_keys_setitem {V} k (v : V) d :
  NoDup (dict_keys d) → NoDup (dict_keys (dict_setitem k v d)).
Proof.
  induction d as [|[k' v'] d IH].
  - intros _. apply NoDup_singleton.
  - intros Hnd. change (NoDup (k' :: dict_keys d)) in Hnd.
    apply NoDup_cons in Hnd as [Hk' Hnd]. simpl.
    destruct (String.eqb_spec k' k) as [->|Hne].
    + change (NoDup (k :: dict_keys d)). by apply NoDup_cons.
    + change (NoDup (k' :: dict_keys (dict_setitem k v d))).
      apply NoDup_cons. split; [|by apply IH].
      intros [->|Hin]%dict_keys_setitem; [done | by apply Hk'].
Qed.

Lemma dict_ok_setitem cmp_key src ret a k :
  dict_ok cmp_key src ret → a ∈ src → key_of cmp_key a = Some k →
  dict_ok cmp_key src (dict_setitem k a ret).
Proof.
  intros (Hkeyed & Hnd & Hsrc) Ha Hk. split; [|split].
  - apply keyed_setitem; [done | by apply key_of_Some].
  - by apply NoDup_keys_setitem.
  - intros b ([k' b'] & -> & Hin)%list_elem_of_fmap.
    apply dict_setitem_elem in Hin as [[= -> ->]|Hin]; [done|].
    apply Hsrc. apply list_elem_of_fmap. by exists (k', b').
Qed.

Lemma dict_ok_snoc cmp_key src ret a k :
  dict_ok cmp_key src ret → a ∈ src → key_of cmp_key a = Some k →
  k ∉ dict_keys ret → dict_ok cmp_key src (ret ++ [(k, a)]).
Proof.
  intros Hok Ha Hk Hnew. rewrite <- dict_setitem_fresh by done.
  by apply dict_ok_setitem.
Qed.

Lemma not_Forall_cons_head {A} (P : A → Prop) x l : ¬ P x → ¬ Forall P (x :: l).
Proof. intros Hx Hall. apply Hx. by apply Forall_cons in Hall as [? _]. Qed.

Lemma not_Forall_cons_tail {A} (P : A → Prop) x l :
  ¬ Forall P l → ¬ Forall P (x :: l).
Proof. intros Hl Hall. apply Hl. by apply Forall_cons in Hall as [_ ?]. Qed.

Lemma for_each_cons {A S} (x : A) xs (acc : S) body :
  for_each (x :: xs) acc body = body x acc ≫= λ acc', for_each xs acc' body.
Proof. reflexivity. Qed.

Lemma Result_bind_Ok {A B} (a : A) (f : A → Result B) : Ok a ≫= f = f a.
Proof. reflexivity. Qed.

Lemma Result_bind_Raise {A B} e (f : A → Result B) : Raise e ≫= f = Raise e.
Proof. reflexivity. Qed.

Lemma merge_step_missing cmp_key a ret :
  key_of cmp_key a = None → merge_step cmp_key a ret = Raise (KeyError cmp_key).
Proof.
  intros Hk. unfold merge_step. by rewrite (key_of_None_getitem _ _ Hk).
Qed.

(** The dictionary comprehension on any list: it fails on the first entry
    without the key, and otherwise holds one entry for every key. *)
Lemma key_by_loop_general cmp_key src items ret :
  dict_ok cmp_key src ret → items ⊆ src →
  match for_each items ret (λ it ret,
          k ← Artifact_getitem it cmp_key; Ok (dict_setitem k it ret)) with
  | Ok ret' =>
      dict_ok cmp_key src ret'
      ∧ Forall (λ a, is_Some (key_of cmp_key a)) items
      ∧ ∀ k, k ∈ dict_keys ret' ↔
             k ∈ dict_keys ret ∨ Some k ∈ key_of cmp_key <$> items
  | Raise e =>
      e = KeyError cmp_key
      ∧ ¬ Forall (λ a, is_Some (key_of cmp_key a)) items
  end.
Proof.
  revert ret. induction items as [|a items IH]; intros ret Hok Hsub.
  - split; [done|]. split; [constructor|]. intros k.
    rewrite fmap_nil, elem_of_nil. tauto.
  - rewrite for_each_cons.
    destruct (Artifact_getitem a cmp_key) as [k|e] eqn:Hget.
    + rewrite !Result_bind_Ok. apply key_of_Some in Hget.
      assert (Hok' : dict_ok cmp_key src (dict_setitem k a ret)).
      { apply dict_ok_setitem; [done | apply Hsub; left | done]. }
      assert (Hsub' : items ⊆ src) by (intros x Hx; apply Hsub; by right).
      specialize (IH _ Hok' Hsub').
      destruct (for_each items _ _) as [ret'|e].
      * destruct IH as (Hok'' & Hall & Hkeys). split; [done|].
        split; [constructor; [by rewrite Hget | done]|].
        intros k'. rewrite Hkeys, dict_keys_setitem, fmap_cons, elem_of_cons, Hget.
        split; [intros [[->| ?]| ?]; auto | intros [?|[[= ->]| ?]]; auto].
      * destruct IH as [-> Hnot]. split; [done|]. by apply not_Forall_cons_tail.
    + rewrite !Result_bind_Raise.
      destruct (Artifact_getitem_Raise _ _ _ Hget) as [-> Hnone].
      split; [done|]. apply not_Forall_cons_head. rewrite Hnone. by intros [? ?].
Qed.

(** The loop over the right-hand entries on any list: it fails on the
    first entry without the key, never changes an entry that is there, and
    otherwise adds the first entry of every new key. *)
Lemma merge_loop_general cmp_key src items ret :
  dict_ok cmp_key src ret → items ⊆ src →
  match for_each items ret (merge_step cmp_key) with
  | Ok ret' =>
      dict_ok cmp_key src ret'
      ∧ Forall (λ a, is_Some (key_of cmp_key a)) items
      ∧ (∀ k, k ∈ dict_keys ret' ↔
              k ∈ dict_keys ret ∨ Some k ∈ key_of cmp_key <$> items)
      ∧ (∀ kv, kv ∈ ret → kv ∈ ret')
  | Raise e =>
      e = KeyError cmp_key
      ∧ ¬ Forall (λ a, is_Some (key_of cmp_key a)) items
  end.
Proof.
  revert ret. induction items as [|a items IH]; intros ret Hok Hsub.
  - split; [done|]. split; [constructor|]. split; [|done]. intros k.
    rewrite fmap_nil, elem_of_nil. tauto.
  - rewrite for_each_cons.
    assert (Hsub' : items ⊆ src) by (intros x Hx; apply Hsub; by right).
    destruct (key_of cmp_key a) as [k|] eqn:Hk.
    + destruct (decide (k ∈ dict_keys ret)) as [Hin|Hnew].
      * rewrite (merge_step_present _ _ _ _ (proj1 Hok) Hk Hin), Result_bind_Ok.
        specialize (IH _ Hok Hsub').
        destruct (for_each items ret _) as [ret'|e].
        -- destruct IH as (Hok'' & Hall & Hkeys & Hkeep). split; [done|].
           split; [constructor; [by rewrite Hk | done]|]. split; [|done].
           intros k'. rewrite Hkeys, fmap_cons, elem_of_cons, Hk.
           split; [tauto | intros [?|[[= ->]| ?]]; auto].
        -- destruct IH as [-> Hnot]. split; [done|]. by apply not_Forall_cons_tail.
      * rewrite (merge_step_new _ _ _ _ Hk Hnew), Result_bind_Ok.
        assert (Hok' : dict_ok cmp_key src (ret ++ [(k, a)])).
        { apply dict_ok_snoc; [done | apply Hsub; left | done | done]. }
        specialize (IH _ Hok' Hsub').
        destruct (for_each items _ _) as [ret'|e].
        -- destruct IH as (Hok'' & Hall & Hkeys & Hkeep). split; [done|].
           split; [constructor; [by rewrite Hk | done]|]. split.
           ++ intros k'. rewrite Hkeys, dict_keys_snoc, fmap_cons, elem_of_cons, Hk.
              split; [intros [[?| ->]| ?]; auto | intros [?|[[= ->]| ?]]; auto].
           ++ intros kv Hkv. apply Hkeep. apply elem_of_app. by left.
        -- destruct IH as [-> Hnot]. split; [done|]. by apply not_Forall_cons_tail.
    + rewrite (merge_step_missing _ _ _ Hk), Result_bind_Raise.
      split; [done|]. apply not_Forall_cons_head. rewrite Hk. by intros [? ?].
Qed.

Lemma merge_artifacts_general lhs rhs key cmp_key l r :
  BuildModule_getlist lhs key = Ok l → BuildModule_getlist rhs key = Ok r →
  match merge_artifacts lhs rhs key cmp_key with
  | Ok res =>
      Forall (λ a, is_Some (key_of cmp_key a)) (l ++ r)
      ∧ well_keyed cmp_key res
      ∧ (∀ a, a ∈ res → a ∈ l ∨ a ∈ r)
      ∧ (∀ a, a ∈ l ++ r → key_of cmp_key a ∈ key_of cmp_key <$> res)
      ∧ (∀ a, a ∈ res → key_of cmp_key a ∈ key_of cmp_key <$> l → a ∈ l)
  | Raise e =>
      e = KeyError cmp_key
      ∧ ¬ Forall (λ a, is_Some (key_of cmp_key a)) (l ++ r)
  end.
Proof.
  intros Hl Hr. unfold merge_artifacts, key_by. rewrite Hl, Result_bind_Ok.
  assert (Hnil : dict_ok cmp_key l []).
  { split; [constructor|]. split; [constructor|]. intros a Ha. inversion Ha. }
  pose proof (key_by_loop_general cmp_key l l [] Hnil ltac:(done)) as Hby.
  unfold odict in *.
  destruct (for_each l [] _) as [ret0|e].
  2:{ rewrite Result_bind_Raise. destruct Hby as [-> Hnot]. split; [done|].
      rewrite Forall_app. tauto. }
  destruct Hby as (Hok0 & Hall0 & Hkeys0).
  rewrite Result_bind_Ok, Hr, Result_bind_Ok.
  assert (Hok0' : dict_ok cmp_key (l ++ r) ret0).
  { destruct Hok0 as (? & ? & Hsrc). split; [done|]. split; [done|].
    intros a Ha. apply elem_of_app. left. by apply Hsrc. }
  pose proof (merge_loop_general cmp_key (l ++ r) r ret0 Hok0') as Hloop.
  unfold odict in *.
  destruct (for_each r ret0 _) as [ret'|e].
  2:{ rewrite Result_bind_Raise. destruct Hloop as [-> Hnot].
      - intros a Ha. apply elem_of_app. by right.
      - split; [done|]. rewrite Forall_app. tauto. }
  rewrite Result_bind_Ok.
  destruct Hloop as ((Hkeyed & Hnd & Hsrc) & Hall & Hkeys & Hkeep).
  { intros a Ha. apply elem_of_app. by right. }
  pose proof (keyed_keys _ _ Hkeyed) as Hkv.
  assert (Hkeys' : ∀ k, Some k ∈ key_of cmp_key <$> dict_values ret' ↔
                        k ∈ dict_keys ret').
  { intros k. by rewrite <- keyed_key_elem. }
  split; [by apply Forall_app|]. split; [|split; [|split]].
  - split.
    + apply Forall_forall. intros a ([k a'] & -> & Hin)%list_elem_of_fmap.
      pose proof (proj1 (Forall_forall _ _) Hkeyed _ Hin) as Hget.
      apply key_of_Some in Hget. simpl in *. by rewrite Hget.
    + rewrite <- Hkv. apply NoDup_fmap_2; [|done]. by intros ?? [=].
  - intros a Ha. by apply elem_of_app, Hsrc.
  - intros a Ha.
    assert (Hsome : is_Some (key_of cmp_key a)).
    { apply elem_of_app in Ha as [Ha|Ha];
        [apply (proj1 (Forall_forall _ _) Hall0 _ Ha)
        |apply (proj1 (Forall_forall _ _) Hall _ Ha)]. }
    destruct Hsome as [k Hk]. rewrite Hk. apply Hkeys'. apply Hkeys.
    apply elem_of_app in Ha as [Ha|Ha].
    + left. apply Hkeys0. right. rewrite <- Hk. by apply list_elem_of_fmap_2.
    + right. rewrite <- Hk. by apply list_elem_of_fmap_2.
  - intros a ([k a'] & -> & Hin)%list_elem_of_fmap Hkl. simpl in *.
    pose proof (proj1 (Forall_forall _ _) Hkeyed _ Hin) as Hget.
    apply key_of_Some in Hget. simpl in Hget. rewrite Hget in Hkl.
    assert (Hk0 : k ∈ dict_keys ret0).
    { apply Hkeys0. by right. }
    apply list_elem_of_fmap in Hk0 as ([k0 a0] & Hk0 & Hin0). simpl in Hk0. subst k0.
    pose proof (Hkeep _ Hin0) as Hin0'.
    assert (a' = a0) as ->.
    { apply list_elem_of_lookup in Hin as [i Hi].
      apply list_elem_of_lookup in Hin0' as [j Hj].
      assert (i = j) as ->.
      { eapply NoDup_lookup; [exact Hnd | |];
          unfold dict_keys; rewrite list_lookup_fmap; [by rewrite Hi | by rewrite Hj]. }
      congruence. }
    destruct Hok0 as (_ & _ & Hsrc0). apply Hsrc0.
    apply list_elem_of_fmap. by exists (k, a0).
Qed.

(** X1. [merge_artifacts] returns exactly when every entry of the two
    collections has the key it compares by; otherwise it raises [KeyError]
    of that key, and it raises nothing else. *)
Theorem merge_artifacts_errors lhs rhs key cmp_key l r :
  BuildModule_getlist lhs key = Ok l → BuildModule_getlist rhs key = Ok r →
  ((∃ res, merge_artifacts lhs rhs key cmp_key = Ok res) ↔
     Forall (λ a, is_Some (key_of cmp_key a)) (l ++ r))
  ∧ ∀ e, merge_artifacts lhs rhs key cmp_key = Raise e → e = KeyError cmp_key.
Proof.
  intros Hl Hr. pose proof (merge_artifacts_general lhs rhs key cmp_key l r Hl Hr) as H.
  destruct (merge_artifacts lhs rhs key cmp_key) as [res|e].
  - split; [|by intros e [=]]. split; [by intros _; apply H | by eauto].
  - destruct H as [-> Hnot]. split; [|by intros e [= <-]].
    split; [by intros [res [=]] | done].
Qed.

Lemma merge_artifacts_errors_witness :
  (∃ res, merge_artifacts libfoo_recipe libfoo_recipe' "artifacts" "name" = Ok res)
  ∧ merge_artifacts libfoo_recipe libfoo_recipe' "artifacts" "id"
      = Raise (KeyError "id").
Proof.
  destruct (merge_artifacts_errors libfoo_recipe libfoo_recipe' "artifacts" "name"
              (mod_artifacts libfoo_recipe) (mod_artifacts libfoo_recipe')
              eq_refl eq_refl) as [Hok _].
  destruct (merge_artifacts_errors libfoo_recipe libfoo_recipe' "artifacts" "id"
              (mod_artifacts libfoo_recipe) (mod_artifacts libfoo_recipe')
              eq_refl eq_refl) as [_ Herr].
  split.
  - apply Hok. repeat constructor; by eexists.
  - destruct (merge_artifacts libfoo_recipe libfoo_recipe' "artifacts" "id")
      as [res|e] eqn:Hrun; [by vm_compute in Hrun | by rewrite (Herr e eq_refl)].
Defined.

(** X2. What [merge_artifacts] returns, whatever the two collections hold
    (also entries that share a key): no two entries under one key; only
    entries of the two collections; an entry for every key of either
    side; and under a key the left side has, an entry of the left side. *)
Theorem merge_artifacts_result lhs rhs key cmp_key l r res :
  BuildModule_getlist lhs key = Ok l → BuildModule_getlist rhs key = Ok r →
  merge_artifacts lhs rhs key cmp_key = Ok res →
  well_keyed cmp_key res
  ∧ (∀ a, a ∈ res → a ∈ l ∨ a ∈ r)
  ∧ (∀ a, a ∈ l ++ r → key_of cmp_key a ∈ key_of cmp_key <$> res)
  ∧ (∀ a, a ∈ res → key_of cmp_key a ∈ key_of cmp_key <$> l → a ∈ l).
Proof.
  intros Hl Hr Hrun.
  pose proof (merge_artifacts_general lhs rhs key cmp_key l r Hl Hr) as H.
  rewrite Hrun in H. apply H.
Qed.

Lemma merge_artifacts_result_witness :
  well_keyed "name"
    [mkArtifact "aaa" "111" (Some "conanfile.py") None;
     mkArtifact "eee" "555" (Some "conan_sources.tgz") None].
Proof.
  apply (merge_artifacts_result libfoo_recipe libfoo_recipe' "artifacts" "name"
           (mod_artifacts libfoo_recipe) (mod_artifacts libfoo_recipe') _
           eq_refl eq_refl eq_refl).
Defined.

(** ** The modules of a merged document *)

(** One round of the loop of [merge_buildinfo] keeps the ids of the left
    modules, in order, and appends the id of the right module when it is
    new. *)
Lemma merge_module_ids r ms ms1 :
  merge_module r ms = Ok ms1 →
  (mod_id r ∈ mod_id <$> ms ∧ mod_id <$> ms1 = mod_id <$> ms)
  ∨ ((mod_id r ∉ mod_id <$> ms)
     ∧ mod_id <$> ms1 = (mod_id <$> ms) ++ [mod_id r]).
Proof.
  unfold merge_module, find_module.
  destruct (list_find _ ms) as [[i lm]|] eqn:Hfind.
  - apply list_find_Some in Hfind as (Hi & Heq & _). apply String.eqb_eq in Heq.
    rewrite Hi.
    destruct (merge_artifacts lm r "artifacts" "name") as [arts|e]; [|done].
    rewrite Result_bind_Ok.
    destruct (merge_artifacts _ r "dependencies" "id") as [deps|e]; [|done].
    rewrite Result_bind_Ok. intros [= <-]. left. split.
    + rewrite <- Heq. apply list_elem_of_fmap_2. by eapply list_elem_of_lookup_2.
    + rewrite list_fmap_insert. simpl. apply list_insert_id.
      by rewrite list_lookup_fmap, Hi.
  - assert (Hnew : mod_id r ∉ mod_id <$> ms).
    { apply lookup_module_None. unfold lookup_module. by rewrite Hfind. }
    rewrite list_lookup_middle by done.
    destruct (merge_artifacts _ r "artifacts" "name") as [arts|e]; [|done].
    rewrite Result_bind_Ok.
    destruct (merge_artifacts _ r "dependencies" "id") as [deps|e]; [|done].
    rewrite Result_bind_Ok. intros [= <-]. right. split; [done|].
    replace (length ms) with (length ms + 0) by lia.
    rewrite insert_app_r. simpl. by rewrite fmap_app.
Qed.

Lemma merge_loop_ids rs ms ms' :
  for_each rs ms merge_module = Ok ms' →
  ∃ new, mod_id <$> ms' = (mod_id <$> ms) ++ new
    ∧ NoDup new
    ∧ (∀ i, i ∈ new ↔ i ∈ mod_id <$> rs ∧ i ∉ mod_id <$> ms)
    ∧ sublist new (mod_id <$> rs).
Proof.
  revert ms. induction rs as [|r rs IH]; intros ms.
  - intros [= <-]. exists []. rewrite app_nil_r. split; [done|].
    split; [constructor|]. split; [|constructor].
    intros i. rewrite fmap_nil, !elem_of_nil. tauto.
  - rewrite for_each_cons.
    destruct (merge_module r ms) as [ms1|e] eqn:Hstep; [|done].
    rewrite Result_bind_Ok. intros Hrest.
    destruct (IH _ Hrest) as (new & Hids & Hnd & Hnew & Hsub).
    apply merge_module_ids in Hstep as [[Hin Hids1]|[Hnin Hids1]];
      rewrite Hids1 in Hids, Hnew.
    + exists new. split; [done|]. split; [done|]. split; [|by constructor].
      intros i. rewrite Hnew, fmap_cons, elem_of_cons. split; [tauto|].
      intros [[->| ?] ?]; tauto.
    + exists (mod_id r :: new). rewrite <- app_assoc in Hids. split; [done|].
      split; [|split; [|by constructor]].
      * apply NoDup_cons. split; [|done]. intros Hr%Hnew.
        destruct Hr as [_ Hr]. apply Hr. apply elem_of_app. right. left.
      * intros i. rewrite fmap_cons, !elem_of_cons, Hnew, elem_of_app,
          list_elem_of_singleton.
        destruct (decide (i = mod_id r)) as [->|]; tauto.
Qed.

Lemma merge_buildinfo_Ok_inv l r d :
  merge_buildinfo (Some l) (Some r) = Ok d →
  compatible l r
  ∧ ∃ ms', for_each (bi_modules r) (bi_modules l) merge_module = Ok ms'
      ∧ d = Some (set_modules l ms').
Proof.
  unfold merge_buildinfo, compatible. simpl.
  destruct (String.eqb_spec (bi_version l) (bi_version r)); [|done].
  destruct (String.eqb_spec (bi_name l) (bi_name r)); [|done].
  destruct (String.eqb_spec (bi_number l) (bi_number r)); [|done].
  simpl. destruct (for_each _ _ merge_module) as [ms'|err]; [|done].
  intros [= <-]. split; [done|]. by eexists.
Qed.

(** X4. A merge that returns keeps everything of the left document but
    its modules ([started], [properties] and the like of the right
    document are dropped); the left modules keep their place, and the ids
    that only the right document has follow, once each, in the order of
    the right document. *)
Theorem merge_keeps_left (l r d' : BuildInfo) :
  merge_buildinfo (Some l) (Some r) = Ok (Some d') →
  d' = set_modules l (bi_modules d')
  ∧ ∃ new, mod_id <$> bi_modules d' = (mod_id <$> bi_modules l) ++ new
      ∧ NoDup new
      ∧ (∀ i, i ∈ new ↔
              i ∈ mod_id <$> bi_modules r ∧ i ∉ mod_id <$> bi_modules l)
      ∧ sublist new (mod_id <$> bi_modules r).
Proof.
  intros (_ & ms' & Hloop & [= ->])%merge_buildinfo_Ok_inv.
  split; [done|]. simpl. by eapply merge_loop_ids.
Qed.

Lemma merge_keeps_left_witness :
  ∃ new, ["libfoo/1.0"; "libfoo/1.0:pid"; "libbar/2.0"]
           = ["libfoo/1.0"; "libfoo/1.0:pid"] ++ new
    ∧ NoDup new.
Proof.
  destruct (merge_keeps_left (sample_doc [libfoo_recipe; libfoo_package])
              (sample_doc [libfoo_recipe'; libbar_recipe])
              (sample_doc [merge_mod libfoo_recipe libfoo_recipe';
                           libfoo_package; libbar_recipe]))
    as [_ (new & Hids & Hnd & _)].
  - vm_compute. reflexivity.
  - exists new. split; [exact Hids | exact Hnd].
Defined.

(** The merge of two well-formed documents of one build raises nothing,
    and returns a well-formed document of that build. *)
Lemma merge_closed (l r : BuildInfo) :
  compatible l r → doc_wf l → doc_wf r →
  ∃ d', merge_buildinfo (Some l) (Some r) = Ok (Some d')
    ∧ doc_wf d' ∧ compatible l d'.
Proof.
  intros (Hv & Hn & Hnum) [Hndl Hwfl] [Hndr Hwfr].
  destruct (merge_loop_lookup (bi_modules r) (bi_modules l))
    as (ms' & Hloop & Hwf' & _); [done..|].
  destruct (merge_loop_ids _ _ _ Hloop) as (new & Hids & Hnd & Hnew & _).
  exists (set_modules l ms'). split; [|split; [split|]].
  - unfold merge_buildinfo. simpl.
    rewrite Hv, Hn, Hnum, !String.eqb_refl. simpl. by rewrite Hloop.
  - simpl. rewrite Hids. apply NoDup_app. split; [done|]. split; [|done].
    intros i Hi Hi'%Hnew. tauto.
  - done.
  - done.
Qed.

(** X3. Merging is closed on well-formed documents of one build: the merge
    of two of them raises nothing, and returns a well-formed document of
    that build, which holds under every module id the combination of the
    modules that the two documents hold under it. *)
Theorem merge_wf (l r : BuildInfo) :
  compatible l r → doc_wf l → doc_wf r →
  ∃ d', merge_buildinfo (Some l) (Some r) = Ok (Some d')
    ∧ doc_wf d' ∧ compatible l d'
    ∧ ∀ mid, lookup_module mid (bi_modules d') =
        combine_modules (lookup_module mid (bi_modules l))
          (lookup_module mid (bi_modules r)).
Proof.
  intros Hc Hl Hr.
  destruct (merge_closed l r Hc Hl Hr) as (d' & Hrun & Hwf & Hc').
  exists d'. repeat (split; [done|]).
  apply merge_buildinfo_Ok_inv in Hrun as (_ & ms & Hloop & [= ->]).
  destruct Hl as [_ Hwfl]. destruct Hr as [Hndr Hwfr].
  destruct (merge_loop_lookup (bi_modules r) (bi_modules l))
    as (ms' & Hloop' & _ & Hlookup); [done..|].
  rewrite Hloop in Hloop'. injection Hloop' as <-. exact Hlookup.
Qed.

Lemma merge_wf_witness :
  ∃ d', merge_buildinfo (Some (sample_doc [libfoo_recipe; libfoo_package]))
                        (Some (sample_doc [libfoo_recipe'; libbar_recipe]))
          = Ok (Some d')
    ∧ doc_wf d'.
Proof.
  destruct (merge_wf (sample_doc [libfoo_recipe; libfoo_package])
                     (sample_doc [libfoo_recipe'; libbar_recipe]))
    as (d' & Hrun & Hwf & _).
  - repeat split.
  - apply (bool_decide_unpack _). vm_compute. exact I.
  - apply (bool_decide_unpack _). vm_compute. exact I.
  - exists d'. split; [exact Hrun | exact Hwf].
Defined.

Lemma compatible_trans a b c : compatible a b → compatible a c → compatible b c.
Proof.
  unfold compatible. intros (? & ? & ?) (? & ? & ?).
  repeat split; congruence.
Qed.

Lemma update_loop_wf (d acc : BuildInfo) (ds : list BuildInfo) :
  doc_wf acc → compatible d acc →
  Forall (λ x, doc_wf x ∧ compatible d x) ds →
  ∃ d', for_each (Some <$> ds) (Some acc)
          (λ data build_info, merge_buildinfo build_info data) = Ok (Some d')
    ∧ doc_wf d' ∧ compatible d d'.
Proof.
  intros Hacc Hdacc Hds. revert acc Hacc Hdacc.
  induction Hds as [|x ds [Hx Hdx] _ IH]; intros acc Hacc Hdacc.
  - by exists acc.
  - rewrite fmap_cons, for_each_cons.
    destruct (merge_closed acc x) as (acc' & -> & Hwf' & Hcomp');
      [by eapply compatible_trans | done | done |].
    rewrite Result_bind_Ok. apply IH; [done|].
    unfold compatible in *. destruct Hdacc as (-> & -> & ->). done.
Qed.

(** X5. [update_build_info] on build-info files of one build, all
    well-formed: every merge succeeds, and the document it writes is a
    well-formed document of that build. *)
Theorem update_build_info_wf (d : BuildInfo) (ds : list BuildInfo) :
  doc_wf d → Forall (λ x, doc_wf x ∧ compatible d x) ds →
  ∃ d', update_build_info (Some <$> d :: ds) = Ok (Some d')
    ∧ doc_wf d' ∧ compatible d d'.
Proof.
  intros Hd Hds. rewrite fmap_cons, update_build_info_cons.
  by apply update_loop_wf.
Qed.

Lemma update_build_info_wf_witness :
  ∃ d', update_build_info
          [Some (sample_doc [libfoo_recipe]); Some (sample_doc [libfoo_recipe']);
           Some (sample_doc [libbar_recipe])] = Ok (Some d')
    ∧ doc_wf d'.
Proof.
  destruct (update_build_info_wf (sample_doc [libfoo_recipe])
              [sample_doc [libfoo_recipe']; sample_doc [libbar_recipe]])
    as (d' & Hrun & Hwf & _).
  - apply (bool_decide_unpack _). vm_compute. exact I.
  - repeat constructor; apply (bool_decide_unpack _); vm_compute; exact I.
  - exists d'. split; [exact Hrun | exact Hwf].
Defined.

(** ** The order of merges *)

Lemma lookup_module_id mid ms m :
  lookup_module mid ms = Some m → mod_id m = mid ∧ m ∈ ms.
Proof.
  unfold lookup_module. destruct (list_find _ ms) as [[i m']|] eqn:Hfind; [|done].
  intros [= <-]. apply list_find_Some in Hfind as (Hi & Heq & _).
  split; [by apply String.eqb_eq | by eapply list_elem_of_lookup_2].
Qed.

Lemma elem_of_merged_agree cmp_key l r a :
  agree cmp_key l r →
  a ∈ merged_items cmp_key l r ↔ a ∈ l ∨ a ∈ r.
Proof.
  intros Hag. rewrite elem_of_merged_items. split; [tauto|].
  intros [Hl|Hr]; [by left|].
  destruct (decide (key_of cmp_key a ∈ key_of cmp_key <$> l)) as [Hin|Hnin];
    [|by right].
  left. apply list_elem_of_fmap in Hin as (b & Hkey & Hb).
  by rewrite <- (Hag b a Hb Hr (eq_sym Hkey)).
Qed.

(** X6. For two well-formed documents of one build whose shared modules
    agree on the entries they both have, the order of the merge does not
    matter but for the order of modules and entries: both merges succeed,
    hold modules under the same ids, and under every id modules of the
    same content. *)
Theorem merge_commutes (l r : BuildInfo) :
  compatible l r → doc_wf l → doc_wf r →
  (∀ mid lm rm,
     lookup_module mid (bi_modules l) = Some lm →
     lookup_module mid (bi_modules r) = Some rm →
     agree "name" (mod_artifacts lm) (mod_artifacts rm)
     ∧ agree "id" (mod_dependencies lm) (mod_dependencies rm)) →
  ∃ d1 d2,
    merge_buildinfo (Some l) (Some r) = Ok (Some d1)
    ∧ merge_buildinfo (Some r) (Some l) = Ok (Some d2)
    ∧ ∀ mid,
        match lookup_module mid (bi_modules d1),
              lookup_module mid (bi_modules d2) with
        | Some m1, Some m2 => same_content m1 m2
        | None, None => True
        | _, _ => False
        end.
Proof.
  intros Hcomp [Hndl Hwfl] [Hndr Hwfr] Hag.
  destruct (merge_loop_lookup (bi_modules r) (bi_modules l))
    as (ms1 & Hloop1 & _ & Hlook1); [done..|].
  destruct (merge_loop_lookup (bi_modules l) (bi_modules r))
    as (ms2 & Hloop2 & _ & Hlook2); [done..|].
  destruct Hcomp as (Hv & Hn & Hnum).
  exists (set_modules l ms1), (set_modules r ms2). split; [|split].
  - unfold merge_buildinfo. simpl.
    rewrite Hv, Hn, Hnum, !String.eqb_refl. simpl. by rewrite Hloop1.
  - unfold merge_buildinfo. simpl.
    rewrite Hv, Hn, Hnum, !String.eqb_refl. simpl. by rewrite Hloop2.
  - intros mid. simpl. rewrite Hlook1, Hlook2.
    destruct (lookup_module mid (bi_modules l)) as [lm|] eqn:Hlm;
      destruct (lookup_module mid (bi_modules r)) as [rm|] eqn:Hrm; simpl;
      try done.
    destruct (Hag mid lm rm Hlm Hrm) as [Ha Hd].
    apply lookup_module_id in Hlm as [Hidl _].
    apply lookup_module_id in Hrm as [Hidr _].
    split; [simpl; congruence|]. simpl.
    assert (Hsym : ∀ c x y, agree c x y → agree c y x).
    { intros c x y Hxy a b Ha' Hb' Hk. symmetry. by apply Hxy. }
    split; intros a; rewrite !elem_of_merged_agree by auto; tauto.
Qed.

Lemma merge_commutes_witness :
  ∃ d1 d2,
    merge_buildinfo (Some (sample_doc [libfoo_recipe; libfoo_package]))
                    (Some (sample_doc [libbar_recipe; libfoo_recipe'])) = Ok (Some d1)
    ∧ merge_buildinfo (Some (sample_doc [libbar_recipe; libfoo_recipe']))
                      (Some (sample_doc [libfoo_recipe; libfoo_package])) = Ok (Some d2)
    ∧ match lookup_module "libfoo/1.0" (bi_modules d1),
            lookup_module "libfoo/1.0" (bi_modules d2) with
      | Some m1, Some m2 => same_content m1 m2
      | None, None => True
      | _, _ => False
      end.
Proof.
  destruct (merge_commutes (sample_doc [libfoo_recipe; libfoo_package])
                           (sample_doc [libbar_recipe; libfoo_recipe']))
    as (d1 & d2 & H1 & H2 & Hsame).
  - repeat split.
  - apply (bool_decide_unpack _). vm_compute. exact I.
  - apply (bool_decide_unpack _). vm_compute. exact I.
  - intros mid lm rm Hlm Hrm.
    assert (Hl : lm = libfoo_recipe ∨ lm = libfoo_package).
    { apply lookup_module_id in Hlm as [_ Hin].
      apply elem_of_cons in Hin as [->|Hin]; [by left|].
      apply list_elem_of_singleton in Hin as ->. by right. }
    assert (Hr : rm = libbar_recipe ∨ rm = libfoo_recipe').
    { apply lookup_module_id in Hrm as [_ Hin].
      apply elem_of_cons in Hin as [->|Hin]; [by left|].
      apply list_elem_of_singleton in Hin as ->. by right. }
    assert (Hid : mod_id lm = mod_id rm).
    { apply lookup_module_id in Hlm as [-> _].
      by apply lookup_module_id in Hrm as [-> _]. }
    destruct Hl as [-> | ->], Hr as [-> | ->]; try discriminate Hid.
    split; intros a b Ha Hb Hk; simpl in Ha, Hb;
      repeat (apply elem_of_cons in Ha as [->|Ha]);
      repeat (apply elem_of_cons in Hb as [->|Hb]);
      try (by apply elem_of_nil in Ha); try (by apply elem_of_nil in Hb);
      try done; by vm_compute in Hk.
  - exists d1, d2. split; [exact H1|]. split; [exact H2 | exact (Hsame "libfoo/1.0")].
Defined.

Lemma merged_items_assoc cmp_key l r s :
  merged_items cmp_key (merged_items cmp_key l r) s
    = merged_items cmp_key l (merged_items cmp_key r s).
Proof.
  unfold merged_items. rewrite <- app_assoc. f_equal.
  rewrite filter_app. f_equal. rewrite list_filter_filter.
  apply filter_ext_elem. intros a _.
  rewrite fmap_app, elem_of_app. split.
  - intros Hn. split; [tauto|]. intros Hr. apply Hn.
    destruct (decide (key_of cmp_key a ∈ key_of cmp_key <$> l)); [by left|].
    right. apply list_elem_of_fmap in Hr as (b & Hk & Hb).
    apply list_elem_of_fmap. exists b. split; [done|].
    apply list_elem_of_filter. split; [congruence | done].
  - intros [Hl Hr] [Hin|Hin]; [done|]. apply Hr.
    apply list_elem_of_fmap in Hin as (b & Hk & Hb).
    apply list_elem_of_filter in Hb as [_ Hb].
    apply list_elem_of_fmap. by exists b.
Qed.

Lemma merge_mod_assoc a b c :
  merge_mod (merge_mod a b) c = merge_mod a (merge_mod b c).
Proof. unfold merge_mod. simpl. by rewrite !merged_items_assoc. Qed.

Lemma combine_modules_assoc x y z :
  combine_modules (combine_modules x y) z
    = combine_modules x (combine_modules y z).
Proof.
  destruct x, y, z; simpl; try done. by rewrite merge_mod_assoc.
Qed.

(** With unique ids on the right, the ids of the merged modules are those
    of the left followed by the new ones of the right. *)
Lemma merge_loop_ids_filter rs ms ms' :
  NoDup (mod_id <$> rs) →
  for_each rs ms merge_module = Ok ms' →
  mod_id <$> ms' =
    (mod_id <$> ms) ++ filter (λ i, i ∉ mod_id <$> ms) (mod_id <$> rs).
Proof.
  revert ms. induction rs as [|r rs IH]; intros ms Hnd.
  - intros [= <-]. by rewrite fmap_nil, filter_nil, app_nil_r.
  - rewrite fmap_cons in Hnd. apply NoDup_cons in Hnd as [Hr Hnd].
    rewrite for_each_cons.
    destruct (merge_module r ms) as [ms1|e] eqn:Hstep; [|done].
    rewrite Result_bind_Ok. intros Hrest. rewrite (IH _ Hnd Hrest), fmap_cons.
    apply merge_module_ids in Hstep as [[Hin ->]|[Hnin ->]].
    + by rewrite filter_cons_False by tauto.
    + rewrite filter_cons_True by done. rewrite <- app_assoc. simpl.
      do 2 f_equal. apply filter_ext_elem. intros i Hi.
      rewrite elem_of_app, list_elem_of_singleton. split; [tauto|].
      intros Hn [?| ->]; done.
Qed.

(** Lists of modules with the same unique ids, in the same order, and the
    same module under every id, are equal. *)
Lemma modules_ext ms1 ms2 :
  NoDup (mod_id <$> ms1) → mod_id <$> ms1 = mod_id <$> ms2 →
  (∀ mid, lookup_module mid ms1 = lookup_module mid ms2) →
  ms1 = ms2.
Proof.
  intros Hnd Hids Hlook. apply list_eq_same_length with (length ms1); [|done|].
  { rewrite <- (length_fmap mod_id ms2), <- Hids. by rewrite length_fmap. }
  intros i m1 m2 _ Hm1 Hm2.
  assert (Hid : mod_id m1 = mod_id m2).
  { assert ((mod_id <$> ms1) !! i = (mod_id <$> ms2) !! i) as Hi by by rewrite Hids.
    rewrite !list_lookup_fmap, Hm1, Hm2 in Hi. by injection Hi. }
  pose proof (list_find_unique ms1 i m1 Hnd Hm1) as H1.
  rewrite Hids in Hnd.
  pose proof (list_find_unique ms2 i m2 Hnd Hm2) as H2.
  specialize (Hlook (mod_id m1)). unfold lookup_module in Hlook.
  rewrite H1, Hid, H2 in Hlook. by injection Hlook.
Qed.

(** X7. On well-formed documents of one build the merge is associative:
    merging a third document into the merge of two gives the very
    document that merging the first with the merge of the others gives. So
    the way [update_build_info] groups its merges, from the left, is of
    no consequence. *)
Theorem merge_assoc (a b c : BuildInfo) :
  compatible a b → compatible a c → doc_wf a → doc_wf b → doc_wf c →
  ∃ ab bc d,
    merge_buildinfo (Some a) (Some b) = Ok (Some ab)
    ∧ merge_buildinfo (Some b) (Some c) = Ok (Some bc)
    ∧ merge_buildinfo (Some ab) (Some c) = Ok (Some d)
    ∧ merge_buildinfo (Some a) (Some bc) = Ok (Some d).
Proof.
  intros Hab Hac Ha Hb Hc.
  pose proof (compatible_trans _ _ _ Hab Hac) as Hbc.
  destruct (merge_closed a b Hab Ha Hb) as (ab & Hrab & Hwab & Haab).
  destruct (merge_closed b c Hbc Hb Hc) as (bc & Hrbc & Hwbc & Hbbc).
  assert (Habc : compatible ab c) by (by eapply compatible_trans).
  assert (Habc' : compatible a bc).
  { unfold compatible in *. destruct Hab as (? & ? & ?), Hbbc as (? & ? & ?).
    repeat split; congruence. }
  destruct (merge_closed ab c Habc Hwab Hc) as (d1 & Hr1 & Hw1 & _).
  destruct (merge_closed a bc Habc' Ha Hwbc) as (d2 & Hr2 & Hw2 & _).
  exists ab, bc, d1. split; [done|]. split; [done|]. split; [done|].
  rewrite Hr2. do 2 f_equal.
  apply merge_buildinfo_Ok_inv in Hrab as (_ & mab & Hlab & [= ->]).
  apply merge_buildinfo_Ok_inv in Hrbc as (_ & mbc & Hlbc & [= ->]).
  apply merge_buildinfo_Ok_inv in Hr1 as (_ & m1 & Hl1 & [= ->]).
  apply merge_buildinfo_Ok_inv in Hr2 as (_ & m2 & Hl2 & [= ->]).
  simpl in *. unfold set_modules. simpl. f_equal.
  destruct Ha as [Hna Hwa], Hb as [Hnb Hwb], Hc as [Hnc Hwc].
  destruct Hw1 as [Hn1 _], Hwab as [Hnab Hwfab], Hwbc as [Hnbc Hwfbc].
  simpl in *. symmetry. apply modules_ext; [done | |].
  - rewrite (merge_loop_ids_filter _ _ _ Hnc Hl1).
    rewrite (merge_loop_ids_filter _ _ _ Hnb Hlab).
    rewrite (merge_loop_ids_filter _ _ _ Hnbc Hl2).
    rewrite (merge_loop_ids_filter _ _ _ Hnc Hlbc).
    rewrite <- app_assoc. f_equal. rewrite filter_app. f_equal.
    rewrite list_filter_filter. apply filter_ext_elem. intros i _.
    rewrite elem_of_app, list_elem_of_filter. tauto.
  - intros mid.
    destruct (merge_loop_lookup (bi_modules b) (bi_modules a))
      as (x1 & Hx1 & _ & Hy1); [done..|].
    destruct (merge_loop_lookup (bi_modules c) (bi_modules b))
      as (x2 & Hx2 & _ & Hy2); [done..|].
    destruct (merge_loop_lookup (bi_modules c) mab)
      as (x3 & Hx3 & _ & Hy3); [done..|].
    destruct (merge_loop_lookup mbc (bi_modules a))
      as (x4 & Hx4 & _ & Hy4); [done..|].
    assert (x1 = mab) as -> by congruence.
    assert (x2 = mbc) as -> by congruence.
    assert (x3 = m1) as -> by congruence.
    assert (x4 = m2) as -> by congruence.
    by rewrite Hy3, Hy1, Hy4, Hy2, combine_modules_assoc.
Qed.

Lemma merge_assoc_witness :
  ∃ ab bc d,
    merge_buildinfo (Some (sample_doc [libfoo_recipe]))
                    (Some (sample_doc [libfoo_recipe'])) = Ok (Some ab)
    ∧ merge_buildinfo (Some (sample_doc [libfoo_recipe']))
                      (Some (sample_doc [libbar_recipe; libfoo_package])) = Ok (Some bc)
    ∧ merge_buildinfo (Some ab)
                      (Some (sample_doc [libbar_recipe; libfoo_package])) = Ok (Some d)
    ∧ merge_buildinfo (Some (sample_doc [libfoo_recipe])) (Some bc) = Ok (Some d).
Proof.
  apply (merge_assoc (sample_doc [libfoo_recipe]) (sample_doc [libfoo_recipe'])
           (sample_doc [libbar_recipe; libfoo_package]));
    [repeat split | repeat split
    |apply (bool_decide_unpack _); vm_compute; exact I..].
Defined.

(** ** The merge in place: failures *)

(** X9. On two documents that differ in [version], [name] or [number] the
    merge in place raises the assertion error before it writes anything:
    the heap, and so the left document, is as it was. *)
Theorem merge_in_place_incompatible (h : gmap InPlace.loc InPlace.obj)
    (lhs rhs : InPlace.loc) (ld rd : InPlace.DocObj) :
  h !! lhs = Some (InPlace.ODoc ld) → h !! rhs = Some (InPlace.ODoc rd) →
  InPlace.do_version ld ≠ InPlace.do_version rd
    ∨ InPlace.do_name ld ≠ InPlace.do_name rd
    ∨ InPlace.do_number ld ≠ InPlace.do_number rd →
  InPlace.merge_buildinfo lhs rhs h = Some (Raise (AssertionError None), h).
Proof.
  intros Hl Hr Hdiff. unfold InPlace.merge_buildinfo.
  rewrite (InPlaceFacts.st_bind_Some _ _ h (Ok true) h)
    by (unfold InPlace.truthy; by rewrite Hl).
  rewrite (InPlaceFacts.st_bind_Some _ _ h (Ok true) h)
    by (unfold InPlace.truthy; by rewrite Hr).
  simpl.
  rewrite (InPlaceFacts.st_bind_Some _ _ h (Ok ld) h)
    by (by rewrite InPlaceFacts.get_doc_eq, Hl).
  rewrite (InPlaceFacts.st_bind_Some _ _ h (Ok rd) h)
    by (by rewrite InPlaceFacts.get_doc_eq, Hr).
  unfold InPlace.st_bind at 1, InPlace.st_lift at 1.
  destruct (String.eqb_spec (InPlace.do_version ld) (InPlace.do_version rd));
    simpl; [|done].
  unfold InPlace.st_bind at 1, InPlace.st_lift at 1.
  destruct (String.eqb_spec (InPlace.do_name ld) (InPlace.do_name rd));
    simpl; [|done].
  unfold InPlace.st_bind at 1, InPlace.st_lift at 1.
  destruct (String.eqb_spec (InPlace.do_number ld) (InPlace.do_number rd));
    simpl; [|done].
  tauto.
Qed.

Lemma merge_in_place_incompatible_witness :
  InPlace.merge_buildinfo 1 4
    (<[4 := InPlace.ODoc (InPlace.mkDocObj "1.0.1" "build" "8" "GENERIC" ""
                            ("", "") 5 None)]> sample_heap)
  = Some (Raise (AssertionError None),
          <[4 := InPlace.ODoc (InPlace.mkDocObj "1.0.1" "build" "8" "GENERIC" ""
                                 ("", "") 5 None)]> sample_heap).
Proof.
  apply (merge_in_place_incompatible _ 1 4
           (InPlace.mkDocObj "1.0.1" "build" "7" "GENERIC" "" ("", "") 2 None)
           (InPlace.mkDocObj "1.0.1" "build" "8" "GENERIC" "" ("", "") 5 None)).
  - vm_compute. reflexivity.
  - vm_compute. reflexivity.
  - right. right. simpl. discriminate.
Defined.

Lemma read_modules_Some h (items : list InPlace.loc) ms :
  InPlace.read_modules h items = Some ms → InPlace.rep h items ms.
Proof.
  unfold InPlace.read_modules, InPlace.rep. intros H%mapM_Some_1.
  eapply Forall2_impl; [exact H|]. intros l m. simpl.
  destruct (h !! l) as [[]|]; congruence.
Qed.

Lemma read_doc_Some (h : gmap InPlace.loc InPlace.obj) (doc : InPlace.loc) d :
  InPlace.read_doc h doc = Some (Some d) →
  ∃ o items ms,
    h !! doc = Some (InPlace.ODoc o)
    ∧ h !! InPlace.do_modules o = Some (InPlace.OList items)
    ∧ InPlace.rep h items ms ∧ d = InPlace.doc_value o ms
    ∧ InPlace.footprint h doc = doc :: InPlace.do_modules o :: items.
Proof.
  unfold InPlace.read_doc, InPlace.footprint.
  destruct (h !! doc) as [[|o| |]|] eqn:Hdoc; try done.
  destruct (h !! InPlace.do_modules o) as [[| |items|]|] eqn:Hlist; try done.
  destruct (InPlace.read_modules h items) as [ms|] eqn:Hms; [|done].
  simpl. intros [= <-]. exists o, items, ms.
  repeat split; try done. by apply read_modules_Some.
Qed.

(** X8. The merge of the source, which assigns to the left document in
    place, computes what the merge on values computes: for two documents
    on the heap that share no object, the left one holding no object
    twice, it raises what [merge_buildinfo] raises on the values the two
    locations hold, or it returns the left location, which then holds the
    value that [merge_buildinfo] returns. *)
Theorem merge_in_place_value (h : gmap InPlace.loc InPlace.obj)
    (lhs rhs : InPlace.loc) (dl dr : BuildInfo) :
  InPlace.read_doc h lhs = Some (Some dl) →
  InPlace.read_doc h rhs = Some (Some dr) →
  NoDup (InPlace.footprint h lhs) →
  (∀ l, l ∈ InPlace.footprint h rhs → l ∉ InPlace.footprint h lhs) →
  ∃ r h', InPlace.merge_buildinfo lhs rhs h = Some (r, h')
    ∧ match merge_buildinfo (Some dl) (Some dr) with
      | Ok d => r = Ok lhs ∧ InPlace.read_doc h' lhs = Some d
      | Raise e => r = Raise e
      end.
Proof.
  intros (ld & litems & lms & Hlhs & Hll & Hlrep & -> & Hfl)%read_doc_Some
         (rd & ritems & rms & Hrhs & Hrl & Hrrep & -> & Hfr)%read_doc_Some.
  rewrite Hfl, Hfr. intros Hnd Hsep.
  apply (InPlaceFacts.merge_refines h lhs rhs ld rd litems ritems lms rms);
    try done.
  - intros Heq. apply (Hsep (InPlace.do_modules rd)).
    + right. left.
    + rewrite Heq. right. left.
  - intros l Hl Hl'. apply (Hsep l).
    + by do 2 right.
    + by do 2 right.
  - by apply NoDup_cons in Hnd as [_ [_ ?]%NoDup_cons].
Qed.

Lemma merge_in_place_value_witness :
  ∃ r h', InPlace.merge_buildinfo 1 4 sample_heap = Some (r, h')
    ∧ match merge_buildinfo
              (Some (InPlace.doc_value
                       (InPlace.mkDocObj "1.0.1" "build" "7" "GENERIC" ""
                          ("", "") 2 None) [libfoo_recipe]))
              (Some (InPlace.doc_value
                       (InPlace.mkDocObj "1.0.1" "build" "7" "GENERIC" ""
                          ("", "") 5 None) [libfoo_recipe'; libbar_recipe])) with
      | Ok d => r = Ok 1 ∧ InPlace.read_doc h' 1 = Some d
      | Raise e => r = Raise e
      end.
Proof.
  apply (merge_in_place_value sample_heap 1 4).
  - vm_compute. reflexivity.
  - vm_compute. reflexivity.
  - apply (bool_decide_unpack _). vm_compute. exact I.
  - replace (InPlace.footprint sample_heap 4) with [4; 5; 6; 7]%nat
      by (vm_compute; reflexivity).
    replace (InPlace.footprint sample_heap 1) with [1; 2; 3]%nat
      by (vm_compute; reflexivity).
    intros l Hl Hl'.
    rewrite !elem_of_cons, elem_of_nil in Hl; rewrite !elem_of_cons, elem_of_nil in Hl'.
    lia.
Defined.

(** ** The closure that [_gather_deps] returns *)

Section closure.
Variable hash : string → Z.
Variable func : string → Result PySet.
Variable contents : gmap string LockNode.

(** The body of the loop of [_gather_deps]. *)
Local Abbreviation child_body limit :=
  (λ (item : string * string) (artifacts : PySet),
     traced_bind (_gather_deps hash func limit item.2 contents)
       (λ deps, traced_ret (set_update hash artifacts deps))).

(** The loop of [_gather_deps] adds to the set what the traversals of the
    children return. *)
Lemma gather_loop_elem limit items acc s log x :
  for_each_traced items acc (child_body limit) = (Ok s, log) →
  x ∈ s ↔
  x ∈ acc ∨ ∃ item deps l, item ∈ items
              ∧ _gather_deps hash func limit item.2 contents = (Ok deps, l)
              ∧ x ∈ deps.
Proof.
  revert acc log. induction items as [|item items IH]; intros acc log.
  - intros [= <- _]. split; [by left|]. intros [?|(? & ? & ? & []%elem_of_nil & _)]. done.
  - simpl.
    intros (a' & l1 & l2 & Hbody & Hrest & _)%traced_bind_Ok.
    apply traced_bind_Ok in Hbody as (deps & l3 & l4 & Hrec & [= <- _] & _).
    rewrite (IH _ _ Hrest), elem_of_set_update. split.
    + intros [[?|?]|(it & d & l & Hin & Hd & Hx)]; [by left | |].
      * right. exists item, deps, l3. split; [left|done].
      * right. exists it, d, l. split; [by right | done].
    + intros [?|(it & d & l & Hin & Hd & Hx)]; [by left; left|].
      apply elem_of_cons in Hin as [->|Hin].
      * left. right. congruence.
      * right. by exists it, d, l.
Qed.

(** What is in the set that a traversal returns. *)
Lemma gather_deps_elem (limit : nat) (node_uid : string)
    (s : PySet) (log : list string) :
  graph_wf contents →
  _gather_deps hash func limit node_uid contents = (Ok s, log) →
  ∀ x, x ∈ s ↔
       ∃ path v node arts,
         walk contents node_uid path = Some v ∧ contents !! v = Some node
         ∧ func (pref node) = Ok arts ∧ x ∈ arts.
Proof.
  intros Hwf. revert node_uid s log.
  induction limit as [|limit IH]; intros node_uid s log; [by intros [=]|].
  intros Hrun x.
  pose proof Hrun as (node & arts & logs & Hnode & Hfunc & _ & Hall)%gather_deps_Ok_inv.
  rewrite gather_deps_S, Hnode in Hrun.
  apply traced_bind_Ok in Hrun as (arts' & l1 & l2 & [= Harts _] & Hloop & _).
  rewrite Hfunc in Harts. injection Harts as <-.
  rewrite (gather_loop_elem _ _ _ _ _ _ Hloop).
  pose proof (map_Forall_lookup_1 _ _ _ _ Hwf Hnode) as Hkeys. simpl in Hkeys.
  split.
  - intros [Hx|([slot child] & deps & l & Hin & Hrec & Hx)].
    + exists [], node_uid, node, arts. simpl. by rewrite Hnode.
    + apply (IH _ _ _ Hrec) in Hx as (path & v & nd & a & Hwalk & Hv & Hf & Hx).
      exists (slot :: path), v, nd, a. split; [|done]. simpl.
      rewrite Hnode. simpl. by rewrite (dict_get_NoDup slot child).
  - intros ([|slot path] & v & nd & a & Hwalk & Hv & Hf & Hx); simpl in Hwalk.
    + rewrite Hnode in Hwalk. simplify_eq. left. congruence.
    + rewrite Hnode in Hwalk. simpl in Hwalk.
      destruct (dict_get slot (requires node)) as [child|] eqn:Hget; [|done].
      simpl in Hwalk. apply dict_get_elem in Hget.
      pose proof Hget as [i Hi]%list_elem_of_lookup.
      destruct (Forall2_lookup_l _ _ _ _ _ Hall Hi) as (l & _ & deps & Hrec).
      right. exists (slot, child), deps, l. split; [done|]. split; [done|].
      apply (IH _ _ _ Hrec). by exists path, v, nd, a.
Qed.
End closure.

(** X10. The closure is the union of what the resolver finds for every
    node reachable from the start node: an artifact is in the set that
    [_gather_deps] returns exactly when the resolver returns it for the
    node at the end of some dependency path, the start node included. *)
Theorem gather_deps_closure (hash : string → Z) (func : string → Result PySet)
    (contents : gmap string LockNode) (limit : nat) (node_uid : string)
    (s : PySet) (log : list string) :
  graph_wf contents →
  _gather_deps hash func limit node_uid contents = (Ok s, log) →
  (∀ x, x ∈ s ↔
        ∃ path v node arts,
          walk contents node_uid path = Some v ∧ contents !! v = Some node
          ∧ func (pref node) = Ok arts ∧ x ∈ arts)
  ∧ ∃ node arts, contents !! node_uid = Some node
      ∧ func (pref node) = Ok arts ∧ ∀ x, x ∈ arts → x ∈ s.
Proof.
  intros Hwf Hrun.
  pose proof (gather_deps_elem hash func contents limit node_uid s log
                Hwf Hrun) as Helem.
  split; [done|].
  destruct limit as [|limit]; [done|].
  apply gather_deps_Ok_inv in Hrun as (node & arts & _ & Hnode & Hfunc & _).
  exists node, arts. split; [done|]. split; [done|]. intros x Hx.
  apply Helem. exists [], node_uid, node, arts. simpl. by rewrite Hnode.
Qed.

Lemma gather_deps_closure_witness :
  ∃ s log,
    _gather_deps sample_hash sample_func 1000 "1" diamond = (Ok s, log)
    ∧ mkArtifact "sha1 of libc/1.0" "md5" None (Some "libc/1.0 :: conanfile.py") ∈ s.
Proof.
  assert (Hwf : graph_wf diamond).
  { apply (bool_decide_unpack _). vm_compute. exact I. }
  assert (∃ s log, _gather_deps sample_hash sample_func 1000 "1" diamond
                   = (Ok s, log)) as (s & log & Hrun).
  { eexists _, _. vm_compute. reflexivity. }
  exists s, log. split; [done|].
  apply (proj1 (gather_deps_closure sample_hash sample_func diamond 1000 "1"
                  s log Hwf Hrun)).
  exists ["libc/1.0"], "3", (mkNode "libc/1.0" [] false).
  eexists. split; [vm_compute; reflexivity|].
  split; [vm_compute; reflexivity|].
  split; [reflexivity|]. left.
Defined.

(** ** When [_gather_deps] returns, and how it fails *)

Lemma for_each_traced_cons {A S} (x : A) xs (acc : S) body :
  for_each_traced (x :: xs) acc body =
    traced_bind (body x acc) (λ acc', for_each_traced xs acc' body).
Proof. reflexivity. Qed.

(** A loop whose iterations all end normally ends normally. *)
Lemma for_each_traced_total {A S} (xs : list A) (acc : S) body :
  (∀ x a, x ∈ xs → ∃ a' l, body x a = (Ok a', l)) →
  ∃ s log, for_each_traced xs acc body = (Ok s, log).
Proof.
  revert acc. induction xs as [|x xs IH]; intros acc Hbody.
  - by exists acc, [].
  - rewrite for_each_traced_cons.
    destruct (Hbody x acc ltac:(left)) as (a' & l & ->).
    destruct (IH a') as (s & log & Hrest).
    { intros y a Hy. apply Hbody. by right. }
    exists s, (l ++ log). simpl. by rewrite Hrest.
Qed.

(** A loop gives the same result with a body that returns what the
    first one returns. *)
Lemma for_each_traced_mono {A S} (xs : list A) (acc : S) body body' s log :
  (∀ x a a' l, x ∈ xs → body x a = (Ok a', l) → body' x a = (Ok a', l)) →
  for_each_traced xs acc body = (Ok s, log) →
  for_each_traced xs acc body' = (Ok s, log).
Proof.
  revert acc log. induction xs as [|x xs IH]; intros acc log Hbody; [done|].
  rewrite !for_each_traced_cons.
  intros (a' & l1 & l2 & Hx & Hrest & ->)%traced_bind_Ok.
  rewrite (Hbody x acc a' l1 ltac:(left) Hx). simpl.
  rewrite (IH a' l2); [done| |done].
  intros y a a'' l Hy. apply Hbody. by right.
Qed.

Section returns.
Variable hash : string → Z.
Variable func : string → Result PySet.
Variable contents : gmap string LockNode.

Lemma gather_deps_shallow limit node_uid :
  graph_wf contents → graph_closed contents → (∀ p, ∃ s, func p = Ok s) →
  is_Some (contents !! node_uid) →
  (∀ path v, walk contents node_uid path = Some v → length path < limit) →
  ∃ s log, _gather_deps hash func limit node_uid contents = (Ok s, log).
Proof.
  intros Hwf Hclosed Hfunc. revert node_uid.
  induction limit as [|limit IH]; intros node_uid [node Hnode] Hdepth.
  - specialize (Hdepth [] node_uid). simpl in Hdepth. rewrite Hnode in Hdepth.
    specialize (Hdepth eq_refl). simpl in Hdepth. lia.
  - rewrite gather_deps_S, Hnode. destruct (Hfunc (pref node)) as [arts ->].
    simpl.
    destruct (for_each_traced_total (requires node) arts
      (λ item artifacts,
         traced_bind (_gather_deps hash func limit item.2 contents)
           (λ deps, traced_ret (set_update hash artifacts deps))))
      as (s & log & Hloop).
    + intros [slot child] a Hin. simpl.
      destruct (IH child) as (deps & l & ->).
      * pose proof (map_Forall_lookup_1 _ _ _ _ Hclosed Hnode) as Hall.
        simpl in Hall. apply (proj1 (Forall_forall _ _) Hall).
        apply list_elem_of_fmap. by exists (slot, child).
      * intros path v Hwalk.
        specialize (Hdepth (slot :: path) v). simpl in Hdepth.
        rewrite Hnode in Hdepth. simpl in Hdepth.
        rewrite (dict_get_NoDup slot child) in Hdepth; [|by apply Hwf in Hnode|done].
        specialize (Hdepth Hwalk). simpl in Hdepth. lia.
      * simpl. by eexists _, _.
    + rewrite Hloop. by eexists _, _.
Qed.

Lemma first_failure_app s l1 r l2 :
  first_failure func (Ok s) l1 → first_failure func r l2 →
  first_failure func r (l1 ++ l2).
Proof.
  unfold first_failure. intros H1. destruct r as [s'|e].
  - intros H2. by apply Forall_app.
  - intros [[H2 He]|(log' & p & -> & H2 & Hp)].
    + left. split; [by apply Forall_app | done].
    + right. exists (l1 ++ log'), p. rewrite app_assoc.
      split; [done|]. split; [by apply Forall_app | done].
Qed.

Lemma gather_loop_first_failure limit (items : list (string * string)) acc log0 :
  (∀ node_uid, first_failure func
                 (_gather_deps hash func limit node_uid contents).1
                 (_gather_deps hash func limit node_uid contents).2) →
  Forall (λ p, ∃ s, func p = Ok s) log0 →
  first_failure func
    (for_each_traced items acc
       (λ item artifacts,
          traced_bind (_gather_deps hash func limit item.2 contents)
            (λ deps, traced_ret (set_update hash artifacts deps)))).1
    (log0 ++
     (for_each_traced items acc
       (λ item artifacts,
          traced_bind (_gather_deps hash func limit item.2 contents)
            (λ deps, traced_ret (set_update hash artifacts deps)))).2).
Proof.
  intros IH. revert acc log0.
  induction items as [|[slot child] items IHitems]; intros acc log0 Hlog0.
  - simpl. by rewrite app_nil_r.
  - rewrite for_each_traced_cons. simpl.
    specialize (IH child).
    destruct (_gather_deps hash func limit child contents) as [[deps|e] l].
    + simpl in *.
      specialize (IHitems (set_update hash acc deps) (log0 ++ l)
                    ltac:(by apply Forall_app)).
      destruct (for_each_traced items _ _) as [r l']. simpl in *.
      by rewrite app_nil_r, app_assoc.
    + change (first_failure func (Raise e) (log0 ++ l)).
      apply (first_failure_app acc); [exact Hlog0 | exact IH].
Qed.

Lemma gather_deps_first_failure limit node_uid :
  first_failure func (_gather_deps hash func limit node_uid contents).1
                (_gather_deps hash func limit node_uid contents).2.
Proof.
  revert node_uid. induction limit as [|limit IH]; intros node_uid.
  - left. split; [constructor | by left].
  - rewrite gather_deps_S. destruct (contents !! node_uid) as [node|].
    + destruct (func (pref node)) as [arts|e] eqn:Hf.
      * pose proof (gather_loop_first_failure limit (requires node) arts
                      [pref node] IH) as Hloop.
        simpl. destruct (for_each_traced _ _ _) as [r l]. simpl in *.
        apply Hloop. constructor; [by eexists | constructor].
      * simpl. right. exists [], (pref node). split; [done|].
        split; [constructor | done].
    + left. split; [constructor | by right].
Qed.
End returns.

(** X11. When every required node is in the graph and the resolver raises
    nothing, the traversal from a node of the graph returns a closure
    exactly when every dependency path from that node has fewer slots
    than the recursion limit allows. *)
Theorem gather_deps_returns (hash : string → Z) (func : string → Result PySet)
    (contents : gmap string LockNode) (limit : nat) (node_uid : string) :
  graph_wf contents → graph_closed contents → (∀ p, ∃ s, func p = Ok s) →
  is_Some (contents !! node_uid) →
  (∃ s log, _gather_deps hash func limit node_uid contents = (Ok s, log))
  ↔ ∀ path v, walk contents node_uid path = Some v → length path < limit.
Proof.
  intros Hwf Hclosed Hfunc Hnode. split.
  - intros (s & log & Hrun). by eapply gather_deps_Ok_depth.
  - by apply gather_deps_shallow.
Qed.

Lemma gather_deps_returns_witness :
  (∃ s log, _gather_deps sample_hash sample_func 3 "0" diamond = (Ok s, log))
  ↔ ∀ path v, walk diamond "0" path = Some v → length path < 3.
Proof.
  apply (gather_deps_returns sample_hash sample_func diamond 3 "0").
  - apply (bool_decide_unpack _). vm_compute. exact I.
  - apply (bool_decide_unpack _). vm_compute. exact I.
  - intros p. eexists. reflexivity.
  - vm_compute. by eexists.
Defined.

(** X12. The closure does not depend on the recursion limit: what the
    traversal returns under one limit, closure and calls of the resolver,
    it returns under every larger limit. *)
Theorem gather_deps_limit_irrelevant (hash : string → Z)
    (func : string → Result PySet) (contents : gmap string LockNode)
    (limit limit' : nat) (node_uid : string) (s : PySet) (log : list string) :
  (limit ≤ limit')%nat →
  _gather_deps hash func limit node_uid contents = (Ok s, log) →
  _gather_deps hash func limit' node_uid contents = (Ok s, log).
Proof.
  revert limit' node_uid s log.
  induction limit as [|limit IH]; intros limit' node_uid s log Hle;
    [by intros [=]|].
  destruct limit' as [|limit']; [lia|].
  rewrite !gather_deps_S. destruct (contents !! node_uid) as [node|]; [|done].
  intros (arts & l1 & l2 & Hf & Hloop & ->)%traced_bind_Ok.
  injection Hf as Hf <-. rewrite Hf. simpl.
  erewrite for_each_traced_mono; [done| |exact Hloop].
  intros item a a' l _. simpl.
  intros (deps & l3 & l4 & Hrec & Hret & ->)%traced_bind_Ok.
  rewrite (IH limit' _ _ _ ltac:(lia) Hrec). simpl.
  injection Hret as <- <-. done.
Qed.

Lemma gather_deps_limit_irrelevant_witness :
  ∃ s log, _gather_deps sample_hash sample_func 3 "0" diamond = (Ok s, log)
           ∧ _gather_deps sample_hash sample_func 1000 "0" diamond = (Ok s, log).
Proof.
  eexists _, _. split; [vm_compute; reflexivity|].
  apply (gather_deps_limit_irrelevant sample_hash sample_func diamond 3 1000).
  - lia.
  - vm_compute. reflexivity.
Defined.

(** X13. The traversal stops at the first failure. When it raises, every
    call of the resolver before the last one had succeeded, and either the
    last call of the resolver raised that exception, or all calls
    succeeded and the exception is [RecursionError] (the recursion limit)
    or [TypeError] (a required node that the graph lacks). *)
Theorem gather_deps_raises (hash : string → Z) (func : string → Result PySet)
    (contents : gmap string LockNode) (limit : nat) (node_uid : string)
    (e : exn) (log : list string) :
  _gather_deps hash func limit node_uid contents = (Raise e, log) →
  (Forall (λ p, ∃ s, func p = Ok s) log
   ∧ (e = RecursionError ∨ e = TypeError))
  ∨ ∃ log' p, log = log' ++ [p]
              ∧ Forall (λ p, ∃ s, func p = Ok s) log'
              ∧ func p = Raise e.
Proof.
  intros Hrun.
  pose proof (gather_deps_first_failure hash func contents limit node_uid) as H.
  by rewrite Hrun in H.
Qed.

Lemma gather_deps_raises_witness :
  (Forall (λ p, ∃ s, refused_func p = Ok s) ["root/1.0"; "liba/1.0"; "libc/1.0"]
   ∧ (AuthenticationException "401" = RecursionError
      ∨ AuthenticationException "401" = TypeError))
  ∨ ∃ log' p, ["root/1.0"; "liba/1.0"; "libc/1.0"] = log' ++ [p]
              ∧ Forall (λ p, ∃ s, refused_func p = Ok s) log'
              ∧ refused_func p = Raise (AuthenticationException "401").
Proof.
  apply (gather_deps_raises sample_hash refused_func diamond 1000 "0").
  vm_compute. reflexivity.
Defined.

(** ** Splitting strings and parsing references *)

Lemma str_app_cons c (a b : string) : String c a +:+ b = String c (a +:+ b).
Proof. reflexivity. Qed.

Lemma str_app_nil_l (a : string) : "" +:+ a = a.
Proof. reflexivity. Qed.

Lemma str_app_nil_r (a : string) : a +:+ "" = a.
Proof. induction a as [|x a IH]; [done|]. by rewrite str_app_cons, IH. Qed.

Lemma str_app_assoc (a b c : string) : (a +:+ b) +:+ c = a +:+ (b +:+ c).
Proof.
  induction a as [|x a IH]; [done|]. by rewrite !str_app_cons, IH.
Qed.

Ltac str_norm :=
  repeat (rewrite str_app_assoc || rewrite str_app_cons
          || rewrite str_app_nil_l || rewrite str_app_nil_r).

Lemma has_char_app sep a b :
  has_char sep (a +:+ b) = has_char sep a || has_char sep b.
Proof.
  induction a as [|x a IH]; [done|].
  rewrite str_app_cons. simpl. by rewrite IH, orb_assoc.
Qed.

Lemma str_split_nonempty sep s : str_split sep s ≠ [].
Proof.
  destruct s as [|c s]; simpl; [done|].
  destruct (Ascii.eqb c sep); [done|]. by destruct (str_split sep s).
Qed.

(** No piece holds the separator. *)
Lemma str_split_pieces sep s :
  Forall (λ p, has_char sep p = false) (str_split sep s).
Proof.
  induction s as [|c s IH]; simpl; [by repeat constructor|].
  destruct (Ascii.eqb c sep) eqn:Hc; [by constructor|].
  pose proof (str_split_nonempty sep s).
  destruct (str_split sep s) as [|p ps]; [done|].
  apply Forall_cons in IH as [Hp Hps]. constructor; [|done].
  simpl. by rewrite Hc.
Qed.

(** A string without the separator is one piece. *)
Lemma str_split_free sep s : has_char sep s = false → str_split sep s = [s].
Proof.
  induction s as [|c s IH]; simpl; [done|].
  destruct (Ascii.eqb c sep); simpl; [done|]. by intros ->%IH.
Qed.

(** The first piece ends at the first separator. *)
Lemma str_split_app sep a b :
  has_char sep a = false →
  str_split sep (a +:+ String sep b) = a :: str_split sep b.
Proof.
  induction a as [|c a IH]; rewrite ?str_app_cons, ?str_app_nil_l; simpl.
  - by rewrite Ascii.eqb_refl.
  - destruct (Ascii.eqb c sep); simpl; [done|]. by intros ->%IH.
Qed.

(** What [split] returns: the first piece has no separator, and either it
    is the whole string, or a separator follows it and the other pieces
    are those of what follows. *)
Lemma str_split_inv sep s :
  ∃ p ps, str_split sep s = p :: ps ∧ has_char sep p = false
    ∧ (ps = [] ∧ s = p
       ∨ ∃ rest, s = p +:+ String sep rest ∧ str_split sep rest = ps).
Proof.
  induction s as [|c s (p & ps & Hsplit & Hfree & Hshape)]; simpl.
  - exists "", []. split; [done|]. split; [done|]. by left.
  - destruct (Ascii.eqb_spec c sep) as [->|Hne].
    + exists "", (str_split sep s). split; [done|]. split; [done|].
      right. by exists s.
    + rewrite Hsplit. exists (String c p), ps. split; [done|]. split.
      * simpl. by rewrite (proj2 (Ascii.eqb_neq _ _) Hne).
      * destruct Hshape as [[-> ->]|(rest & -> & Hrest)]; [by left|].
        right. by exists rest.
Qed.

Lemma Res_bind_inv {A B} (m : Res A) (f : A → Res B) b :
  m ≫= f = Ret b → ∃ a, m = Ret a ∧ f a = Ret b.
Proof. destruct m as [a|e]; [by exists a | done]. Qed.

(** The three parts that [parse_pref] takes from a revision field. *)
Lemma revision_parts revision rrev pid prev :
  (str_split ":" <$> str_split "#" revision !! 0) ≫= (.!! 0) = Some rrev
  ∧ (str_split ":" <$> str_split "#" revision !! 0) ≫= (.!! 1) = Some pid
  ∧ str_split "#" revision !! 1 = Some prev
  ↔ ∃ t1 t2,
      revision = rrev +:+ ":" +:+ pid +:+ t1 +:+ "#" +:+ prev +:+ t2
      ∧ has_char "#" rrev = false ∧ has_char ":" rrev = false
      ∧ has_char "#" pid = false ∧ has_char ":" pid = false
      ∧ has_char "#" prev = false ∧ has_char "#" t1 = false
      ∧ (t1 = "" ∨ ∃ t, t1 = ":" +:+ t)
      ∧ (t2 = "" ∨ ∃ t, t2 = "#" +:+ t).
Proof.
  split.
  - intros (Hrrev & Hpid & Hprev).
    destruct (str_split_inv "#" revision)
      as (x & ps & Hx & Hxfree & [[-> ->]|(rest & -> & Hps)]);
      rewrite Hx in Hrrev, Hpid, Hprev; simpl in *; [done|].
    destruct (str_split_inv "#" rest)
      as (prev' & ps' & Hrest & Hprevfree & Ht2).
    rewrite <- Hps, Hrest in Hprev. simpl in Hprev.
    injection Hprev as ->.
    destruct (str_split_inv ":" x)
      as (rrev' & qs & Hsx & Hrrevfree & [[-> ->]|(rest2 & -> & Hqs)]);
      rewrite Hsx in Hrrev, Hpid; simpl in *; [done|].
    injection Hrrev as ->.
    destruct (str_split_inv ":" rest2)
      as (pid' & qs' & Hrest2 & Hpidfree & Ht1).
    rewrite <- Hqs, Hrest2 in Hpid. simpl in Hpid. injection Hpid as ->.
    rewrite has_char_app in Hxfree. simpl in Hxfree.
    apply orb_false_elim in Hxfree as [Hr Hrest2free].
    assert (∃ t1, rest2 = pid +:+ t1 ∧ (t1 = "" ∨ ∃ t, t1 = ":" +:+ t))
      as (t1 & -> & Ht1shape).
    { destruct Ht1 as [[_ ->]|(t & -> & _)].
      - exists "". split; [|by left]. by rewrite str_app_nil_r.
      - exists (":" +:+ t). split; [done|]. right. by exists t. }
    assert (∃ t2, rest = prev +:+ t2 ∧ (t2 = "" ∨ ∃ t, t2 = "#" +:+ t))
      as (t2 & -> & Ht2shape).
    { destruct Ht2 as [[_ ->]|(t & -> & _)].
      - exists "". split; [|by left]. by rewrite str_app_nil_r.
      - exists ("#" +:+ t). split; [done|]. right. by exists t. }
    rewrite has_char_app in Hrest2free.
    apply orb_false_elim in Hrest2free as [Hp Ht1free].
    exists t1, t2. repeat split; try done. by str_norm.
  - intros (t1 & t2 & -> & Hr1 & Hr2 & Hp1 & Hp2 & Hv & Ht1 & Ht1s & Ht2s).
    assert (Hfirst : str_split "#"
              (rrev +:+ ":" +:+ pid +:+ t1 +:+ "#" +:+ prev +:+ t2)
              = (rrev +:+ ":" +:+ pid +:+ t1) :: str_split "#" (prev +:+ t2)).
    { rewrite <- (str_split_app "#" (rrev +:+ ":" +:+ pid +:+ t1) (prev +:+ t2)).
      - f_equal. by str_norm.
      - rewrite !has_char_app. simpl. by rewrite Hr1, Hp1, Ht1. }
    assert (Hsecond : str_split "#" (prev +:+ t2) !! 0 = Some prev).
    { destruct Ht2s as [->|[t ->]].
      - rewrite str_app_nil_r. by rewrite str_split_free.
      - str_norm. by rewrite str_split_app. }
    assert (Hx : str_split ":" (rrev +:+ ":" +:+ pid +:+ t1)
                 = rrev :: str_split ":" (pid +:+ t1)).
    { rewrite <- (str_split_app ":" rrev (pid +:+ t1)) by done.
      f_equal. }
    assert (Hy : str_split ":" (pid +:+ t1) !! 0 = Some pid).
    { destruct Ht1s as [->|[t ->]].
      - rewrite str_app_nil_r. by rewrite str_split_free.
      - str_norm. by rewrite str_split_app. }
    rewrite Hfirst. simpl. rewrite Hx. simpl. done.
Qed.

Lemma str_split_second sep s :
  str_split sep s !! 1 = None ↔ has_char sep s = false.
Proof.
  split.
  - destruct (str_split_inv sep s)
      as (p & ps & Hs & Hfree & [[-> ->]|(rest & -> & Hps)]); [done|].
    rewrite Hs. simpl. pose proof (str_split_nonempty sep rest).
    destruct ps; [congruence | done].
  - intros H. by rewrite str_split_free.
Qed.

Lemma str_split_first sep s :
  ∃ p, str_split sep s !! 0 = Some p.
Proof.
  pose proof (str_split_nonempty sep s). destruct (str_split sep s); [done|].
  by eexists.
Qed.

Section reference_lemmas.
Variable loads : string → Res Ref.

Lemma parse_pref_eq pref ref revision :
  loads pref = Ret ref → ref_revision ref = Some revision →
  parse_pref loads pref =
    match (str_split ":" <$> str_split "#" revision !! 0) ≫= (.!! 1),
          str_split "#" revision !! 1 with
    | Some pid, Some prev =>
        Ret (mkPref (ref_name ref) (ref_version ref) (ref_user ref)
               (ref_channel ref)
               (default "" ((str_split ":" <$> str_split "#" revision !! 0)
                              ≫= (.!! 0)))
               pid prev)
    | _, _ => Throw IndexError
    end.
Proof.
  intros Hl Hrev. unfold parse_pref. rewrite Hl. simpl. rewrite Hrev.
  destruct (str_split_first "#" revision) as [x Hx].
  unfold list_getitem. rewrite Hx. simpl.
  destruct (str_split_first ":" x) as [rrev Hr]. rewrite Hr. simpl.
  destruct (str_split ":" x !! 1) as [pid|]; simpl; [|done].
  by destruct (str_split "#" revision !! 1).
Qed.
End reference_lemmas.

(** X14. What [parse_pref] returns: name, version, user and channel are
    those of the loaded reference, and the revision field of that
    reference reads [rrev:pid#prev], possibly followed by more: [rrev]
    and [pid] hold neither [:] nor [#], [prev] holds no [#], what follows
    [pid] up to the [#] starts with [:], and what follows [prev] starts
    with [#]; both are ignored. Conversely every such revision field is
    parsed into these parts. *)
Theorem parse_pref_spec (loads : string → Res Ref) (pref : string)
    (ref : Ref) (r : Pref) :
  loads pref = Ret ref →
  parse_pref loads pref = Ret r ↔
    p_name r = ref_name ref ∧ p_version r = ref_version ref
    ∧ p_user r = ref_user ref ∧ p_channel r = ref_channel ref
    ∧ ∃ t1 t2,
        ref_revision ref =
          Some (p_rrev r +:+ ":" +:+ p_pid r +:+ t1 +:+ "#" +:+ p_prev r +:+ t2)
        ∧ has_char "#" (p_rrev r) = false ∧ has_char ":" (p_rrev r) = false
        ∧ has_char "#" (p_pid r) = false ∧ has_char ":" (p_pid r) = false
        ∧ has_char "#" (p_prev r) = false ∧ has_char "#" t1 = false
        ∧ (t1 = "" ∨ ∃ t, t1 = ":" +:+ t)
        ∧ (t2 = "" ∨ ∃ t, t2 = "#" +:+ t).
Proof.
  intros Hl. split.
  - intros Hp.
    destruct (ref_revision ref) as [revision|] eqn:Hrev.
    + rewrite (parse_pref_eq loads pref ref revision Hl Hrev) in Hp.
      destruct (str_split_first "#" revision) as [x Hx].
      destruct (str_split_first ":" x) as [rrev Hr].
      rewrite Hx in Hp. simpl in Hp. rewrite Hr in Hp. simpl in Hp.
      destruct (str_split ":" x !! 1) as [pid|] eqn:Hpid; [|done].
      destruct (str_split "#" revision !! 1) as [prev|] eqn:Hprev; [|done].
      injection Hp as <-. simpl. repeat (split; [done|]).
      destruct (proj1 (revision_parts revision rrev pid prev))
        as (t1 & t2 & -> & H); [|by exists t1, t2].
      rewrite Hx. simpl. by rewrite Hr, Hpid.
    + unfold parse_pref in Hp. rewrite Hl in Hp. simpl in Hp.
      by rewrite Hrev in Hp.
  - intros (Hn & Hv & Hu & Hc & t1 & t2 & Hrev & H).
    rewrite (parse_pref_eq loads pref ref _ Hl Hrev).
    destruct (proj2 (revision_parts
                (p_rrev r +:+ ":" +:+ p_pid r +:+ t1 +:+ "#" +:+ p_prev r +:+ t2)
                (p_rrev r) (p_pid r) (p_prev r)))
      as (H1 & H2 & H3); [by exists t1, t2|].
    rewrite H1, H2, H3. simpl. destruct r. simpl in *. congruence.
Qed.

Lemma parse_pref_spec_witness :
  parse_pref sample_loads "zlib#3fa1:5ab8#77c2"
  = Ret (mkPref (Some "zlib") (Some "1.0") (Some "user") (Some "stable")
           "3fa1" "5ab8" "77c2")
  ↔ Some "zlib" = Some "zlib" ∧ Some "1.0" = Some "1.0"
    ∧ Some "user" = Some "user" ∧ Some "stable" = Some "stable"
    ∧ ∃ t1 t2,
        Some "3fa1:5ab8#77c2" =
          Some ("3fa1" +:+ ":" +:+ "5ab8" +:+ t1 +:+ "#" +:+ "77c2" +:+ t2)
        ∧ has_char "#" "3fa1" = false ∧ has_char ":" "3fa1" = false
        ∧ has_char "#" "5ab8" = false ∧ has_char ":" "5ab8" = false
        ∧ has_char "#" "77c2" = false ∧ has_char "#" t1 = false
        ∧ (t1 = "" ∨ ∃ t, t1 = ":" +:+ t)
        ∧ (t2 = "" ∨ ∃ t, t2 = "#" +:+ t).
Proof.
  apply (parse_pref_spec sample_loads "zlib#3fa1:5ab8#77c2"
           (mkRef (Some "zlib") (Some "1.0") (Some "user") (Some "stable")
              (Some "3fa1:5ab8#77c2"))
           (mkPref (Some "zlib") (Some "1.0") (Some "user") (Some "stable")
              "3fa1" "5ab8" "77c2")).
  vm_compute. reflexivity.
Defined.

(** X15. How [parse_pref] fails on a reference that was loaded: with
    [AttributeError] exactly when the reference has no revision, with
    [IndexError] exactly when the revision holds no [#] or holds no [:]
    before its first [#], and with nothing else. *)
Theorem parse_pref_errors (loads : string → Res Ref) (pref : string)
    (ref : Ref) :
  loads pref = Ret ref →
  (parse_pref loads pref = Throw AttributeError ↔ ref_revision ref = None)
  ∧ (parse_pref loads pref = Throw IndexError ↔
       ∃ revision, ref_revision ref = Some revision
         ∧ (has_char "#" revision = false
            ∨ ∃ x, str_split "#" revision !! 0 = Some x
                   ∧ has_char ":" x = false))
  ∧ ∀ e, parse_pref loads pref = Throw e →
         e = AttributeError ∨ e = IndexError.
Proof.
  intros Hl. destruct (ref_revision ref) as [revision|] eqn:Hrev.
  - rewrite (parse_pref_eq loads pref ref revision Hl Hrev).
    destruct (str_split_first "#" revision) as [x Hx]. rewrite Hx. simpl.
    pose proof (str_split_second ":" x) as Hcolon.
    pose proof (str_split_second "#" revision) as Hhash.
    destruct (str_split ":" x !! 1) as [pid|];
      destruct (str_split "#" revision !! 1) as [prev|].
    + split; [done|]. split; [|done]. split; [done|].
      intros (rev' & [= <-] & [H|(x' & Hx' & H)]).
      * apply Hhash in H. done.
      * rewrite Hx in Hx'. injection Hx' as <-. apply Hcolon in H. done.
    + split; [done|]. split; [|intros e [= <-]; by right]. split; [|done].
      intros _. exists revision. split; [done|]. left. by apply Hhash.
    + split; [done|]. split; [|intros e [= <-]; by right]. split; [|done].
      intros _. exists revision. split; [done|]. right. exists x.
      split; [done|]. by apply Hcolon.
    + split; [done|]. split; [|intros e [= <-]; by right]. split; [|done].
      intros _. exists revision. split; [done|]. left. by apply Hhash.
  - unfold parse_pref. rewrite Hl. simpl. rewrite Hrev.
    split; [done|]. split; [|intros e [= <-]; by left].
    split; [done|]. by intros (rev' & [=] & _).
Qed.

Lemma parse_pref_errors_witness :
  (parse_pref sample_loads "zlib#3fa1-5ab8" = Throw AttributeError ↔
     Some "3fa1-5ab8" = None)
  ∧ (parse_pref sample_loads "zlib#3fa1-5ab8" = Throw IndexError ↔
       ∃ revision, Some "3fa1-5ab8" = Some revision
         ∧ (has_char "#" revision = false
            ∨ ∃ x, str_split "#" revision !! 0 = Some x
                   ∧ has_char ":" x = false))
  ∧ ∀ e, parse_pref sample_loads "zlib#3fa1-5ab8" = Throw e →
         e = AttributeError ∨ e = IndexError.
Proof.
  apply (parse_pref_errors sample_loads "zlib#3fa1-5ab8"
           (mkRef (Some "zlib") (Some "1.0") (Some "user") (Some "stable")
              (Some "3fa1-5ab8"))).
  vm_compute. reflexivity.
Defined.

(** A string followed by [:] and a part without [:] determines both. *)
Lemma str_app_sep_inj sep (a b p q : string) :
  has_char sep p = false → has_char sep q = false →
  a +:+ String sep p = b +:+ String sep q → a = b ∧ p = q.
Proof.
  intros Hp Hq. revert b. induction a as [|c a IH]; intros [|c' b];
    rewrite ?str_app_cons, ?str_app_nil_l.
  - by intros [= ->].
  - intros [= <- ->]. rewrite has_char_app in Hp. simpl in Hp.
    rewrite Ascii.eqb_refl in Hp. simpl in Hp.
    by rewrite orb_true_r in Hp.
  - intros [= -> <-]. rewrite has_char_app in Hq. simpl in Hq.
    rewrite Ascii.eqb_refl in Hq. simpl in Hq.
    by rewrite orb_true_r in Hq.
  - intros [= -> H]. by destruct (IH _ H) as [-> ->].
Qed.

Lemma str_app_length (a b : string) :
  String.length (a +:+ b) = (String.length a + String.length b)%nat.
Proof.
  induction a as [|c a IH]; [done|]. rewrite str_app_cons. simpl. by rewrite IH.
Qed.

Section package_reference.
Variable loads : string → Res Ref.

Lemma get_reference_eq pref r :
  parse_pref loads pref = Ret r →
  _get_reference loads pref = Ret (format_reference r).
Proof. intros H. unfold _get_reference. by rewrite H. Qed.

Lemma get_package_reference_eq pref r :
  parse_pref loads pref = Ret r →
  _get_package_reference loads pref
  = Ret (format_reference r +:+ ":" +:+ p_pid r).
Proof.
  intros H. unfold _get_package_reference.
  rewrite H. simpl. by rewrite (get_reference_eq pref r H).
Qed.

Lemma parse_pref_pid_free pref r :
  parse_pref loads pref = Ret r → has_char ":" (p_pid r) = false.
Proof.
  intros H. pose proof H as (ref & Hl & Hrest)%Res_bind_inv.
  destruct (ref_revision ref) as [revision|] eqn:Hrev; [|done].
  rewrite (parse_pref_eq loads pref ref revision Hl Hrev) in H.
  destruct (str_split_first "#" revision) as [x Hx].
  rewrite Hx in H. simpl in H.
  destruct (str_split ":" x !! 1) as [pid|] eqn:Hpid; [|done].
  destruct (str_split "#" revision !! 1) as [prev|]; [|done].
  injection H as <-. simpl.
  apply list_elem_of_lookup_2 in Hpid.
  by apply (proj1 (Forall_forall _ _) (str_split_pieces ":" x)).
Qed.
End package_reference.

(** X16. The keys of the modules. For a pref that parses, the package
    reference is the reference, a [:] and the package id; it is never the
    reference itself; and two prefs have the same package reference
    exactly when they have the same reference and the same package id. *)
Theorem package_reference_key (loads : string → Res Ref)
    (pref1 pref2 : string) (r1 r2 : Pref) :
  parse_pref loads pref1 = Ret r1 → parse_pref loads pref2 = Ret r2 →
  _get_package_reference loads pref1
    = Ret (format_reference r1 +:+ ":" +:+ p_pid r1)
  ∧ _get_package_reference loads pref1 ≠ _get_reference loads pref1
  ∧ (_get_package_reference loads pref1 = _get_package_reference loads pref2
     ↔ _get_reference loads pref1 = _get_reference loads pref2
       ∧ p_pid r1 = p_pid r2).
Proof.
  intros H1 H2.
  rewrite (get_package_reference_eq loads pref1 r1 H1),
    (get_package_reference_eq loads pref2 r2 H2),
    (get_reference_eq loads pref1 r1 H1), (get_reference_eq loads pref2 r2 H2).
  split; [done|]. split.
  - intros [= H]. apply (f_equal String.length) in H.
    rewrite !str_app_length in H. simpl in H. lia.
  - split.
    + intros [= H]. rewrite !str_app_cons, !str_app_nil_l in H.
      apply str_app_sep_inj in H as [-> ->];
        [done | by eapply parse_pref_pid_free..].
    + by intros [[= ->] ->].
Qed.

Lemma package_reference_key_witness :
  _get_package_reference sample_loads "zlib#3fa1:5ab8#77c2"
    = Ret ("zlib/1.0@user/stable" +:+ ":" +:+ "5ab8")
  ∧ _get_package_reference sample_loads "zlib#3fa1:5ab8#77c2"
    ≠ _get_reference sample_loads "zlib#3fa1:5ab8#77c2"
  ∧ (_get_package_reference sample_loads "zlib#3fa1:5ab8#77c2"
     = _get_package_reference sample_loads "zlib#0000:5ab8#1111"
     ↔ _get_reference sample_loads "zlib#3fa1:5ab8#77c2"
       = _get_reference sample_loads "zlib#0000:5ab8#1111"
       ∧ "5ab8" = "5ab8").
Proof.
  apply (package_reference_key sample_loads
           "zlib#3fa1:5ab8#77c2" "zlib#0000:5ab8#1111"
           (mkPref (Some "zlib") (Some "1.0") (Some "user") (Some "stable")
              "3fa1" "5ab8" "77c2")
           (mkPref (Some "zlib") (Some "1.0") (Some "user") (Some "stable")
              "0000" "5ab8" "1111")).
  - vm_compute. reflexivity.
  - vm_compute. reflexivity.
Defined.

(** ** The modules that [process_lockfile] builds *)

Lemma dict_get_setitem {V} k k' (v : V) d :
  dict_get k' (dict_setitem k v d)
  = if String.eqb k k' then Some v else dict_get k' d.
Proof.
  induction d as [|[k0 v0] d IH]; simpl.
  - by rewrite String.eqb_sym.
  - destruct (String.eqb_spec k0 k) as [->|Hne]; simpl.
    + by destruct (String.eqb_spec k k').
    + rewrite IH. destruct (String.eqb_spec k0 k') as [->|Hne'];
        [|done]. by rewrite (proj2 (String.eqb_neq k k')).
Qed.

Lemma module_at_modify k k' f modules :
  module_at k' (modules_modify k f modules)
  = if String.eqb k k' then f (module_at k modules) else module_at k' modules.
Proof.
  unfold module_at at 1, modules_modify. rewrite dict_get_setitem.
  by destruct (String.eqb k k').
Qed.

Lemma keys_modify k f modules x :
  x ∈ dict_keys (modules_modify k f modules) ↔ x = k ∨ x ∈ dict_keys modules.
Proof. apply dict_keys_setitem. Qed.

Lemma NoDup_modify k f modules :
  NoDup (dict_keys modules) → NoDup (dict_keys (modules_modify k f modules)).
Proof. apply NoDup_keys_setitem. Qed.

Lemma lift_Ret {A} (r : Result A) a : lift r = Ret a ↔ r = Ok a.
Proof. destruct r; simpl; split; congruence. Qed.

Lemma for_each_res_cons {A S} (x : A) xs (acc : S) body :
  for_each_res (x :: xs) acc body
  = body x acc ≫= λ acc', for_each_res xs acc' body.
Proof. reflexivity. Qed.

Lemma module_at_elem k m modules :
  NoDup (dict_keys modules) → (k, m) ∈ modules → module_at k modules = m.
Proof.
  intros Hnd Hin. unfold module_at. by rewrite (dict_get_NoDup k m).
Qed.

(** A change of one field of an entry leaves the other fields of all
    entries as they were. *)
Lemma module_at_modify_proj {B} (proj : SetModule → B) k0 f k modules :
  (∀ x, proj (f x) = proj x) →
  proj (module_at k (modules_modify k0 f modules)) = proj (module_at k modules).
Proof.
  intros Hf. rewrite module_at_modify.
  destruct (String.eqb_spec k0 k) as [->|]; [apply Hf | done].
Qed.

Section process_lockfile_lemmas.
Variable hash : string → Z.
Variable loads : string → Res Ref.
Variable multi_module : bool.
Variable recipe_artifacts : string → bool → bool → Result PySet.
Variable package_artifacts : string → bool → bool → Result PySet.
Variable limit : nat.
Variable contents : gmap string LockNode.

Local Abbreviation recipe_deps child :=
  (_gather_deps hash (λ p, recipe_artifacts p true true) limit child contents).1.
Local Abbreviation package_deps child :=
  (_gather_deps hash (λ p, package_artifacts p true true) limit child contents).1.
Local Abbreviation require_body rk pk :=
  (process_require hash recipe_artifacts package_artifacts limit contents rk pk).
Local Abbreviation node_body :=
  (process_node hash loads multi_module recipe_artifacts package_artifacts
     limit contents).

Lemma dependencies_modify k0 d k a modules :
  a ∈ sm_dependencies
        (module_at k (modules_modify k0 (update_dependencies hash d) modules))
  ↔ a ∈ sm_dependencies (module_at k modules) ∨ (k = k0 ∧ a ∈ d).
Proof.
  rewrite module_at_modify. destruct (String.eqb_spec k0 k) as [->|Hne]; simpl.
  - rewrite elem_of_set_update. tauto.
  - split; [by left|]. intros [?|[-> _]]; done.
Qed.

Lemma artifacts_modify k0 d k a modules :
  a ∈ sm_artifacts
        (module_at k (modules_modify k0 (update_artifacts hash d) modules))
  ↔ a ∈ sm_artifacts (module_at k modules) ∨ (k = k0 ∧ a ∈ d).
Proof.
  rewrite module_at_modify. destruct (String.eqb_spec k0 k) as [->|Hne]; simpl.
  - rewrite elem_of_set_update. tauto.
  - split; [by left|]. intros [?|[-> _]]; done.
Qed.

(** The inner loop changes the dependencies of the two modules of the
    node, and nothing else. *)
Lemma process_requires_spec rk pk items modules modules' :
  for_each_res items modules (require_body rk pk) = Ret modules' →
  rk ∈ dict_keys modules → pk ∈ dict_keys modules →
  NoDup (dict_keys modules) →
  NoDup (dict_keys modules')
  ∧ (∀ k, k ∈ dict_keys modules' ↔ k ∈ dict_keys modules)
  ∧ (∀ k, sm_id (module_at k modules') = sm_id (module_at k modules))
  ∧ (∀ k, sm_artifacts (module_at k modules')
          = sm_artifacts (module_at k modules))
  ∧ (∀ k a, a ∈ sm_dependencies (module_at k modules') ↔
       a ∈ sm_dependencies (module_at k modules)
       ∨ ∃ item, item ∈ items
           ∧ ((k = rk ∧ ∃ s, recipe_deps item.2 = Ok s ∧ a ∈ s)
              ∨ (k = pk ∧ ∃ s, package_deps item.2 = Ok s ∧ a ∈ s))).
Proof.
  revert modules. induction items as [|item items IH]; intros modules.
  - intros [= <-] _ _ Hnd. repeat split; try done; [by left|].
    intros [?|(? & []%elem_of_nil & _)]. done.
  - rewrite for_each_res_cons.
    intros (m1 & Hbody & Hrest)%Res_bind_inv Hrk Hpk Hnd.
    unfold process_require in Hbody.
    apply Res_bind_inv in Hbody as (d1 & Hd1%lift_Ret & Hbody).
    apply Res_bind_inv in Hbody as (d2 & Hd2%lift_Ret & [= <-]).
    destruct (IH _ Hrest) as (Hnd' & Hkeys & Hids & Harts & Hdeps).
    { apply keys_modify. right. apply keys_modify. by right. }
    { apply keys_modify. by left. }
    { by do 2 apply NoDup_modify. }
    split; [done|]. split; [|split; [|split]].
    + intros k. rewrite Hkeys, !keys_modify.
      split; [intros [->|[->|?]]; done | by right; right].
    + intros k. rewrite Hids.
      by rewrite !(module_at_modify_proj sm_id).
    + intros k. rewrite Harts.
      by rewrite !(module_at_modify_proj sm_artifacts).
    + intros k a. rewrite Hdeps, !dependencies_modify. split.
      * intros [[[?|[-> Ha]]|[-> Ha]]|(it & Hin & H)]; [by left| | |].
        -- right. exists item. split; [left|]. left. eauto.
        -- right. exists item. split; [left|]. right. eauto.
        -- right. exists it. split; [by right | done].
      * intros [?|(it & [->|Hin]%elem_of_cons & H)]; [by left; left; left| |].
        -- destruct H as [(-> & s & Hs & Ha)|(-> & s & Hs & Ha)].
           ++ left. left. right. split; [done|]. congruence.
           ++ left. right. split; [done|]. congruence.
        -- right. by exists it.
Qed.

Lemma id_modify k0 k modules :
  sm_id (module_at k (modules_modify k0 (set_id k0) modules))
  = if String.eqb k0 k then Some k0 else sm_id (module_at k modules).
Proof. rewrite module_at_modify. by destruct (String.eqb k0 k). Qed.

(** What the body of the outer loop does with a modified node. *)
Lemma process_node_spec node modules modules' :
  node_body node modules = Ret modules' → modified node = true →
  NoDup (dict_keys modules) →
  ∃ rk pk rarts parts,
    _get_reference loads (pref node) = Ret rk
    ∧ package_key loads multi_module (pref node) = Ret pk
    ∧ recipe_artifacts (pref node) (negb multi_module) false = Ok rarts
    ∧ package_artifacts (pref node) (negb multi_module) false = Ok parts
    ∧ NoDup (dict_keys modules')
    ∧ (∀ k, k ∈ dict_keys modules' ↔ k = rk ∨ k = pk ∨ k ∈ dict_keys modules)
    ∧ (∀ k, k = rk ∨ k = pk → sm_id (module_at k modules') = Some k)
    ∧ (∀ k, k ≠ rk → k ≠ pk →
            sm_id (module_at k modules') = sm_id (module_at k modules))
    ∧ (∀ k a, a ∈ sm_artifacts (module_at k modules') ↔
         a ∈ sm_artifacts (module_at k modules)
         ∨ (k = rk ∧ a ∈ rarts) ∨ (k = pk ∧ a ∈ parts))
    ∧ (∀ k a, a ∈ sm_dependencies (module_at k modules') ↔
         a ∈ sm_dependencies (module_at k modules)
         ∨ ∃ item, item ∈ requires node
             ∧ ((k = rk ∧ ∃ s, recipe_deps item.2 = Ok s ∧ a ∈ s)
                ∨ (k = pk ∧ ∃ s, package_deps item.2 = Ok s ∧ a ∈ s))).
Proof.
  unfold process_node. intros Hbody Hmod Hnd. rewrite Hmod in Hbody.
  apply Res_bind_inv in Hbody as (rk & Hrk & Hbody).
  apply Res_bind_inv in Hbody as (rarts & Hrarts%lift_Ret & Hbody).
  apply Res_bind_inv in Hbody as (pk & Hpk & Hbody).
  apply Res_bind_inv in Hbody as (parts & Hparts%lift_Ret & Hbody).
  exists rk, pk, rarts, parts. split; [done|]. split.
  { unfold package_key. destruct multi_module; [done|]. by injection Hpk as <-. }
  split; [done|]. split; [done|].
  set (m4 := modules_modify pk (update_artifacts hash parts)
               (modules_modify pk (set_id pk)
                  (modules_modify rk (update_artifacts hash rarts)
                     (modules_modify rk (set_id rk) modules)))) in *.
  assert (Hloop : for_each_res (requires node) m4 (require_body rk pk)
                  = Ret modules').
  { by destruct (requires node). }
  clear Hbody.
  destruct (process_requires_spec rk pk _ _ _ Hloop)
    as (Hnd' & Hkeys & Hids & Harts & Hdeps).
  { unfold m4. rewrite !keys_modify. right. right. right. by left. }
  { unfold m4. rewrite !keys_modify. by left. }
  { unfold m4. by do 4 apply NoDup_modify. }
  split; [done|]. split; [|split; [|split; [|split]]].
  - intros k. rewrite Hkeys. unfold m4. rewrite !keys_modify. tauto.
  - intros k Hk. rewrite Hids. unfold m4.
    rewrite (module_at_modify_proj sm_id) by done. rewrite id_modify.
    destruct (String.eqb_spec pk k) as [->|Hne]; [done|].
    destruct Hk as [->| ->]; [|done].
    rewrite (module_at_modify_proj sm_id) by done. rewrite id_modify.
    by rewrite String.eqb_refl.
  - intros k Hk1 Hk2. rewrite Hids. unfold m4.
    rewrite (module_at_modify_proj sm_id) by done. rewrite id_modify.
    rewrite (proj2 (String.eqb_neq pk k)) by done.
    rewrite (module_at_modify_proj sm_id) by done. rewrite id_modify.
    by rewrite (proj2 (String.eqb_neq rk k)) by done.
  - intros k a. rewrite Harts. unfold m4. rewrite artifacts_modify.
    rewrite (module_at_modify_proj sm_artifacts) by done.
    rewrite artifacts_modify.
    rewrite (module_at_modify_proj sm_artifacts) by done. tauto.
  - intros k a. rewrite Hdeps. unfold m4.
    by rewrite !(module_at_modify_proj sm_dependencies) by done.
Qed.

Local Abbreviation modules_inv :=
  (modules_of hash loads multi_module recipe_artifacts package_artifacts
     limit contents).

Lemma process_node_step node done modules modules' :
  node_body node modules = Ret modules' →
  modules_inv done modules → modules_inv (done ++ [node]) modules'.
Proof.
  intros Hbody (Hnd & Hkeys & Hids & Harts & Hdeps).
  destruct (modified node) eqn:Hmod.
  - destruct (process_node_spec node modules modules' Hbody Hmod Hnd)
      as (rk & pk & rarts & parts & Hrk & Hpk & Hrarts & Hparts
          & Hnd' & Hkeys' & Hid1 & Hid2 & Harts' & Hdeps').
    split; [done|]. split; [|split; [|split]].
    + intros k. rewrite Hkeys', Hkeys. split.
      * intros [->|[->|(n & Hn & Hm & H)]].
        -- exists node. rewrite elem_of_app, list_elem_of_singleton. eauto.
        -- exists node. rewrite elem_of_app, list_elem_of_singleton. eauto.
        -- exists n. rewrite elem_of_app. eauto.
      * intros (n & [Hn|Hn%list_elem_of_singleton]%elem_of_app & Hm & H);
          [idtac|subst n].
        -- right. right. by exists n.
        -- rewrite Hrk, Hpk in H. destruct H as [[= ->]|[= ->]]; eauto.
    + intros k Hk. apply Hkeys' in Hk.
      destruct (String.eqb_spec k rk) as [->|Hne1]; [by apply Hid1; left|].
      destruct (String.eqb_spec k pk) as [->|Hne2]; [by apply Hid1; right|].
      rewrite Hid2 by done. apply Hids. by destruct Hk as [?|[?|?]].
    + intros k a. rewrite Harts', Harts. unfold node_artifacts. split.
      * intros [(n & Hn & Hm & H)|[[-> Ha]|[-> Ha]]].
        -- exists n. rewrite elem_of_app. eauto.
        -- exists node. rewrite elem_of_app, list_elem_of_singleton.
           split; [by right|]. split; [done|]. left. eauto.
        -- exists node. rewrite elem_of_app, list_elem_of_singleton.
           split; [by right|]. split; [done|]. right. eauto.
      * intros (n & [Hn|Hn%list_elem_of_singleton]%elem_of_app & Hm & H);
          [idtac|subst n].
        -- left. by exists n.
        -- right. rewrite Hrk, Hpk, Hrarts, Hparts in H.
           destruct H as [([= ->] & s & [= <-] & Ha)|([= ->] & s & [= <-] & Ha)];
             eauto.
    + intros k a. rewrite Hdeps', Hdeps. unfold node_dependencies. split.
      * intros [(n & Hn & Hm & H)|(item & Hin & H)].
        -- exists n. rewrite elem_of_app. eauto.
        -- exists node. rewrite elem_of_app, list_elem_of_singleton.
           split; [by right|]. split; [done|]. exists item. split; [done|].
           rewrite Hrk, Hpk. destruct H as [[-> H]|[-> H]]; eauto.
      * intros (n & [Hn|Hn%list_elem_of_singleton]%elem_of_app & Hm & H);
          [idtac|subst n].
        -- left. by exists n.
        -- right. destruct H as (item & Hin & H). exists item. split; [done|].
           rewrite Hrk, Hpk in H.
           destruct H as [[[= ->] H]|[[= ->] H]]; eauto.
  - unfold process_node in Hbody. rewrite Hmod in Hbody.
    injection Hbody as <-.
    assert (Hdone : ∀ P : LockNode → Prop,
              (∃ n, n ∈ done ++ [node] ∧ modified n = true ∧ P n)
              ↔ ∃ n, n ∈ done ∧ modified n = true ∧ P n).
    { intros P. split.
      - intros (n & [Hn|Hn%list_elem_of_singleton]%elem_of_app & Hm & H);
          [by exists n | subst n; congruence].
      - intros (n & Hn & H). exists n. rewrite elem_of_app. eauto. }
    split; [done|]. split; [|split; [done|split]].
    + intros k. by rewrite Hkeys, Hdone.
    + intros k a. by rewrite Harts, Hdone.
    + intros k a. by rewrite Hdeps, Hdone.
Qed.

Lemma process_nodes_spec rest done modules modules' :
  for_each_res rest modules node_body = Ret modules' →
  modules_inv done modules → modules_inv (done ++ rest) modules'.
Proof.
  revert done modules. induction rest as [|node rest IH]; intros done modules.
  - intros [= <-]. by rewrite app_nil_r.
  - rewrite for_each_res_cons. intros (m1 & Hnode & Hrest)%Res_bind_inv Hinv.
    rewrite (cons_middle node done rest), app_assoc.
    eapply IH; [exact Hrest|]. by eapply process_node_step.
Qed.

Lemma modules_inv_nil : modules_inv [] [].
Proof.
  split; [constructor|]. split; [|split; [|split]].
  - intros k. split; [by intros []%elem_of_nil|].
    by intros (n & []%elem_of_nil & _).
  - by intros k []%elem_of_nil.
  - intros k a. split; [by intros []%elem_of_nil|].
    by intros (n & []%elem_of_nil & _).
  - intros k a. split; [by intros []%elem_of_nil|].
    by intros (n & []%elem_of_nil & _).
Qed.
End process_lockfile_lemmas.

Lemma process_lockfile_inv hash loads multi_module recipe_artifacts
    package_artifacts limit nodes modules :
  process_lockfile hash loads multi_module recipe_artifacts package_artifacts
    limit nodes = Ret modules →
  modules_of hash loads multi_module recipe_artifacts package_artifacts limit
    (list_to_map nodes) (dict_values nodes) modules.
Proof.
  intros H. apply (process_nodes_spec _ _ _ _ _ _ _ _ [] [] _ H).
  apply modules_inv_nil.
Qed.

(** X17. The modules that [process_lockfile] returns have no key twice;
    their keys are the references of the modified nodes and, by package
    id or not as [multi_module] says, the keys of their packages; and
    every module holds its key as ["id"]: the [None] that the
    [defaultdict] starts with is never left. *)
Theorem process_lockfile_keys (hash : string → Z) (loads : string → Res Ref)
    (multi_module : bool)
    (recipe_artifacts package_artifacts : string → bool → bool → Result PySet)
    (limit : nat) (nodes : odict LockNode) (modules : odict SetModule) :
  process_lockfile hash loads multi_module recipe_artifacts package_artifacts
    limit nodes = Ret modules →
  NoDup (dict_keys modules)
  ∧ (∀ k, k ∈ dict_keys modules ↔
       ∃ node, node ∈ dict_values nodes ∧ modified node = true
         ∧ (_get_reference loads (pref node) = Ret k
            ∨ package_key loads multi_module (pref node) = Ret k))
  ∧ ∀ k m, (k, m) ∈ modules → sm_id m = Some k.
Proof.
  intros (Hnd & Hkeys & Hids & _)%process_lockfile_inv.
  split; [done|]. split; [done|]. intros k m Hin.
  rewrite <- (module_at_elem k m modules Hnd Hin). apply Hids.
  apply list_elem_of_fmap. by exists (k, m).
Qed.

Lemma process_lockfile_keys_witness :
  ∃ modules,
    process_lockfile sample_hash sample_loads true sample_recipe_artifacts
      sample_package_artifacts 1000 sample_nodes = Ret modules
    ∧ dict_keys modules = ["app/1.0@user/stable"; "app/1.0@user/stable:p0"]
    ∧ NoDup (dict_keys modules)
    ∧ (∀ k, k ∈ dict_keys modules ↔
         ∃ node, node ∈ dict_values sample_nodes ∧ modified node = true
           ∧ (_get_reference sample_loads (pref node) = Ret k
              ∨ package_key sample_loads true (pref node) = Ret k))
    ∧ ∀ k m, (k, m) ∈ modules → sm_id m = Some k.
Proof.
  eexists. split; [vm_compute; reflexivity|]. split; [reflexivity|].
  apply (process_lockfile_keys sample_hash sample_loads true
           sample_recipe_artifacts sample_package_artifacts 1000 sample_nodes).
  vm_compute. reflexivity.
Defined.

(** X18. The artifacts of a module that [process_lockfile] returns are
    the files that the resolvers return, without ids, for the recipes of
    the modified nodes with that reference and for the packages of the
    modified nodes with that package key, and nothing else. *)
Theorem process_lockfile_artifacts (hash : string → Z)
    (loads : string → Res Ref) (multi_module : bool)
    (recipe_artifacts package_artifacts : string → bool → bool → Result PySet)
    (limit : nat) (nodes : odict LockNode) (modules : odict SetModule)
    (k : string) (m : SetModule) (a : Artifact) :
  process_lockfile hash loads multi_module recipe_artifacts package_artifacts
    limit nodes = Ret modules →
  (k, m) ∈ modules →
  a ∈ sm_artifacts m ↔
    ∃ node, node ∈ dict_values nodes ∧ modified node = true
      ∧ node_artifacts loads multi_module recipe_artifacts package_artifacts
          k node a.
Proof.
  intros (Hnd & _ & _ & Harts & _)%process_lockfile_inv Hin.
  rewrite <- (module_at_elem k m modules Hnd Hin). apply Harts.
Qed.

(** X19. The dependencies of a module that [process_lockfile] returns
    are the closures, as [_gather_deps] returns them with ids and
    prefixes, of the nodes required by the modified nodes with that
    reference (through the resolver of recipes) or with that package key
    (through the resolver of packages), and nothing else; the files of
    the node itself are not among them unless a closure holds them. *)
Theorem process_lockfile_dependencies (hash : string → Z)
    (loads : string → Res Ref) (multi_module : bool)
    (recipe_artifacts package_artifacts : string → bool → bool → Result PySet)
    (limit : nat) (nodes : odict LockNode) (modules : odict SetModule)
    (k : string) (m : SetModule) (a : Artifact) :
  process_lockfile hash loads multi_module recipe_artifacts package_artifacts
    limit nodes = Ret modules →
  (k, m) ∈ modules →
  a ∈ sm_dependencies m ↔
    ∃ node, node ∈ dict_values nodes ∧ modified node = true
      ∧ node_dependencies hash loads multi_module recipe_artifacts
          package_artifacts limit (list_to_map nodes) k node a.
Proof.
  intros (Hnd & _ & _ & _ & Hdeps)%process_lockfile_inv Hin.
  rewrite <- (module_at_elem k m modules Hnd Hin). apply Hdeps.
Qed.

Lemma process_lockfile_artifacts_witness :
  ∃ modules m,
    process_lockfile sample_hash sample_loads true sample_recipe_artifacts
      sample_package_artifacts 1000 sample_nodes = Ret modules
    ∧ ("app/1.0@user/stable", m) ∈ modules
    ∧ (mkArtifact "sha1 of recipe app#r0:p0#v0" "md5" (Some "conanfile.py") None
         ∈ sm_artifacts m ↔
       ∃ node, node ∈ dict_values sample_nodes ∧ modified node = true
         ∧ node_artifacts sample_loads true sample_recipe_artifacts
             sample_package_artifacts "app/1.0@user/stable" node
             (mkArtifact "sha1 of recipe app#r0:p0#v0" "md5"
                (Some "conanfile.py") None)).
Proof.
  eexists _, _. split; [vm_compute; reflexivity|].
  split; [apply list_elem_of_here|].
  eapply (process_lockfile_artifacts sample_hash sample_loads true
           sample_recipe_artifacts sample_package_artifacts 1000 sample_nodes).
  - vm_compute. reflexivity.
  - apply list_elem_of_here.
Defined.

Lemma process_lockfile_dependencies_witness :
  ∃ modules m,
    process_lockfile sample_hash sample_loads true sample_recipe_artifacts
      sample_package_artifacts 1000 sample_nodes = Ret modules
    ∧ ("app/1.0@user/stable", m) ∈ modules
    ∧ (mkArtifact "sha1 of recipe lib#r1:p1#v1" "md5" None
         (Some "lib#r1:p1#v1 :: conanfile.py")
         ∈ sm_dependencies m ↔
       ∃ node, node ∈ dict_values sample_nodes ∧ modified node = true
         ∧ node_dependencies sample_hash sample_loads true
             sample_recipe_artifacts sample_package_artifacts 1000
             (list_to_map sample_nodes) "app/1.0@user/stable" node
             (mkArtifact "sha1 of recipe lib#r1:p1#v1" "md5" None
                (Some "lib#r1:p1#v1 :: conanfile.py"))).
Proof.
  eexists _, _. split; [vm_compute; reflexivity|].
  split; [apply list_elem_of_here|].
  eapply (process_lockfile_dependencies sample_hash sample_loads true
           sample_recipe_artifacts sample_package_artifacts 1000 sample_nodes).
  - vm_compute. reflexivity.
  - apply list_elem_of_here.
Defined.

(** X20. Nodes that are not modified give no module: on a lockfile
    without a modified node [process_lockfile] returns no module, and it
    neither parses a pref nor calls a resolver, so that it returns
    whatever the prefs and the resolvers are. *)
Theorem process_lockfile_unmodified (hash : string → Z)
    (loads : string → Res Ref) (multi_module : bool)
    (recipe_artifacts package_artifacts : string → bool → bool → Result PySet)
    (limit : nat) (nodes : odict LockNode) :
  Forall (λ node, modified node = false) (dict_values nodes) →
  process_lockfile hash loads multi_module recipe_artifacts package_artifacts
    limit nodes = Ret [].
Proof.
  unfold process_lockfile. generalize (list_to_map nodes : gmap string LockNode).
  intros contents. induction 1 as [|node rest Hnode _ IH]; [done|].
  rewrite for_each_res_cons.
  assert (process_node hash loads multi_module recipe_artifacts
            package_artifacts limit contents node [] = Ret []) as ->; [|done].
  unfold process_node. by rewrite Hnode.
Qed.

Lemma process_lockfile_unmodified_witness :
  process_lockfile sample_hash (λ _, Throw (ConanException "not a reference"))
    true (λ _ _ _, Raise TypeError) (λ _ _ _, Raise TypeError) 0
    [("1", mkNode "lib#r1:p1#v1" [("zlib", "2")] false);
     ("2", mkNode "zlib" [] false)]
  = Ret [].
Proof.
  apply (process_lockfile_unmodified sample_hash _ true _ _ 0).
  repeat constructor.
Defined.

(** ** The order of the serialised artifacts *)

Lemma ltb_lt a b :
  String.ltb a b = true ↔ OrderedTypeEx.String_as_OT.lt a b.
Proof.
  rewrite <- OrderedTypeEx.String_as_OT.cmp_lt.
  unfold String.ltb, OrderedTypeEx.String_as_OT.cmp.
  destruct (String.compare a b); split; congruence.
Qed.

Lemma ltb_asym a b : String.ltb a b = true → String.ltb b a = false.
Proof.
  unfold String.ltb. rewrite (String.compare_antisym a b).
  by destruct (String.compare b a).
Qed.

Lemma ltb_trichotomy a b :
  String.ltb a b = true ∨ a = b ∨ String.ltb b a = true.
Proof.
  unfold String.ltb. rewrite (String.compare_antisym a b).
  destruct (String.compare b a) eqn:E; simpl; [|by right; right|by left].
  right. left. symmetry. by apply String.compare_eq_iff.
Qed.

Lemma ltb_trans a b c :
  String.ltb a b = true → String.ltb b c = true → String.ltb a c = true.
Proof.
  rewrite !ltb_lt. apply OrderedTypeEx.String_as_OT.lt_trans.
Qed.

(** [a ≤ b] and [b ≤ c] give [a ≤ c]. *)
Lemma leb_trans a b c :
  String.ltb b a = false → String.ltb c b = false → String.ltb c a = false.
Proof.
  intros Hab Hbc.
  destruct (ltb_trichotomy a b) as [Hlt|[->|Hgt]]; [|done|congruence].
  destruct (ltb_trichotomy b c) as [Hlt'|[<-|Hgt']]; [|done|congruence].
  apply ltb_asym. by eapply ltb_trans.
Qed.

Lemma py_lt_Ret a b r :
  py_lt a b = Ret r ↔ ∃ x y, a = Some x ∧ b = Some y ∧ r = String.ltb x y.
Proof.
  unfold py_lt. destruct a as [x|], b as [y|]; split;
    try (intros [= <-]; by eauto); try done;
    intros (x' & y' & H1 & H2 & ->); congruence.
Qed.

Section sorting.
Context {A : Type}.
Variable key : A → option string.

Local Abbreviation le :=
  (λ u v, ∃ a b, key u = Some a ∧ key v = Some b ∧ String.ltb b a = false).

Lemma insert_sorted_perm x l l' :
  insert_sorted key x l = Ret l' → l' ≡ₚ x :: l.
Proof.
  revert l'. induction l as [|y l IH]; intros l'; simpl.
  - by intros [= <-].
  - intros (b & _ & Hrest)%Res_bind_inv. destruct b.
    + apply Res_bind_inv in Hrest as (l'' & Hins & [= <-]).
      rewrite (IH _ Hins). apply Permutation_swap.
    + by injection Hrest as <-.
Qed.

Lemma sorted_perm l l' : sorted key l = Ret l' → l' ≡ₚ l.
Proof.
  revert l'. induction l as [|x l IH]; intros l'; simpl.
  - by intros [= <-].
  - intros (s & Hs & Hins)%Res_bind_inv.
    rewrite (insert_sorted_perm _ _ _ Hins). by rewrite (IH _ Hs).
Qed.

Lemma insert_sorted_sorted x l l' :
  StronglySorted le l → insert_sorted key x l = Ret l' →
  StronglySorted le l'.
Proof.
  revert l'. induction l as [|y l IH]; intros l' Hsorted; simpl.
  - intros [= <-]. repeat constructor.
  - apply StronglySorted_inv in Hsorted as [Hsorted Hy].
    intros (b & (ky & kx & Hky & Hkx & ->)%py_lt_Ret & Hrest)%Res_bind_inv.
    destruct (String.ltb ky kx) eqn:Hlt.
    + apply Res_bind_inv in Hrest as (l'' & Hins & [= <-]).
      constructor; [by apply IH|].
      rewrite (insert_sorted_perm _ _ _ Hins). constructor; [|done].
      exists ky, kx. split; [done|]. split; [done|]. by apply ltb_asym.
    + injection Hrest as <-. constructor; [by constructor|].
      constructor.
      * by exists kx, ky.
      * eapply Forall_impl; [exact Hy|]. intros z (ky' & kz & Hky' & Hkz & Hle).
        exists kx, kz. split; [done|]. split; [done|].
        rewrite Hky in Hky'. injection Hky' as <-. by eapply leb_trans.
Qed.

Lemma sorted_sorted l l' : sorted key l = Ret l' → StronglySorted le l'.
Proof.
  revert l'. induction l as [|x l IH]; intros l'; simpl.
  - intros [= <-]. constructor.
  - intros (s & Hs & Hins)%Res_bind_inv.
    eapply insert_sorted_sorted; [|exact Hins]. by apply IH.
Qed.

Lemma insert_sorted_total x l :
  is_Some (key x) → Forall (λ y, is_Some (key y)) l →
  ∃ l', insert_sorted key x l = Ret l'.
Proof.
  intros [kx Hkx]. induction 1 as [|y l [ky Hky] _ [l' IH]]; simpl.
  - by eexists.
  - rewrite Hky, Hkx. simpl. destruct (String.ltb ky kx); [|by eexists].
    rewrite IH. simpl. by eexists.
Qed.

Lemma sorted_total l :
  Forall (λ y, is_Some (key y)) l → ∃ l', sorted key l = Ret l'.
Proof.
  induction 1 as [|x l Hx Hl [s Hs]]; simpl; [by eexists|].
  rewrite Hs. simpl. apply insert_sorted_total; [done|].
  by rewrite (sorted_perm _ _ Hs).
Qed.

Lemma insert_sorted_Throw x l e :
  insert_sorted key x l = Throw e → e = Exn TypeError.
Proof.
  induction l as [|y l IH]; simpl; [done|].
  destruct (py_lt (key y) (key x)) as [b|e'] eqn:Hlt; simpl.
  - destruct b; [|done].
    destruct (insert_sorted key x l); simpl; [done|].
    intros [= <-]. by apply IH.
  - intros [= <-]. unfold py_lt in Hlt.
    destruct (key y), (key x); congruence.
Qed.

Lemma sorted_Throw l e : sorted key l = Throw e → e = Exn TypeError.
Proof.
  induction l as [|x l IH]; simpl; [done|].
  destruct (sorted key l) as [s|e']; simpl.
  - apply insert_sorted_Throw.
  - intros [= <-]. by apply IH.
Qed.

(** With two elements or more, a key that is [None] is compared. *)
Lemma sorted_None l :
  (2 ≤ length l)%nat → Exists (λ y, key y = None) l →
  sorted key l = Throw (Exn TypeError).
Proof.
  induction l as [|x l IH]; simpl; [lia|]. intros Hlen Hex.
  destruct (sorted key l) as [s|e] eqn:Hs; simpl.
  - pose proof (sorted_perm _ _ Hs) as Hperm.
    destruct s as [|y s].
    { apply Permutation_nil_l in Hperm. subst l. simpl in Hlen. lia. }
    simpl.
    assert (Hnone : key y = None ∨ key x = None).
    { apply Exists_cons in Hex as [?|Hex]; [by right|].
      destruct (decide (2 ≤ length l)%nat) as [Hl|Hl].
      - by specialize (IH Hl Hex).
      - left. destruct l as [|z [|z' l]]; simpl in *; [lia| |lia].
        apply Permutation_singleton_r in Hperm. injection Hperm as -> ->.
        by apply Exists_cons in Hex as [?|?%Exists_nil]. }
    unfold py_lt. by destruct Hnone as [-> | ->]; destruct (key y), (key x).
  - f_equal. by eapply sorted_Throw.
Qed.
End sorting.

Lemma sort_key_artifact o : sort_key (artifact_dict o) = artifact_key o.
Proof.
  unfold sort_key, artifact_dict, artifact_key.
  destruct (art_name o) as [[|c n]|], (art_id o) as [i|]; reflexivity.
Qed.

Lemma NoDup_fmap_inj {A B} (f : A → B) (l : list A) x y :
  NoDup (f <$> l) → x ∈ l → y ∈ l → f x = f y → x = y.
Proof.
  induction l as [|z l IH]; [by intros _ []%elem_of_nil|].
  rewrite fmap_cons. intros [Hz Hnd]%NoDup_cons.
  intros [->|Hx]%elem_of_cons [->|Hy]%elem_of_cons Hf; [done| | |by apply IH].
  - exfalso. apply Hz. rewrite Hf. by apply list_elem_of_fmap_2.
  - exfalso. apply Hz. rewrite <- Hf. by apply list_elem_of_fmap_2.
Qed.

(** X21. What [dump_custom_types] returns for a set: the artifacts of
    the set, each once, as dicts without the fields that are [None], in
    the order of their names, or of their ids where they have no name. *)
Theorem dump_custom_types_sorted (obj : PySet) (l : list (odict string)) :
  dump_custom_types (CSet obj) = Ret l →
  l ≡ₚ artifact_dict <$> obj ∧ StronglySorted key_le l.
Proof.
  unfold dump_custom_types. intros H. split.
  - by apply (sorted_perm sort_key).
  - by apply (sorted_sorted sort_key _ _ H).
Qed.

Lemma dump_custom_types_sorted_witness :
  [artifact_dict (mkArtifact "bbb" "222" (Some "conan_package.tgz") None);
   artifact_dict (mkArtifact "ccc" "333" (Some "conaninfo.txt") None);
   artifact_dict (mkArtifact "aaa" "111" (Some "conanmanifest.txt") None)]
    ≡ₚ artifact_dict <$>
        [mkArtifact "aaa" "111" (Some "conanmanifest.txt") None;
         mkArtifact "bbb" "222" (Some "conan_package.tgz") None;
         mkArtifact "ccc" "333" (Some "conaninfo.txt") None]
  ∧ StronglySorted key_le
      [artifact_dict (mkArtifact "bbb" "222" (Some "conan_package.tgz") None);
       artifact_dict (mkArtifact "ccc" "333" (Some "conaninfo.txt") None);
       artifact_dict (mkArtifact "aaa" "111" (Some "conanmanifest.txt") None)].
Proof.
  apply (dump_custom_types_sorted
           [mkArtifact "aaa" "111" (Some "conanmanifest.txt") None;
            mkArtifact "bbb" "222" (Some "conan_package.tgz") None;
            mkArtifact "ccc" "333" (Some "conaninfo.txt") None]).
  vm_compute. reflexivity.
Defined.

(** X22. The output does not depend on the order in which the set is
    iterated: when every artifact of the set has a name or an id to sort
    by, and no two have the same, [dump_custom_types] returns, and it
    returns the same list for every order of iteration. *)
Theorem dump_custom_types_deterministic (s1 s2 : PySet) :
  s1 ≡ₚ s2 →
  Forall (λ o, is_Some (artifact_key o)) s1 →
  NoDup (artifact_key <$> s1) →
  ∃ l, dump_custom_types (CSet s1) = Ret l
       ∧ dump_custom_types (CSet s2) = Ret l.
Proof.
  intros Hperm Hkeys Hnd. unfold dump_custom_types.
  assert (Hsome : ∀ s, s ≡ₚ s1 →
            Forall (λ u, is_Some (sort_key u)) (artifact_dict <$> s)).
  { intros s Hs. rewrite Hs. apply Forall_fmap.
    eapply Forall_impl; [exact Hkeys|]. intros o Ho. simpl.
    by rewrite sort_key_artifact. }
  destruct (sorted_total sort_key _ (Hsome s1 ltac:(done))) as [l1 H1].
  destruct (sorted_total sort_key _ (Hsome s2 ltac:(done))) as [l2 H2].
  exists l1. split; [done|]. rewrite H2. f_equal.
  pose proof (sorted_perm _ _ _ H1) as Hp1.
  pose proof (sorted_perm _ _ _ H2) as Hp2.
  apply (StronglySorted_unique_strong key_le).
  - intros u v Hu Hv (a & b & Ha & Hb & Hab) (b' & a' & Hb' & Ha' & Hba).
    rewrite Hb in Hb'. rewrite Ha in Ha'. injection Hb' as <-.
    injection Ha' as <-.
    assert (a = b) as <-.
    { destruct (ltb_trichotomy a b) as [?|[?|?]]; congruence. }
    rewrite Hp2 in Hu. rewrite Hp1, Hperm in Hv.
    apply list_elem_of_fmap in Hu as (o1 & -> & Ho1).
    apply list_elem_of_fmap in Hv as (o2 & -> & Ho2).
    f_equal. rewrite !sort_key_artifact in *.
    apply (NoDup_fmap_inj artifact_key s1); [done| | |congruence].
    + by rewrite Hperm.
    + by rewrite Hperm.
  - by apply (sorted_sorted sort_key _ _ H2).
  - by apply (sorted_sorted sort_key _ _ H1).
  - by rewrite Hp2, Hp1, Hperm.
Qed.

Lemma dump_custom_types_deterministic_witness :
  ∃ l, dump_custom_types
         (CSet [mkArtifact "aaa" "111" (Some "conanmanifest.txt") None;
                mkArtifact "bbb" "222" (Some "conan_package.tgz") None;
                mkArtifact "ccc" "333" (Some "conaninfo.txt") None]) = Ret l
       ∧ dump_custom_types
           (CSet [mkArtifact "ccc" "333" (Some "conaninfo.txt") None;
                  mkArtifact "aaa" "111" (Some "conanmanifest.txt") None;
                  mkArtifact "bbb" "222" (Some "conan_package.tgz") None]) = Ret l.
Proof.
  apply dump_custom_types_deterministic.
  - apply (bool_decide_unpack _). vm_compute. exact I.
  - repeat constructor; by eexists.
  - apply (bool_decide_unpack _). vm_compute. exact I.
Defined.

(** X23. [dump_custom_types] raises nothing but [TypeError]: for what
    is no set, and for a set of two artifacts or more one of which has
    neither a name that is not empty nor an id, so that [None] is
    compared. A set of one such artifact is serialised. *)
Theorem dump_custom_types_raises (obj : custom) (e : pyexn) :
  dump_custom_types obj = Throw e ↔
    e = Exn TypeError
    ∧ match obj with
      | CSet s => (2 ≤ length s)%nat ∧ Exists (λ o, artifact_key o = None) s
      | COther => True
      end.
Proof.
  destruct obj as [s|]; simpl; [|split; [by intros [= <-] | by intros [-> _]]].
  split.
  - intros H. split; [by eapply (sorted_Throw sort_key)|].
    destruct (decide (Forall (λ o, is_Some (artifact_key o)) s)) as [Hall|Hex].
    + destruct (sorted_total sort_key (artifact_dict <$> s)) as [l Hl];
        [|congruence].
      apply Forall_fmap. eapply Forall_impl; [exact Hall|].
      intros o Ho. simpl. by rewrite sort_key_artifact.
    + apply not_Forall_Exists in Hex; [|apply _]. split.
      * destruct s as [|o [|o' s]]; simpl in *; [done| |lia].
        done.
      * eapply Exists_impl; [exact Hex|]. intros o Ho. simpl in Ho.
        destruct (artifact_key o); [|done]. exfalso. apply Ho. by eexists.
  - intros [-> [Hlen Hex]]. apply sorted_None.
    + by rewrite length_fmap.
    + apply Exists_fmap. eapply Exists_impl; [exact Hex|].
      intros o Ho. simpl. by rewrite sort_key_artifact.
Qed.

(** ** Publishing *)

(** X24. What [publish_build_info] sends. The build info is sent, as
    JSON, only with credentials: with a user and a password that are not
    empty, and then without the API key, whatever it is; or else with an
    API key that is not empty. Without either, the request has no body,
    no header and no credentials: the file is not sent. Basic
    authentication and the API key header are never sent together. *)
Theorem publish_request_credentials (urlparse : string → string * string)
    (json_data url : string) (user password apikey : option string) :
  let r := publish_request urlparse json_data url user password apikey in
  req_url r = (urlparse url).1 +:+ "://" +:+ (urlparse url).2
              +:+ "/artifactory/api/build"
  ∧ (is_Some (req_auth r) ↔ str_truthy user && str_truthy password = true)
  ∧ (is_Some (dict_get "X-JFrog-Art-Api" (req_headers r)) ↔
       str_truthy user && str_truthy password = false
       ∧ str_truthy apikey = true)
  ∧ (req_data r = Some json_data ↔
       str_truthy user && str_truthy password = true
       ∨ str_truthy apikey = true)
  ∧ (req_data r = None ↔ req_headers r = [] ∧ req_auth r = None)
  ∧ (req_data r = Some json_data ∨ req_data r = None).
Proof.
  unfold publish_request. simpl. rewrite !is_Some_alt.
  destruct (str_truthy user && str_truthy password);
    [|destruct (str_truthy apikey)]; simpl; intuition congruence.
Qed.

(** X25. How [publish_build_info] ends. It returns exactly when the
    server answers 204; any other answer is an error, a 200 too: 401
    raises [AuthenticationException] and every other status
    [RequestErrorException], with the text of the response; what
    [requests.put] raises is passed on. *)
Theorem publish_build_info_outcome (put : Request → Result Response)
    (urlparse : string → string * string)
    (response_to_str : Response → string)
    (json_data url : string) (user password apikey : option string) :
  let r := publish_request urlparse json_data url user password apikey in
  let result := publish_build_info put urlparse response_to_str json_data url
                  user password apikey in
  (result = Ok tt ↔ ∃ response, put r = Ok response
                     ∧ status_code response = 204%Z)
  ∧ ∀ e, result = Raise e ↔
      put r = Raise e
      ∨ ∃ response, put r = Ok response
          ∧ (status_code response = 401%Z
             ∧ e = AuthenticationException (response_to_str response)
             ∨ status_code response ≠ 401%Z ∧ status_code response ≠ 204%Z
               ∧ e = RequestErrorException (response_to_str response)).
Proof.
  simpl. unfold publish_build_info.
  destruct (put _) as [response|e']; simpl.
  - destruct (Z.eqb_spec (status_code response) 401) as [H401|H401];
      [|destruct (Z.eqb_spec (status_code response) 204) as [H204|H204]];
      simpl.
    + split.
      * split; [done|]. intros (resp & [= <-] & H). lia.
      * intros e. split.
        -- intros [= <-]. right. exists response. split; [done|]. by left.
        -- intros [?|(resp & [= <-] & [[_ ->]|(? & _)])]; done.
    + split.
      * split; [|done]. intros _. by exists response.
      * intros e. split; [done|].
        intros [?|(resp & [= <-] & [[? _]|(_ & ? & _)])]; done.
    + split.
      * split; [done|]. by intros (resp & [= <-] & H).
      * intros e. split.
        -- intros [= <-]. right. exists response. split; [done|]. by right.
        -- intros [?|(resp & [= <-] & [[? _]|(_ & _ & ->)])]; done.
  - split.
    + split; [done|]. by intros (resp & ? & _).
    + intros e. split; [intros [= <-]; by left|].
      by intros [[= <-]|(resp & ? & _)].
Qed.

(** ** Options *)

Lemma str_split_two sep s k v :
  str_split sep s = [k; v] ↔
    s = k +:+ String sep v ∧ has_char sep k = false ∧ has_char sep v = false.
Proof.
  split.
  - destruct (str_split_inv sep s)
      as (p & ps & Hs & Hfree & [[-> ->]|(rest & -> & Hps)]);
      rewrite Hs; [done|]. intros [= -> ->].
    destruct (str_split_inv sep rest)
      as (p' & ps' & Hrest & Hfree' & [[_ ->]|(rest' & -> & Hps')]);
      rewrite Hrest in Hps.
    + by injection Hps as ->.
    + injection Hps as _ Hps. rewrite <- Hps' in Hps.
      by apply str_split_nonempty in Hps.
  - intros (-> & Hk & Hv). rewrite str_split_app by done.
    by rewrite str_split_free.
Qed.

(** X26. What [_parse_options] yields: one pair for every line up to the
    first line that does not hold exactly one [=], the key being
    [options.] and what stands before the [=], the value what stands
    after it; and it ends with [ValueError] at that line, an empty line
    too, or normally after the last line. *)
Theorem parse_options_spec (lines : list string) :
  ∃ n,
    Forall2 (λ line kv, ∃ key,
               kv.1 = "options." +:+ key
               ∧ line = key +:+ "=" +:+ kv.2
               ∧ has_char "=" key = false ∧ has_char "=" kv.2 = false)
      (take n lines) (_parse_options lines).1
    ∧ match lines !! n with
      | None => (_parse_options lines).2 = None ∧ n = length lines
      | Some line =>
          (_parse_options lines).2 = Some ValueError
          ∧ ¬ ∃ key value, line = key +:+ "=" +:+ value
                ∧ has_char "=" key = false ∧ has_char "=" value = false
      end.
Proof.
  induction lines as [|line lines (n & Hpairs & Hend)].
  - exists 0%nat. simpl. split; [constructor | done].
  - simpl.
    destruct (str_split "=" line) as [|key [|value [|x l]]] eqn:Hsplit.
    + by apply str_split_nonempty in Hsplit.
    + exists 0%nat. simpl. split; [constructor|]. split; [done|].
      intros (k & v & Hkv). apply (str_split_two "=") in Hkv. congruence.
    + apply str_split_two in Hsplit as (-> & Hk & Hv).
      exists (S n). destruct (_parse_options lines) as [rest e]. simpl in *.
      split; [constructor; [by exists key | done]|].
      destruct (lines !! n); [done|]. destruct Hend as [-> ->]. done.
    + exists 0%nat. simpl. split; [constructor|]. split; [done|].
      intros (k & v & Hkv). apply (str_split_two "=") in Hkv. congruence.
Qed.

(** ** The artifacts of the metadata *)

Lemma checksum_entries_spec use_id name_format data ret0 ret :
  checksum_entries use_id name_format data ret0 = Ret ret →
  NoDup (dict_keys ret0) →
  NoDup (dict_keys ret)
  ∧ ∀ k e, dict_get k ret = Some e ↔
      last_entry use_id name_format data k e
      ∨ (Forall (λ item, ck_sha1 item.2 ≠ k) data ∧ dict_get k ret0 = Some e).
Proof.
  unfold checksum_entries. revert ret0.
  induction data as [|[name value] rest IH]; intros ret0.
  - intros [= <-] Hnd. split; [done|]. intros k e. split.
    + intros H. right. by split; [constructor|].
    + intros [(l1 & n & v & l2 & _ & Hdata & _)|[_ H]]; [|done].
      by destruct l1.
  - rewrite for_each_res_cons.
    intros (ret1 & Hbody & Hrest)%Res_bind_inv Hnd.
    apply Res_bind_inv in Hbody as (n & Hn & [= <-]). simpl in *.
    destruct (IH _ Hrest) as [Hnd' Hget]; [by apply NoDup_keys_setitem|].
    split; [done|]. intros k e. rewrite Hget, dict_get_setitem. split.
    + intros [(l1 & n' & v' & l2 & m & -> & Hk & Hl2 & Hm & ->)|[Hall H]].
      * left. exists ((name, value) :: l1), n', v', l2, m. by repeat split.
      * destruct (String.eqb_spec (ck_sha1 value) k) as [Hk|Hk].
        -- injection H as <-. left. exists [], name, value, rest, n.
           by repeat split.
        -- right. split; [by constructor | done].
    + intros [(l1 & n' & v' & l2 & m & Hdata & Hk & Hl2 & Hm & ->)|[Hall H]].
      * destruct l1 as [|item l1]; simpl in Hdata.
        -- injection Hdata as -> -> ->. right. split; [done|].
           rewrite (proj2 (String.eqb_eq _ _) Hk).
           rewrite Hn in Hm. by injection Hm as <-.
        -- injection Hdata as <- ->. left. exists l1, n', v', l2, m.
           by repeat split.
      * apply Forall_cons in Hall as [Hne Hall]. simpl in Hne. right.
        split; [done|]. by rewrite (proj2 (String.eqb_neq _ _) Hne).
Qed.

Lemma elem_of_entry_artifacts (ret : odict Entry) a :
  NoDup (dict_keys ret) →
  a ∈ entry_artifact <$> ret ↔
    dict_get (raw_sha1 a) ret = Some (mkEntry (raw_md5 a) (raw_name a) (raw_id a)).
Proof.
  intros Hnd. rewrite list_elem_of_fmap. split.
  - intros ([k e] & -> & Hin). simpl. apply dict_get_NoDup; [done|].
    by destruct e.
  - intros H%dict_get_elem. eexists. split; [|exact H]. by destruct a.
Qed.

Lemma entry_artifacts_sha1 (ret : odict Entry) :
  raw_sha1 <$> (entry_artifact <$> ret) = dict_keys ret.
Proof. unfold dict_keys. by rewrite <- list_fmap_compose. Qed.

(** X27. The artifacts of files of the cache. For a package, and for a
    recipe whose checksums hold [conan_sources.tgz], the remote is not
    asked: the artifacts are made of the checksums alone. There is one
    artifact for every sha1, not for every file: of the files with the
    same sha1 the last one gives its name or id and its md5. The
    formatted name is the ["name"], or with [use_id] the ["id"], and the
    other of the two is [None]. *)
Theorem metadata_artifacts_cached (user password apikey : option string)
    (remote_url : option string → Res string)
    (urlparse : string → string * string) (urljoin : string → string → string)
    (get : Request → Result Response)
    (response_checksums : Response → Res (odict string))
    (response_to_str : Response → string)
    (metadata : Metadata) (request_path : string) (use_id : bool)
    (name_format : string → Res string) (package_id : option string)
    (data : odict Checksums) (arts : list RawArtifact) :
  metadata_data metadata package_id = Ret (data, false) →
  _get_metadata_artifacts user password apikey remote_url urlparse urljoin
    get response_checksums response_to_str metadata request_path use_id
    name_format package_id = Ret arts →
  NoDup (raw_sha1 <$> arts)
  ∧ ∀ a, a ∈ arts ↔ cached_artifact use_id name_format data a.
Proof.
  intros Hdata. unfold _get_metadata_artifacts. rewrite Hdata. simpl.
  intros (ret & Hloop & [= <-])%Res_bind_inv.
  destruct (checksum_entries_spec _ _ _ _ _ Hloop) as [Hnd Hget];
    [constructor|].
  split; [by rewrite entry_artifacts_sha1|].
  intros a. rewrite elem_of_entry_artifacts by done. rewrite Hget.
  unfold cached_artifact. split; [|by left]. by intros [?|[_ ?]].
Qed.

Lemma metadata_artifacts_cached_witness :
  NoDup (raw_sha1 <$>
           [mkRaw "s3" (Md5 "m3") None (Some "pkg :: conan_package.tgz");
            mkRaw "s4" (Md5 "m4") None (Some "pkg :: conaninfo.txt")])
  ∧ ∀ a, a ∈ [mkRaw "s3" (Md5 "m3") None (Some "pkg :: conan_package.tgz");
              mkRaw "s4" (Md5 "m4") None (Some "pkg :: conaninfo.txt")]
         ↔ cached_artifact true (λ name, Ret ("pkg :: " +:+ name))
             [("conan_package.tgz", mkChecksums "m3" "s3");
              ("conaninfo.txt", mkChecksums "m4" "s4")] a.
Proof.
  apply (metadata_artifacts_cached None None None sample_remote_url
           sample_urlparse (λ a b, a +:+ b) sample_get_refused
           sample_response_checksums response_text
           sample_metadata "_/pkg/1.0/_/r1/package/p1/v1" true
           (λ name, Ret ("pkg :: " +:+ name)) (Some "p1")).
  - vm_compute. reflexivity.
  - vm_compute. reflexivity.
Defined.

(** X28. The sources of a recipe. For a recipe whose checksums lack
    [conan_sources.tgz], a call that returns has asked the remote of the
    recipe for [request_path/conan_sources.tgz] and got the answer 200.
    The artifact of the sources holds the sha1 of the answer, the name
    [conan_sources.tgz] and no id, whatever [use_id] and [name_format]
    are, and under ["md5"] the whole mapping of checksums of the answer,
    not its md5. It takes the place of a file of the cache with the same
    sha1; the other artifacts are those of the files of the cache. *)
Theorem metadata_artifacts_sources (user password apikey : option string)
    (remote_url : option string → Res string)
    (urlparse : string → string * string) (urljoin : string → string → string)
    (get : Request → Result Response)
    (response_checksums : Response → Res (odict string))
    (response_to_str : Response → string)
    (metadata : Metadata) (request_path : string) (use_id : bool)
    (name_format : string → Res string) (package_id : option string)
    (data : odict Checksums) (arts : list RawArtifact) :
  metadata_data metadata package_id = Ret (data, true) →
  _get_metadata_artifacts user password apikey remote_url urlparse urljoin
    get response_checksums response_to_str metadata request_path use_id
    name_format package_id = Ret arts →
  ∃ remote response checksums sha1,
    remote_url (md_recipe_remote metadata) = Ret remote
    ∧ get (sources_request user password apikey
             (urljoin ((urlparse remote).1 +:+ "://" +:+ (urlparse remote).2
                       +:+ "/artifactory/api/storage/conan/")
                (request_path +:+ "/conan_sources.tgz"))) = Ok response
    ∧ status_code response = 200%Z
    ∧ response_checksums response = Ret checksums
    ∧ dict_get "sha1" checksums = Some sha1
    ∧ NoDup (raw_sha1 <$> arts)
    ∧ ∀ a, a ∈ arts ↔
        a = mkRaw sha1 (Md5Checksums checksums) (Some "conan_sources.tgz") None
        ∨ (raw_sha1 a ≠ sha1 ∧ cached_artifact use_id name_format data a).
Proof.
  intros Hdata. unfold _get_metadata_artifacts. rewrite Hdata. simpl.
  intros (ret0 & Hloop & Hrest)%Res_bind_inv.
  apply Res_bind_inv in Hrest as (ret & Hfetch & [= <-]).
  destruct (checksum_entries_spec _ _ _ _ _ Hloop) as [Hnd Hget];
    [constructor|].
  unfold fetch_sources in Hfetch.
  apply Res_bind_inv in Hfetch as (remote & Hremote & Hfetch).
  apply Res_bind_inv in Hfetch as (response & Hresp%lift_Ret & Hfetch).
  destruct (Z.eqb_spec (status_code response) 200) as [H200|H200];
    [|by destruct (Z.eqb (status_code response) 401)].
  apply Res_bind_inv in Hfetch as (checksums & Hsums & Hfetch).
  apply Res_bind_inv in Hfetch as (sha1 & Hsha1 & [= <-]).
  unfold checksums_getitem in Hsha1.
  destruct (dict_get "sha1" checksums) as [sha1'|] eqn:Hs; [|done].
  injection Hsha1 as ->.
  exists remote, response, checksums, sha1. repeat (split; [done|]).
  split.
  - rewrite entry_artifacts_sha1. by apply NoDup_keys_setitem.
  - intros a. rewrite elem_of_entry_artifacts by (by apply NoDup_keys_setitem).
    rewrite dict_get_setitem. unfold cached_artifact.
    destruct (String.eqb_spec sha1 (raw_sha1 a)) as [Heq|Hne].
    + split.
      * intros [= Hm Hn Hi]. left. destruct a. simpl in *. congruence.
      * intros [->|[? _]]; [done | congruence].
    + rewrite Hget. split.
      * intros [H|[_ H]]; [|done]. right. split; [congruence | done].
      * intros [->|[_ H]]; [done | by left].
Qed.

Lemma metadata_artifacts_sources_witness :
  ∃ remote response checksums sha1,
    sample_remote_url (Some "artifactory") = Ret remote
    ∧ sample_get
        (sources_request (Some "admin") (Some "secret") (Some "apikey")
           (((sample_urlparse remote).1 +:+ "://" +:+ (sample_urlparse remote).2
             +:+ "/artifactory/api/storage/conan/")
            +:+ ("_/lib/1.0/_/r1/export" +:+ "/conan_sources.tgz")))
      = Ok response
    ∧ status_code response = 200%Z
    ∧ sample_response_checksums response = Ret checksums
    ∧ dict_get "sha1" checksums = Some sha1
    ∧ NoDup (raw_sha1 <$>
               [mkRaw "s1" (Md5 "m1") None (Some "lib :: conanfile.py.bak");
                mkRaw "s2" (Md5 "m2") None (Some "lib :: conanmanifest.txt");
                mkRaw "s9"
                  (Md5Checksums [("sha1", "s9"); ("md5", "m9"); ("sha256", "x9")])
                  (Some "conan_sources.tgz") None])
    ∧ ∀ a, a ∈ [mkRaw "s1" (Md5 "m1") None (Some "lib :: conanfile.py.bak");
                mkRaw "s2" (Md5 "m2") None (Some "lib :: conanmanifest.txt");
                mkRaw "s9"
                  (Md5Checksums [("sha1", "s9"); ("md5", "m9"); ("sha256", "x9")])
                  (Some "conan_sources.tgz") None]
           ↔ a = mkRaw sha1 (Md5Checksums checksums)
                   (Some "conan_sources.tgz") None
             ∨ (raw_sha1 a ≠ sha1
                ∧ cached_artifact true (λ name, Ret ("lib :: " +:+ name))
                    (md_recipe_checksums sample_metadata) a).
Proof.
  apply (metadata_artifacts_sources (Some "admin") (Some "secret")
           (Some "apikey") sample_remote_url sample_urlparse
           (λ a b, a +:+ b) sample_get sample_response_checksums
           response_text sample_metadata "_/lib/1.0/_/r1/export" true
           (λ name, Ret ("lib :: " +:+ name)) None).
  - vm_compute. reflexivity.
  - vm_compute. reflexivity.
Defined.

(** X29. When the remote does not answer 200. For a recipe whose
    checksums lack [conan_sources.tgz] there is no result without the
    remote: the answer 401 makes the call raise
    [AuthenticationException], and every other answer but 200
    [RequestErrorException], with the text of the response, although
    the artifacts of the cache were all made. *)
Theorem metadata_artifacts_refused (user password apikey : option string)
    (remote_url : option string → Res string)
    (urlparse : string → string * string) (urljoin : string → string → string)
    (get : Request → Result Response)
    (response_checksums : Response → Res (odict string))
    (response_to_str : Response → string)
    (metadata : Metadata) (request_path : string) (use_id : bool)
    (name_format : string → Res string) (package_id : option string)
    (data : odict Checksums) (remote : string) (response : Response) :
  metadata_data metadata package_id = Ret (data, true) →
  Forall (λ item, ∃ n, name_format item.1 = Ret n) data →
  remote_url (md_recipe_remote metadata) = Ret remote →
  get (sources_request user password apikey
         (urljoin ((urlparse remote).1 +:+ "://" +:+ (urlparse remote).2
                   +:+ "/artifactory/api/storage/conan/")
            (request_path +:+ "/conan_sources.tgz"))) = Ok response →
  status_code response ≠ 200%Z →
  _get_metadata_artifacts user password apikey remote_url urlparse urljoin
    get response_checksums response_to_str metadata request_path use_id
    name_format package_id
  = Throw (Exn (if Z.eqb (status_code response) 401
                then AuthenticationException (response_to_str response)
                else RequestErrorException (response_to_str response))).
Proof.
  intros Hdata Hnames Hremote Hget Hstatus.
  unfold _get_metadata_artifacts. rewrite Hdata. simpl.
  assert (∀ ret0, ∃ ret,
            checksum_entries use_id name_format data ret0 = Ret ret)
    as Hloop.
  { unfold checksum_entries. clear Hdata.
    induction Hnames as [|item rest [n Hn] _ IH]; intros ret0.
    - by eexists.
    - rewrite for_each_res_cons, Hn. simpl. apply IH. }
  destruct (Hloop []) as [ret ->]. simpl.
  unfold fetch_sources. rewrite Hremote. simpl. rewrite Hget. simpl.
  rewrite (proj2 (Z.eqb_neq _ _) Hstatus).
  by destruct (Z.eqb (status_code response) 401).
Qed.

Lemma metadata_artifacts_refused_witness :
  _get_metadata_artifacts None None (Some "apikey") sample_remote_url
    sample_urlparse (λ a b, a +:+ b) sample_get_refused
    sample_response_checksums response_text sample_metadata
    "_/lib/1.0/_/r1/export" false (λ name, Ret name) None
  = Throw (Exn (if Z.eqb (status_code (mkResponse 403 "forbidden")) 401
                then AuthenticationException
                       (response_text (mkResponse 403 "forbidden"))
                else RequestErrorException
                       (response_text (mkResponse 403 "forbidden")))).
Proof.
  apply (metadata_artifacts_refused None None (Some "apikey")
           sample_remote_url sample_urlparse (λ a b, a +:+ b)
           sample_get_refused sample_response_checksums response_text
           sample_metadata "_/lib/1.0/_/r1/export" false (λ name, Ret name)
           None (md_recipe_checksums sample_metadata)
           "https://example.org/artifactory/api/conan/conan-local").
  - vm_compute. reflexivity.
  - repeat constructor; by eexists.
  - reflexivity.
  - reflexivity.
  - simpl. lia.
Defined.

(** ** The dependencies of a module, node by node *)

Lemma for_each_res_elem {A S} (xs : list A) (acc acc' : S) body x :
  for_each_res xs acc body = Ret acc' → x ∈ xs →
  ∃ a a', body x a = Ret a'.
Proof.
  revert acc. induction xs as [|y xs IH]; intros acc; [by intros _ []%elem_of_nil|].
  rewrite for_each_res_cons. intros (a1 & Hy & Hrest)%Res_bind_inv.
  intros [->|Hx]%elem_of_cons; [by exists acc, a1 | by eapply IH].
Qed.

(** When [process_lockfile] returns, every traversal that it started
    has returned. *)
Lemma process_lockfile_gathered hash loads multi_module recipe_artifacts
    package_artifacts limit nodes modules node item :
  process_lockfile hash loads multi_module recipe_artifacts package_artifacts
    limit nodes = Ret modules →
  node ∈ dict_values nodes → modified node = true → item ∈ requires node →
  (∃ s log, _gather_deps hash (λ p, recipe_artifacts p true true) limit
              item.2 (list_to_map nodes) = (Ok s, log))
  ∧ (∃ s log, _gather_deps hash (λ p, package_artifacts p true true) limit
                item.2 (list_to_map nodes) = (Ok s, log)).
Proof.
  intros Hrun Hnode Hmod Hitem.
  destruct (for_each_res_elem _ _ _ _ _ Hrun Hnode) as (a & a' & Hbody).
  unfold process_node in Hbody. rewrite Hmod in Hbody.
  apply Res_bind_inv in Hbody as (rk & _ & Hbody).
  apply Res_bind_inv in Hbody as (rarts & _ & Hbody).
  apply Res_bind_inv in Hbody as (pk & _ & Hbody).
  apply Res_bind_inv in Hbody as (parts & _ & Hbody).
  assert (∃ m0, for_each_res (requires node) m0
            (process_require hash recipe_artifacts package_artifacts limit
               (list_to_map nodes) rk pk) = Ret a') as [m0 Hloop].
  { destruct (requires node); [by apply elem_of_nil in Hitem | by eexists]. }
  destruct (for_each_res_elem _ _ _ _ _ Hloop Hitem) as (b & b' & Hreq).
  unfold process_require in Hreq.
  apply Res_bind_inv in Hreq as (d1 & Hd1%lift_Ret & Hreq).
  apply Res_bind_inv in Hreq as (d2 & Hd2%lift_Ret & _).
  split.
  - destruct (_gather_deps hash (λ p, recipe_artifacts p true true) limit
                item.2 (list_to_map nodes)) as [r l].
    simpl in Hd1. subst r. by exists d1, l.
  - destruct (_gather_deps hash (λ p, package_artifacts p true true) limit
                item.2 (list_to_map nodes)) as [r l].
    simpl in Hd2. subst r. by exists d2, l.
Qed.

(** X30. The dependencies of a module, from the lockfile to the
    resolvers: an artifact is a dependency of a module that
    [process_lockfile] returns exactly when a resolver (with ids and
    prefixes) returns it for a node that a dependency path reaches from a
    node required by a modified node with that key: the resolver of
    recipes for the reference, the resolver of packages for the package
    key. The files of the modified node itself are no dependency of its
    modules unless such a path leads back to it. *)
Theorem process_lockfile_closure (hash : string → Z)
    (loads : string → Res Ref) (multi_module : bool)
    (recipe_artifacts package_artifacts : string → bool → bool → Result PySet)
    (limit : nat) (nodes : odict LockNode) (modules : odict SetModule)
    (k : string) (m : SetModule) (a : Artifact) :
  graph_wf (list_to_map nodes) →
  process_lockfile hash loads multi_module recipe_artifacts package_artifacts
    limit nodes = Ret modules →
  (k, m) ∈ modules →
  a ∈ sm_dependencies m ↔
    ∃ node item path v reached,
      node ∈ dict_values nodes ∧ modified node = true
      ∧ item ∈ requires node
      ∧ walk (list_to_map nodes) item.2 path = Some v
      ∧ (list_to_map nodes : gmap string LockNode) !! v = Some reached
      ∧ (_get_reference loads (pref node) = Ret k
         ∧ (∃ arts, recipe_artifacts (pref reached) true true = Ok arts
                    ∧ a ∈ arts)
         ∨ package_key loads multi_module (pref node) = Ret k
           ∧ (∃ arts, package_artifacts (pref reached) true true = Ok arts
                      ∧ a ∈ arts)).
Proof.
  intros Hwf Hrun Hin.
  pose proof (process_lockfile_inv _ _ _ _ _ _ _ _ Hrun)
    as (Hnd & _ & _ & _ & Hdeps).
  rewrite <- (module_at_elem k m modules Hnd Hin), Hdeps.
  unfold node_dependencies. split.
  - intros (node & Hnode & Hmod & item & Hitem & H).
    destruct H as [(Hk & s & Hs & Ha)|(Hk & s & Hs & Ha)].
    + destruct (_gather_deps hash (λ p, recipe_artifacts p true true) limit
                  item.2 (list_to_map nodes)) as [r l] eqn:Hg.
      simpl in Hs. subst r.
      apply (gather_deps_elem _ _ _ _ _ _ _ Hwf Hg) in Ha
        as (path & v & reached & arts & Hwalk & Hv & Hf & Ha).
      exists node, item, path, v, reached. repeat (split; [done|]).
      left. eauto.
    + destruct (_gather_deps hash (λ p, package_artifacts p true true) limit
                  item.2 (list_to_map nodes)) as [r l] eqn:Hg.
      simpl in Hs. subst r.
      apply (gather_deps_elem _ _ _ _ _ _ _ Hwf Hg) in Ha
        as (path & v & reached & arts & Hwalk & Hv & Hf & Ha).
      exists node, item, path, v, reached. repeat (split; [done|]).
      right. eauto.
  - intros (node & item & path & v & reached & Hnode & Hmod & Hitem
            & Hwalk & Hv & H).
    destruct (process_lockfile_gathered _ _ _ _ _ _ _ _ _ _
                Hrun Hnode Hmod Hitem) as [(s1 & l1 & Hg1) (s2 & l2 & Hg2)].
    exists node. split; [done|]. split; [done|]. exists item. split; [done|].
    destruct H as [(Hk & arts & Hf & Ha)|(Hk & arts & Hf & Ha)].
    + left. split; [done|]. exists s1. rewrite Hg1. split; [done|].
      apply (gather_deps_elem _ _ _ _ _ _ _ Hwf Hg1).
      by exists path, v, reached, arts.
    + right. split; [done|]. exists s2. rewrite Hg2. split; [done|].
      apply (gather_deps_elem _ _ _ _ _ _ _ Hwf Hg2).
      by exists path, v, reached, arts.
Qed.

Lemma process_lockfile_closure_witness :
  ∃ modules m,
    process_lockfile sample_hash sample_loads true sample_recipe_artifacts
      sample_package_artifacts 1000 sample_nodes = Ret modules
    ∧ ("app/1.0@user/stable:p0", m) ∈ modules
    ∧ mkArtifact "sha1 of package lib#r1:p1#v1" "md5" None
        (Some "lib#r1:p1#v1 :: conan_package.tgz") ∈ sm_dependencies m.
Proof.
  assert (Hwf : graph_wf (list_to_map sample_nodes)).
  { apply (bool_decide_unpack _). vm_compute. exact I. }
  assert (∃ modules m,
            process_lockfile sample_hash sample_loads true
              sample_recipe_artifacts sample_package_artifacts 1000
              sample_nodes = Ret modules
            ∧ ("app/1.0@user/stable:p0", m) ∈ modules)
    as (modules & m & Hrun & Hin).
  { eexists _, _. split; [vm_compute; reflexivity|].
    apply list_elem_of_further, list_elem_of_here. }
  exists modules, m. split; [done|]. split; [done|].
  apply (proj2 (process_lockfile_closure sample_hash sample_loads true
                  sample_recipe_artifacts sample_package_artifacts 1000
                  sample_nodes modules "app/1.0@user/stable:p0" m _
                  Hwf Hrun Hin)).
  exists (mkNode "app#r0:p0#v0" [("lib", "1")] true), ("lib", "1"), [], "1",
    (mkNode "lib#r1:p1#v1" [] false).
  split; [apply list_elem_of_here|]. split; [done|].
  split; [apply list_elem_of_here|]. split; [vm_compute; reflexivity|].
  split; [vm_compute; reflexivity|]. right.
  split; [vm_compute; reflexivity|]. eexists. split; [reflexivity|]. left.
Defined.

(* ================================================================== *)
(** * The merge on any documents *)

(** ** One iteration of the loop, whatever the modules hold *)

Lemma elem_of_list_insert_inv {A} (l : list A) i x y :
  y ∈ <[i := x]> l → y ∈ l ∨ y = x.
Proof.
  intros [j Hj]%list_elem_of_lookup.
  apply list_lookup_insert_Some in Hj as [(_ & -> & _)|[_ Hj]]; [by right|].
  left. by eapply list_elem_of_lookup_2.
Qed.

Lemma lookup_module_is_Some mid ms :
  is_Some (lookup_module mid ms) ↔ mid ∈ mod_id <$> ms.
Proof.
  rewrite <- not_eq_None_Some, lookup_module_None.
  split; [apply dec_stable | by intros ? ?].
Qed.

(** [found_module] is the entry that [find_module] points to. *)
Lemma find_module_found mid ms :
  (find_module ms mid).2 !! (find_module ms mid).1
    = Some (found_module mid ms).
Proof.
  unfold find_module, found_module, lookup_module.
  destruct (list_find _ ms) as [[i lm]|] eqn:Hfind; simpl.
  - by apply list_find_Some in Hfind as (Hi & _).
  - by rewrite list_lookup_middle.
Qed.

(** What an iteration does: it merges, into the first module of the left
    side with the id of [r], or into an empty one, the artifacts and then
    the dependencies of [r]; the module is the one of that id afterwards,
    and the others are as they were. *)
Lemma merge_module_run r ms :
  match merge_module r ms with
  | Ok ms1 =>
      ∃ arts deps,
        merge_artifacts (found_module (mod_id r) ms) r "artifacts" "name"
          = Ok arts
        ∧ merge_artifacts
            (mkModule (mod_id r) arts
               (mod_dependencies (found_module (mod_id r) ms)))
            r "dependencies" "id" = Ok deps
        ∧ (∀ mid, lookup_module mid ms1 =
             if decide (mid = mod_id r)
             then Some (mkModule (mod_id r) arts deps)
             else lookup_module mid ms)
        ∧ (∀ m, m ∈ ms1 → m ∈ ms ∨ m = mkModule (mod_id r) arts deps)
  | Raise e =>
      merge_artifacts (found_module (mod_id r) ms) r "artifacts" "name"
        = Raise e
      ∨ ∃ arts,
          merge_artifacts (found_module (mod_id r) ms) r "artifacts" "name"
            = Ok arts
          ∧ merge_artifacts
              (mkModule (mod_id r) arts
                 (mod_dependencies (found_module (mod_id r) ms)))
              r "dependencies" "id" = Raise e
  end.
Proof.
  unfold merge_module, find_module, found_module.
  destruct (list_find _ ms) as [[i lm]|] eqn:Hfind.
  - assert (Hlm : lookup_module (mod_id r) ms = Some lm).
    { unfold lookup_module. by rewrite Hfind. }
    pose proof Hfind as (Hi & Heq%String.eqb_eq & _)%list_find_Some.
    rewrite Hlm, Hi. simpl default.
    destruct (merge_artifacts lm r "artifacts" "name") as [arts|e] eqn:Harts;
      [|by left].
    rewrite Result_bind_Ok. cbn zeta. simpl mod_id. rewrite Heq.
    destruct (merge_artifacts (mkModule (mod_id r) arts (mod_dependencies lm))
                r "dependencies" "id") as [deps|e] eqn:Hdeps;
      [|right; by exists arts].
    rewrite Result_bind_Ok. exists arts, deps. repeat (split; [done|]). split.
    + intros mid. by apply lookup_module_insert with (lm := lm).
    + intros m. apply elem_of_list_insert_inv.
  - assert (Hnone : lookup_module (mod_id r) ms = None).
    { unfold lookup_module. by rewrite Hfind. }
    rewrite Hnone, list_lookup_middle by done. simpl default.
    destruct (merge_artifacts (mkModule (mod_id r) [] []) r "artifacts" "name")
      as [arts|e] eqn:Harts; [|by left].
    rewrite Result_bind_Ok. cbn zeta. simpl mod_id. simpl mod_dependencies.
    destruct (merge_artifacts (mkModule (mod_id r) arts []) r
                "dependencies" "id") as [deps|e] eqn:Hdeps;
      [|right; by exists arts].
    rewrite Result_bind_Ok. exists arts, deps. repeat (split; [done|]).
    replace (length ms) with (length ms + 0)%nat by lia.
    rewrite insert_app_r. simpl. split.
    + intros mid. rewrite lookup_module_snoc. simpl.
      destruct (decide (mid = mod_id r)) as [->|Hne].
      * rewrite Hnone. by rewrite decide_True.
      * destruct (lookup_module mid ms); [done|]. by rewrite decide_False.
    + intros m [Hm|Hm%list_elem_of_singleton]%elem_of_app; [by left | by right].
Qed.

Lemma getlist_artifacts m :
  BuildModule_getlist m "artifacts" = Ok (mod_artifacts m).
Proof. reflexivity. Qed.

Lemma getlist_dependencies m :
  BuildModule_getlist m "dependencies" = Ok (mod_dependencies m).
Proof. reflexivity. Qed.

(** The two calls of [merge_artifacts] of an iteration. *)
Lemma merge_artifacts_name lm r :
  match merge_artifacts lm r "artifacts" "name" with
  | Ok res =>
      Forall (λ a, is_Some (key_of "name" a))
        (mod_artifacts lm ++ mod_artifacts r)
      ∧ well_keyed "name" res
      ∧ carried "name" mod_artifacts (mod_id r) lm [r]
          (mkModule (mod_id r) res [])
  | Raise e =>
      e = KeyError "name"
      ∧ ¬ Forall (λ a, is_Some (key_of "name" a))
            (mod_artifacts lm ++ mod_artifacts r)
  end.
Proof.
  pose proof (merge_artifacts_general lm r "artifacts" "name" _ _
                (getlist_artifacts lm) (getlist_artifacts r)) as H.
  destruct (merge_artifacts lm r "artifacts" "name") as [res|e]; [|done].
  destruct H as (Hk & Hwf & Hfrom & Hkeys & Hleft).
  split; [done|]. split; [done|]. unfold carried. simpl.
  split; [intros a Ha; apply Hkeys, elem_of_app; by left|].
  split.
  { intros rm a ->%list_elem_of_singleton _ Ha.
    apply Hkeys, elem_of_app. by right. }
  split; [|done].
  intros a [Ha|Ha]%Hfrom; [by left|]. right. exists r.
  split; [apply list_elem_of_singleton|]; done.
Qed.

Lemma merge_artifacts_id lm r :
  match merge_artifacts lm r "dependencies" "id" with
  | Ok res =>
      Forall (λ a, is_Some (key_of "id" a))
        (mod_dependencies lm ++ mod_dependencies r)
      ∧ well_keyed "id" res
      ∧ carried "id" mod_dependencies (mod_id r) lm [r]
          (mkModule (mod_id r) [] res)
  | Raise e =>
      e = KeyError "id"
      ∧ ¬ Forall (λ a, is_Some (key_of "id" a))
            (mod_dependencies lm ++ mod_dependencies r)
  end.
Proof.
  pose proof (merge_artifacts_general lm r "dependencies" "id" _ _
                (getlist_dependencies lm) (getlist_dependencies r)) as H.
  destruct (merge_artifacts lm r "dependencies" "id") as [res|e]; [|done].
  destruct H as (Hk & Hwf & Hfrom & Hkeys & Hleft).
  split; [done|]. split; [done|]. unfold carried. simpl.
  split; [intros a Ha; apply Hkeys, elem_of_app; by left|].
  split.
  { intros rm a ->%list_elem_of_singleton _ Ha.
    apply Hkeys, elem_of_app. by right. }
  split; [|done].
  intros a [Ha|Ha]%Hfrom; [by left|]. right. exists r.
  split; [apply list_elem_of_singleton|]; done.
Qed.

(** An iteration that returns has read the key of every entry of [r] and
    of the module it found, and leaves a well-formed module under the id
    of [r]. *)
Lemma merge_module_Ok r ms ms1 :
  merge_module r ms = Ok ms1 →
  module_keyed r
  ∧ module_keyed (found_module (mod_id r) ms)
  ∧ (∃ m', lookup_module (mod_id r) ms1 = Some m' ∧ module_wf m'
       ∧ carried "name" mod_artifacts (mod_id r)
           (found_module (mod_id r) ms) [r] m'
       ∧ carried "id" mod_dependencies (mod_id r)
           (found_module (mod_id r) ms) [r] m')
  ∧ (∀ mid, mid ≠ mod_id r → lookup_module mid ms1 = lookup_module mid ms).
Proof.
  intros Hrun. pose proof (merge_module_run r ms) as Hcase.
  rewrite Hrun in Hcase.
  destruct Hcase as (arts & deps & Harts & Hdeps & Hlook & _).
  pose proof (merge_artifacts_name (found_module (mod_id r) ms) r) as Ha.
  rewrite Harts in Ha. destruct Ha as (Hka & Hwa & Hca).
  pose proof (merge_artifacts_id
                (mkModule (mod_id r) arts
                   (mod_dependencies (found_module (mod_id r) ms))) r) as Hd.
  rewrite Hdeps in Hd. destruct Hd as (Hkd & Hwd & Hcd). simpl in Hkd.
  apply Forall_app in Hka as [Hkla Hkra].
  apply Forall_app in Hkd as [Hkld Hkrd].
  split; [done|]. split; [done|]. split.
  - exists (mkModule (mod_id r) arts deps).
    split; [by rewrite Hlook, decide_True|]. split; [by split|].
    split; [exact Hca | exact Hcd].
  - intros mid Hne. by rewrite Hlook, decide_False.
Qed.

(** An iteration raises [KeyError] of the key it compares by, and
    nothing else. *)
Lemma merge_module_Raise r ms e :
  merge_module r ms = Raise e → e = KeyError "name" ∨ e = KeyError "id".
Proof.
  intros Hrun. pose proof (merge_module_run r ms) as Hcase.
  rewrite Hrun in Hcase. destruct Hcase as [Harts|(arts & _ & Hdeps)].
  - pose proof (merge_artifacts_name (found_module (mod_id r) ms) r) as Ha.
    rewrite Harts in Ha. left. by destruct Ha.
  - pose proof (merge_artifacts_id
                  (mkModule (mod_id r) arts
                     (mod_dependencies (found_module (mod_id r) ms))) r) as Hd.
    rewrite Hdeps in Hd. right. by destruct Hd.
Qed.

(** An iteration on entries that have their keys returns, and the
    entries it leaves have their keys. *)
Lemma merge_module_returns r ms :
  module_keyed r → module_keyed (found_module (mod_id r) ms) →
  ∃ ms1 m1, merge_module r ms = Ok ms1 ∧ module_keyed m1
    ∧ ∀ mid, lookup_module mid ms1 =
        if decide (mid = mod_id r) then Some m1 else lookup_module mid ms.
Proof.
  intros [Hra Hrd] [Hla Hld].
  pose proof (merge_module_run r ms) as Hcase.
  pose proof (merge_artifacts_name (found_module (mod_id r) ms) r) as Ha.
  destruct (merge_artifacts _ r "artifacts" "name") as [arts|e] eqn:Harts.
  - destruct Ha as (_ & [Hwa _] & _).
    pose proof (merge_artifacts_id
                  (mkModule (mod_id r) arts
                     (mod_dependencies (found_module (mod_id r) ms))) r) as Hd.
    destruct (merge_artifacts _ r "dependencies" "id") as [deps|e] eqn:Hdeps.
    + destruct Hd as (_ & [Hwd _] & _).
      destruct (merge_module r ms) as [ms1|e].
      * destruct Hcase as (arts' & deps' & Ha' & Hd' & Hlook & _).
        injection Ha' as <-. rewrite Hdeps in Hd'. injection Hd' as <-.
        exists ms1, (mkModule (mod_id r) arts deps). by repeat split.
      * destruct Hcase as [?|(arts' & Ha' & Hd')]; [done|].
        injection Ha' as <-. by rewrite Hdeps in Hd'.
    + destruct Hd as [_ Hd]. exfalso. apply Hd. simpl. by apply Forall_app.
  - destruct Ha as [_ Ha]. exfalso. apply Ha. by apply Forall_app.
Qed.

(** ** The loop, whatever the modules hold *)

Lemma carried_refl cmp_key f mid m : carried cmp_key f mid m [] m.
Proof.
  unfold carried. split; [intros a Ha; by apply list_elem_of_fmap_2|].
  split; [by intros rm a []%elem_of_nil|]. split; [by left | done].
Qed.

Lemma carried_skip cmp_key f mid m r rs m' :
  mod_id r ≠ mid → carried cmp_key f mid m rs m' →
  carried cmp_key f mid m (r :: rs) m'.
Proof.
  intros Hne (H1 & H2 & H3 & H4). unfold carried.
  split; [done|]. split; [|split; [|done]].
  - intros rm a [->|Hrm]%elem_of_cons Hid; [done|]. by apply H2.
  - intros a [Ha|(rm & Hrm & Hid & Ha)]%H3; [by left|].
    right. exists rm. split; [by right | done].
Qed.

Lemma carried_step cmp_key f mid m r rs m1 m' :
  carried cmp_key f mid m [r] m1 → carried cmp_key f mid m1 rs m' →
  carried cmp_key f mid m (r :: rs) m'.
Proof.
  intros (S1 & S2 & S3 & S4) (H1 & H2 & H3 & H4).
  assert (Hkeys : ∀ k, k ∈ key_of cmp_key <$> f m1 →
                       k ∈ key_of cmp_key <$> f m').
  { intros k (b & -> & Hb)%list_elem_of_fmap. by apply H1. }
  unfold carried. split; [|split; [|split]].
  - intros a Ha. by apply Hkeys, S1.
  - intros rm a [->|Hrm]%elem_of_cons Hid Ha.
    + apply Hkeys, (S2 r); [left | done | done].
    + by apply (H2 rm).
  - intros a [Ha|(rm & Hrm & Hid & Ha)]%H3.
    + apply S3 in Ha as [Ha|(rm & ->%list_elem_of_singleton & Hid & Ha)];
        [by left|].
      right. exists r. split; [left | done].
    + right. exists rm. split; [by right | done].
  - intros a Ha Hk. apply S4; [|done]. apply H4; [done|].
    apply list_elem_of_fmap in Hk as (b & -> & Hb). by apply S1.
Qed.

(** The modules under the other ids are as they were. *)
Lemma merge_loop_other rs ms ms' mid :
  for_each rs ms merge_module = Ok ms' → mid ∉ mod_id <$> rs →
  lookup_module mid ms' = lookup_module mid ms.
Proof.
  revert ms. induction rs as [|r rs IH]; intros ms.
  - by intros [= <-].
  - rewrite for_each_cons.
    destruct (merge_module r ms) as [ms1|e] eqn:Hstep; [|done].
    rewrite Result_bind_Ok. intros Hrest.
    rewrite fmap_cons. intros [Hne Hnin]%not_elem_of_cons.
    rewrite (IH _ Hrest Hnin).
    by apply (merge_module_Ok _ _ _ Hstep).
Qed.

Lemma found_module_other r ms ms1 mid :
  merge_module r ms = Ok ms1 → mid ≠ mod_id r →
  found_module mid ms1 = found_module mid ms.
Proof.
  intros Hstep Hne. unfold found_module.
  destruct (merge_module_Ok _ _ _ Hstep) as (_ & _ & _ & Hother).
  by rewrite Hother.
Qed.

(** A loop that returns has read the key of every entry of the modules
    of the right side, and of the modules it found for them. *)
Lemma merge_loop_Ok_keyed rs ms ms' :
  for_each rs ms merge_module = Ok ms' →
  ∀ rm, rm ∈ rs →
    module_keyed rm ∧ module_keyed (found_module (mod_id rm) ms).
Proof.
  revert ms. induction rs as [|r rs IH]; intros ms.
  - by intros _ rm []%elem_of_nil.
  - rewrite for_each_cons.
    destruct (merge_module r ms) as [ms1|e] eqn:Hstep; [|done].
    rewrite Result_bind_Ok. intros Hrest.
    destruct (merge_module_Ok _ _ _ Hstep) as (Hk & Hf & _ & _).
    intros rm [->|Hrm]%elem_of_cons; [done|].
    destruct (IH _ Hrest rm Hrm) as [Hkm Hfm]. split; [done|].
    destruct (decide (mod_id rm = mod_id r)) as [->|Hne]; [done|].
    by rewrite <- (found_module_other r ms ms1).
Qed.

(** What a loop that returns leaves under an id. *)
Lemma merge_loop_carried rs ms ms' :
  for_each rs ms merge_module = Ok ms' →
  ∀ mid, mid ∈ mod_id <$> ms ∨ mid ∈ mod_id <$> rs →
    ∃ m', lookup_module mid ms' = Some m'
      ∧ (mid ∈ mod_id <$> rs → module_wf m')
      ∧ carried "name" mod_artifacts mid (found_module mid ms) rs m'
      ∧ carried "id" mod_dependencies mid (found_module mid ms) rs m'.
Proof.
  revert ms. induction rs as [|r rs IH]; intros ms.
  - intros [= <-] mid [Hin|[]%elem_of_nil].
    apply lookup_module_is_Some in Hin as [m Hm]. exists m.
    unfold found_module. rewrite Hm. simpl.
    split; [done|]. split; [by intros []%elem_of_nil|].
    split; apply carried_refl.
  - rewrite for_each_cons.
    destruct (merge_module r ms) as [ms1|e] eqn:Hstep; [|done].
    rewrite Result_bind_Ok. intros Hrest mid Hmid.
    destruct (merge_module_Ok _ _ _ Hstep)
      as (_ & _ & (m1 & Hm1 & Hwf1 & Hca & Hcd) & Hother).
    destruct (decide (mid = mod_id r)) as [->|Hne].
    + destruct (IH _ Hrest (mod_id r)) as (m' & Hm' & Hwf' & Ha' & Hd').
      { left. apply lookup_module_is_Some. by exists m1. }
      unfold found_module in Ha', Hd'. rewrite Hm1 in Ha', Hd'.
      simpl in Ha', Hd'. exists m'. split; [done|]. split.
      * intros _. destruct (decide (mod_id r ∈ mod_id <$> rs)) as [Hin|Hnin];
          [by apply Hwf'|].
        rewrite (merge_loop_other _ _ _ _ Hrest Hnin), Hm1 in Hm'.
        by injection Hm' as <-.
      * split; by eapply carried_step.
    + destruct (IH _ Hrest mid) as (m' & Hm' & Hwf' & Ha' & Hd').
      { destruct Hmid as [Hin|Hin].
        - left. apply lookup_module_is_Some. rewrite Hother by done.
          by apply lookup_module_is_Some.
        - right. rewrite fmap_cons in Hin.
          by apply elem_of_cons in Hin as [?|?]. }
      rewrite (found_module_other r ms ms1) in Ha', Hd' by done.
      exists m'. split; [done|]. split.
      * rewrite fmap_cons. intros [?|?]%elem_of_cons; [done|]. by apply Hwf'.
      * split; by apply carried_skip.
Qed.

(** A loop on entries that have their keys returns. *)
Lemma merge_loop_returns rs ms :
  (∀ rm, rm ∈ rs →
     module_keyed rm ∧ module_keyed (found_module (mod_id rm) ms)) →
  ∃ ms', for_each rs ms merge_module = Ok ms'.
Proof.
  revert ms. induction rs as [|r rs IH]; intros ms Hall.
  - by exists ms.
  - rewrite for_each_cons.
    destruct (Hall r) as [Hk Hf]; [left|].
    destruct (merge_module_returns r ms Hk Hf) as (ms1 & m1 & Hstep & Hk1 & Hlook).
    rewrite Hstep, Result_bind_Ok. apply IH. intros rm Hrm.
    destruct (Hall rm) as [Hkm Hfm]; [by right|]. split; [done|].
    destruct (decide (mod_id rm = mod_id r)) as [Heq|Hne].
    + unfold found_module. by rewrite Hlook, decide_True.
    + by rewrite (found_module_other r ms ms1).
Qed.

Lemma merge_loop_Raise rs ms e :
  for_each rs ms merge_module = Raise e →
  e = KeyError "name" ∨ e = KeyError "id".
Proof.
  revert ms. induction rs as [|r rs IH]; intros ms; [done|].
  rewrite for_each_cons.
  destruct (merge_module r ms) as [ms1|e'] eqn:Hstep.
  - rewrite Result_bind_Ok. apply IH.
  - intros [= <-]. by eapply merge_module_Raise.
Qed.

(** ** The merge of two compatible documents *)

Lemma Forall_merge_reads ms rs :
  Forall module_keyed (merge_reads ms rs) ↔
  ∀ rm, rm ∈ rs →
    module_keyed rm ∧ module_keyed (found_module (mod_id rm) ms).
Proof.
  unfold merge_reads. rewrite Forall_app, !Forall_forall. split.
  - intros [Hrs Hfound] rm Hrm. split; [by apply Hrs|].
    unfold found_module.
    destruct (lookup_module (mod_id rm) ms) as [lm|] eqn:Hlm.
    + apply Hfound, list_elem_of_omap. by exists rm.
    + by split; constructor.
  - intros Hall. split; [intros rm Hrm; by apply Hall|].
    intros lm (rm & Hrm & Hlm)%list_elem_of_omap.
    destruct (Hall rm Hrm) as [_ Hf]. unfold found_module in Hf.
    by rewrite Hlm in Hf.
Qed.

Lemma merge_buildinfo_loop l r :
  compatible l r →
  merge_buildinfo (Some l) (Some r) =
    modules ← for_each (bi_modules r) (bi_modules l) merge_module;
    Ok (Some (set_modules l modules)).
Proof.
  intros (Hv & Hn & Hnum). unfold merge_buildinfo. simpl.
  by rewrite Hv, Hn, Hnum, !String.eqb_refl.
Qed.

(** The merge of compatible documents returns a document exactly when
    the entries it reads have their keys, and raises [KeyError]
    otherwise. *)
Lemma merge_buildinfo_returns l r :
  compatible l r →
  ((∃ d', merge_buildinfo (Some l) (Some r) = Ok (Some d'))
   ↔ Forall module_keyed (merge_reads (bi_modules l) (bi_modules r)))
  ∧ ((∃ e, merge_buildinfo (Some l) (Some r) = Raise e)
     ↔ ¬ Forall module_keyed (merge_reads (bi_modules l) (bi_modules r)))
  ∧ (∀ e, merge_buildinfo (Some l) (Some r) = Raise e →
          e = KeyError "name" ∨ e = KeyError "id").
Proof.
  intros Hc. rewrite (merge_buildinfo_loop l r Hc), Forall_merge_reads.
  destruct (for_each (bi_modules r) (bi_modules l) merge_module)
    as [ms'|e] eqn:Hloop; simpl.
  - pose proof (merge_loop_Ok_keyed _ _ _ Hloop) as Hk.
    split; [split; [done | by eexists]|].
    split; [|done]. split; [by intros [e ?] | by intros []].
  - assert (Hnot : ¬ ∀ rm, rm ∈ bi_modules r →
               module_keyed rm
               ∧ module_keyed (found_module (mod_id rm) (bi_modules l))).
    { intros Hall. apply merge_loop_returns in Hall as [ms' Hms'].
      by rewrite Hloop in Hms'. }
    split; [split; [by intros [d' ?] | done]|].
    split; [split; [done | by eexists]|].
    intros e' [= <-]. by eapply merge_loop_Raise.
Qed.

Lemma lookup_module_unique ms m :
  NoDup (mod_id <$> ms) → m ∈ ms → lookup_module (mod_id m) ms = Some m.
Proof.
  intros Hnd [i Hi]%list_elem_of_lookup. unfold lookup_module.
  by rewrite (list_find_unique ms i m Hnd Hi).
Qed.


(** ** Merging a document with itself *)

Lemma merge_reads_self ms :
  Forall module_keyed (merge_reads ms ms) ↔ Forall module_keyed ms.
Proof.
  unfold merge_reads. rewrite Forall_app. split; [by intros [? _]|].
  intros Hall. split; [done|]. apply Forall_forall.
  intros lm (rm & _ & [_ Hlm]%lookup_module_id)%list_elem_of_omap.
  by eapply Forall_forall in Hall.
Qed.

(** A merge into a document whose module ids are distinct, from a
    document that has no other module ids, returns a well-formed
    document. *)
Lemma merge_loop_wf rs ms ms' :
  NoDup (mod_id <$> ms) →
  (∀ i, i ∈ mod_id <$> ms ↔ i ∈ mod_id <$> rs) →
  for_each rs ms merge_module = Ok ms' →
  NoDup (mod_id <$> ms') ∧ Forall module_wf ms'.
Proof.
  intros Hnd Hids Hloop.
  destruct (merge_loop_ids _ _ _ Hloop) as (new & Hnew & _ & Hchar & _).
  assert (new = []) as ->.
  { destruct new as [|i new]; [done|]. exfalso.
    destruct (Hchar i) as [[Hin Hnin] _]; [left|]. by apply Hnin, Hids. }
  rewrite app_nil_r in Hnew. assert (Hnd' : NoDup (mod_id <$> ms')).
  { by rewrite Hnew. }
  split; [done|]. apply Forall_forall. intros m Hm.
  destruct (merge_loop_carried _ _ _ Hloop (mod_id m))
    as (m' & Hm' & Hwf & _).
  { left. rewrite <- Hnew. by apply list_elem_of_fmap_2. }
  rewrite (lookup_module_unique ms' m Hnd' Hm) in Hm'. injection Hm' as <-.
  apply Hwf, Hids. rewrite <- Hnew. by apply list_elem_of_fmap_2.
Qed.

(** C7. The merge of a document with itself, [merge_buildinfo(d, d)]:
    - it raises exactly when an artifact of [d] has no name or a
      dependency of [d] has no id, and what it raises is the [KeyError]
      of that key: never a conflict;
    - when the module ids of [d] are distinct, what it returns is
      well-formed (in every module every artifact has a name, every
      dependency an id, and no name and no id occurs twice), so it
      returns a document equal to [d] exactly when [d] is well-formed;
    - on one object that holds a well-formed document, the call returns
      that object and leaves the heap as it was. *)
Theorem merge_idempotent (d : BuildInfo) :
  ((∃ e, merge_buildinfo (Some d) (Some d) = Raise e)
   ↔ ¬ Forall module_keyed (bi_modules d))
  ∧ (∀ e, merge_buildinfo (Some d) (Some d) = Raise e →
          e = KeyError "name" ∨ e = KeyError "id")
  ∧ (NoDup (mod_id <$> bi_modules d) →
     (∀ d', merge_buildinfo (Some d) (Some d) = Ok (Some d') → doc_wf d')
     ∧ (merge_buildinfo (Some d) (Some d) = Ok (Some d) ↔ doc_wf d))
  ∧ (doc_wf d →
     ∀ (h : gmap nat InPlace.obj) l ld items,
       h !! l = Some (InPlace.ODoc ld) →
       h !! InPlace.do_modules ld = Some (InPlace.OList items) →
       InPlace.rep h items (bi_modules d) →
       InPlace.merge_buildinfo l l h = Some (Ok l, h)).
Proof.
  assert (Hc : compatible d d) by done.
  destruct (merge_buildinfo_returns d d Hc) as (_ & Hraise & Herr).
  rewrite merge_reads_self in Hraise.
  split; [done|]. split; [done|]. split.
  - intros Hnd.
    assert (Hres : ∀ d', merge_buildinfo (Some d) (Some d) = Ok (Some d') →
                         doc_wf d').
    { intros d' (_ & ms' & Hloop & [= ->])%merge_buildinfo_Ok_inv.
      by apply (merge_loop_wf (bi_modules d) (bi_modules d)). }
    split; [done|]. split; [by apply Hres|].
    intros [_ Hwf]. rewrite (merge_buildinfo_loop d d Hc).
    rewrite merge_loop_self by done. simpl. by destruct d.
  - intros [Hnd Hwf] h l ld items Hl Hcur Hrep.
    by eapply InPlaceFacts.merge_self_in_place.
Qed.

Lemma merge_idempotent_witness :
  doc_wf session_doc
  ∧ merge_buildinfo (Some session_doc) (Some session_doc) = Ok (Some session_doc)
  ∧ InPlace.merge_buildinfo 4 4 sample_heap = Some (Ok 4, sample_heap).
Proof.
  assert (Hwf : ∀ d, bool_decide (doc_wf d) = true → doc_wf d).
  { intros d. apply bool_decide_eq_true_1. }
  assert (Hwf1 : doc_wf session_doc) by (apply Hwf; vm_compute; reflexivity).
  split; [exact Hwf1|]. split.
  - destruct (merge_idempotent session_doc) as (_ & _ & Hsame & _).
    apply Hsame; [apply Hwf1 | exact Hwf1].
  - assert (Hwf2 : doc_wf (sample_doc [libfoo_recipe'; libbar_recipe])).
    { apply Hwf. vm_compute. reflexivity. }
    destruct (merge_idempotent (sample_doc [libfoo_recipe'; libbar_recipe]))
      as (_ & _ & _ & Hheap).
    apply (Hheap Hwf2 sample_heap 4
             (InPlace.mkDocObj "1.0.1" "build" "7" "GENERIC" "" ("", "") 5 None)
             [6; 7]).
    + vm_compute. reflexivity.
    + vm_compute. reflexivity.
    + repeat constructor.
Defined.

Lemma agree_self_distinct cmp_key (items : list Artifact) :
  NoDup (key_of cmp_key <$> items) → agree cmp_key items items.
Proof.
  intros Hnd a b [i Hi]%list_elem_of_lookup [j Hj]%list_elem_of_lookup Hk.
  assert (i = j) as ->; [|congruence].
  apply (NoDup_lookup _ i j (key_of cmp_key a) Hnd).
  - by rewrite list_lookup_fmap, Hi.
  - by rewrite list_lookup_fmap, Hj, Hk.
Qed.

(** C7, the claim refuted: the document [sources_doc] has one module,
    in which no name and no id occurs twice; its merge with itself raises
    [KeyError('id')], on two equal values and on one object. And the
    merge with itself of a document that lists one artifact twice returns
    a document that lists it once. *)
Lemma merge_self_raises :
  conflict_free sources_doc
  ∧ NoDup (mod_id <$> bi_modules sources_doc)
  ∧ merge_buildinfo (Some sources_doc) (Some sources_doc)
      = Raise (KeyError "id")
  ∧ fst <$> InPlace.merge_buildinfo 1 1 sources_heap
      = Some (Raise (KeyError "id"))
  ∧ conflict_free (sample_doc [libbaz_repeated])
  ∧ merge_buildinfo (Some (sample_doc [libbaz_repeated]))
                    (Some (sample_doc [libbaz_repeated]))
      = Ok (Some (sample_doc
                    [mkModule "libbaz/3.0"
                       [mkArtifact "aaa" "111" (Some "lib.a") None] []])).
Proof.
  split.
  { repeat constructor; apply agree_self_distinct;
      apply (bool_decide_unpack _); vm_compute; exact I. }
  split; [apply (bool_decide_unpack _); vm_compute; exact I|].
  split; [vm_compute; reflexivity|].
  split; [vm_compute; reflexivity|].
  split; [|vm_compute; reflexivity].
  repeat constructor; simpl.
  - intros a b. rewrite !elem_of_cons, !elem_of_nil.
    intros [->|[->|[]]] [->|[->|[]]] _; reflexivity.
  - by intros a b []%elem_of_nil.
Qed.

(** ** Merging two documents *)





(** ** The merge in place *)

Lemma rep_elem_of (h : gmap InPlace.loc InPlace.obj) items ms l :
  InPlace.rep h items ms → l ∈ items →
  ∃ m, h !! l = Some (InPlace.OModule m).
Proof.
  intros Hrep [i Hi]%list_elem_of_lookup.
  destruct (Forall2_lookup_l _ _ _ _ _ Hrep Hi) as (m & _ & Hm).
  by exists m.
Qed.

(** C10. The merge of two documents on the heap that share no list of
    modules and no module, [merge_buildinfo(lhs, rhs)], always ends, and
    - what it returns, when it returns, is the left location;
    - every object of the right document is as it was, so the right
      location holds the same document;
    - the left location holds the same dict, which points to the same
      list object, and this list has grown by objects created during the
      merge;
    - when the left list holds no module twice, the call raises what the
      merge on the values of the two documents raises, or it returns the
      left location, which then holds the document that the merge on
      values returns: the modules that were in the left list are in their
      objects, under their ids, and the objects appended hold one module
      for every module id of the right document that the left document
      did not have; the module under an id has every key of the left
      module and of the right modules with that id, its entries are
      entries of these modules, and it is the left module when the right
      document has no module with that id. *)
Theorem merge_in_place (h : gmap InPlace.loc InPlace.obj)
    (lhs rhs : InPlace.loc) (ld rd : InPlace.DocObj)
    (litems ritems : list InPlace.loc) (lms rms : list BuildModule) :
  h !! lhs = Some (InPlace.ODoc ld) → h !! rhs = Some (InPlace.ODoc rd) →
  h !! InPlace.do_modules ld = Some (InPlace.OList litems) →
  h !! InPlace.do_modules rd = Some (InPlace.OList ritems) →
  InPlace.rep h litems lms → InPlace.rep h ritems rms →
  InPlace.do_modules rd ≠ InPlace.do_modules ld →
  (∀ l, l ∈ ritems → l ∉ litems) →
  ∃ r h' new,
    InPlace.merge_buildinfo lhs rhs h = Some (r, h')
    ∧ (∀ v, r = Ok v → v = lhs)
    ∧ (∀ l, l ∈ InPlace.footprint h rhs → h' !! l = h !! l)
    ∧ InPlace.read_doc h' rhs = InPlace.read_doc h rhs
    ∧ h' !! lhs = Some (InPlace.ODoc ld)
    ∧ h' !! InPlace.do_modules ld = Some (InPlace.OList (litems ++ new))
    ∧ (∀ n, n ∈ new → h !! n = None)
    ∧ (NoDup litems →
       match merge_buildinfo (Some (InPlace.doc_value ld lms))
               (Some (InPlace.doc_value rd rms)) with
       | Ok d =>
           r = Ok lhs ∧ InPlace.read_doc h' lhs = Some d
           ∧ ∃ olds news,
               d = Some (InPlace.doc_value ld (olds ++ news))
               ∧ InPlace.rep h' litems olds ∧ InPlace.rep h' new news
               ∧ mod_id <$> olds = mod_id <$> lms
               ∧ NoDup (mod_id <$> news)
               ∧ (∀ i, i ∈ mod_id <$> news ↔
                       i ∈ mod_id <$> rms ∧ i ∉ mod_id <$> lms)
               ∧ ∀ mid, mid ∈ mod_id <$> lms ∨ mid ∈ mod_id <$> rms →
                   ∃ m', lookup_module mid (olds ++ news) = Some m'
                     ∧ carried "name" mod_artifacts mid
                         (found_module mid lms) rms m'
                     ∧ carried "id" mod_dependencies mid
                         (found_module mid lms) rms m'
                     ∧ (mid ∉ mod_id <$> rms →
                        lookup_module mid lms = Some m')
       | Raise e => r = Raise e
       end).
Proof.
  intros Hlhs Hrhs Hll Hrl Hlrep Hrrep Hlists Hsep.
  assert (Hfoot : Forall (λ l, l ≠ InPlace.do_modules ld ∧ (l ∉ litems)
                               ∧ is_Some (h !! l))
                    (InPlace.footprint h rhs)).
  { unfold InPlace.footprint. rewrite Hrhs, Hrl.
    repeat apply Forall_cons_2.
    - split; [congruence|]. split; [|by eexists].
      intros [m Hm]%(rep_elem_of _ _ _ _ Hlrep). congruence.
    - split; [done|]. split; [|by eexists].
      intros [m Hm]%(rep_elem_of _ _ _ _ Hlrep). congruence.
    - apply Forall_forall. intros l Hl.
      destruct (rep_elem_of _ _ _ _ Hrrep Hl) as [m Hm].
      split; [congruence|]. split; [by apply Hsep | by eexists]. }
  destruct (InPlaceFacts.merge_frame h lhs rhs ld rd litems ritems
              Hlhs Hrhs Hll Hrl Hfoot)
    as (r & h' & Hrun & Hv & Hlhs' & (new & Hlist' & Hfresh) & Hframe & Hread).
  exists r, h', new. repeat (split; [done|]). intros Hnd.
  destruct (InPlaceFacts.merge_refines h lhs rhs ld rd litems ritems lms rms)
    as (r2 & h2 & Hrun2 & Hmatch); try done.
  rewrite Hrun in Hrun2. injection Hrun2 as <- <-.
  destruct (merge_buildinfo (Some (InPlace.doc_value ld lms))
              (Some (InPlace.doc_value rd rms))) as [d|e] eqn:Hpure; [|done].
  destruct Hmatch as [-> Hd]. split; [done|]. split; [done|].
  unfold InPlace.read_doc in Hd. rewrite Hlhs', Hlist' in Hd.
  destruct (InPlace.read_modules h' (litems ++ new)) as [ms'|] eqn:Hms;
    [|done].
  simpl in Hd. injection Hd as <-.
  apply read_modules_Some in Hms.
  apply Forall2_app_inv_l in Hms as (olds & news & Holds & Hnews & ->).
  apply merge_buildinfo_Ok_inv in Hpure as (_ & ms'' & Hloop & [= <-]).
  simpl in Hloop.
  destruct (merge_loop_ids _ _ _ Hloop) as (ids & Hids & Hndids & Hchar & _).
  rewrite fmap_app in Hids.
  apply app_inj_1 in Hids as [Hold Hnew].
  - subst ids. exists olds, news. repeat (split; [done|]).
    intros mid Hmid.
    destruct (merge_loop_carried _ _ _ Hloop mid Hmid)
      as (m' & Hm' & _ & Ha & Hd).
    exists m'. repeat (split; [done|]).
    intros Hnin. by rewrite <- (merge_loop_other _ _ _ _ Hloop Hnin).
  - rewrite !length_fmap.
    rewrite <- (Forall2_length _ _ _ Holds). apply (Forall2_length _ _ _ Hlrep).
Qed.

Lemma merge_in_place_witness :
  ∃ r h' new,
    InPlace.merge_buildinfo 1 4 sample_heap = Some (r, h')
    ∧ (∀ l, l ∈ InPlace.footprint sample_heap 4 → h' !! l = sample_heap !! l)
    ∧ InPlace.read_doc h' 4 = InPlace.read_doc sample_heap 4
    ∧ h' !! 1 = sample_heap !! 1
    ∧ h' !! 2 = Some (InPlace.OList ([3] ++ new))
    ∧ (∀ n, n ∈ new → sample_heap !! n = None)
    ∧ r = Ok 1
    ∧ InPlace.read_doc h' 1
        = Some (Some (InPlace.doc_value
                        (InPlace.mkDocObj "1.0.1" "build" "7" "GENERIC" ""
                           ("", "") 2 None)
                        [merge_mod libfoo_recipe libfoo_recipe';
                         libbar_recipe]))
    ∧ InPlace.rep h' [3] [merge_mod libfoo_recipe libfoo_recipe']
    ∧ InPlace.rep h' new [libbar_recipe].
Proof.
  destruct (merge_in_place sample_heap 1 4
              (InPlace.mkDocObj "1.0.1" "build" "7" "GENERIC" "" ("", "") 2 None)
              (InPlace.mkDocObj "1.0.1" "build" "7" "GENERIC" "" ("", "") 5 None)
              [3] [6; 7] [libfoo_recipe] [libfoo_recipe'; libbar_recipe])
    as (r & h' & new & Hrun & _ & Hframe & Hread & Hlhs & Hlist & Hfresh & Hval).
  - vm_compute. reflexivity.
  - vm_compute. reflexivity.
  - vm_compute. reflexivity.
  - vm_compute. reflexivity.
  - repeat constructor.
  - repeat constructor.
  - vm_compute. discriminate.
  - intros l. rewrite !elem_of_cons, !elem_of_nil. lia.
  - exists r, h', new. repeat (split; [assumption|]).
    assert (Hpure :
      merge_buildinfo
        (Some (InPlace.doc_value
                 (InPlace.mkDocObj "1.0.1" "build" "7" "GENERIC" "" ("", "") 2 None)
                 [libfoo_recipe]))
        (Some (InPlace.doc_value
                 (InPlace.mkDocObj "1.0.1" "build" "7" "GENERIC" "" ("", "") 5 None)
                 [libfoo_recipe'; libbar_recipe]))
      = Ok (Some (InPlace.doc_value
                    (InPlace.mkDocObj "1.0.1" "build" "7" "GENERIC" "" ("", "") 2 None)
                    [merge_mod libfoo_recipe libfoo_recipe'; libbar_recipe])))
      by (vm_compute; reflexivity).
    rewrite Hpure in Hval.
    destruct Hval as (Hr & Hd & olds & news & Heq & Holds & Hnews & _).
    { repeat constructor. rewrite elem_of_nil. tauto. }
    split; [exact Hr|]. split; [exact Hd|].
    injection Heq as Heq.
    pose proof (Forall2_length _ _ _ Holds) as Hlen.
    destruct olds as [|o [|o' olds]]; try discriminate Hlen.
    simpl in Heq. injection Heq as <- <-. by split.
Defined.

(** C10, the claim refuted: for two documents that share a module
    object, the merge returns the left location, and the right location
    no longer holds the document it held. *)
Lemma merge_shared_module :
  is_Some (InPlace.read_doc shared_heap 1)
  ∧ is_Some (InPlace.read_doc shared_heap 4)
  ∧ ∃ h', InPlace.merge_buildinfo 1 4 shared_heap = Some (Ok 1, h')
      ∧ InPlace.read_doc h' 4 ≠ InPlace.read_doc shared_heap 4.
Proof.
  split; [vm_compute; by eexists|]. split; [vm_compute; by eexists|].
  eexists. split; [vm_compute; reflexivity|].
  vm_compute. discriminate.
Qed.
